(** * TeleFrame addon interface: a shallow embedding of [js/addonInterface.js]

    The development follows the JavaScript source top to bottom: the two
    event vocabularies, [getClassLogger], [removeInvalidAddonNameChars],
    the [AddonBase] class, the [AddonInterface] constructor with its loader
    and router, [executeEventCallbacks], [initAddonInterface] and
    [addonControl]. The properties come second; each names the lines of the
    source it is about.

    Conventions of the embedding.
    - A JavaScript string is a [string]; one [ascii] stands for one code
      unit below 256.
    - Host objects (the logger, the emitter, [ipcMain], the console, the
      configuration module) are observed through a trace of the calls made
      on them; the logger, [ipcMain.on] and the console do not throw, the
      emitter's [send], [require] and [writeConfig] may.
    - Code that can throw runs in a state-and-exception monad over the
      module state. A thrown value is an [Error] object with its class and
      its [stack] text, or [null] or [undefined], or some other value
      without a [stack]; the [catch] blocks of the source read
      [error.stack], which itself throws on the second kind.
    - A JavaScript object used as a map is an association list in the
      order [Object.keys] enumerates: array indices first, in ascending
      order, then the other names in insertion order. A lookup [o[k]]
      that finds no own property goes on to the prototype, which is
      [Object.prototype] for the configuration's maps and
      [Array.prototype] for the listeners of an addon; both start out as
      the runtime ships them.
    - The code of an addon is an input: a module is described by what its
      [require] yields, an exported function by its kind and by the calls
      its body makes on the object it is given, a callback by whether it
      throws. *)

From Stdlib Require Import String Ascii List Bool ZArith NArith Lia.
Import ListNotations.
Local Open Scope string_scope.

(** ** Strings and arrays *)

(** The line feed the source writes as a backslash-n escape. *)
Definition LF : string := String "010"%char EmptyString.

(** [Array.prototype.indexOf] on an array of strings: the first index
    holding [x], or -1. *)
Fixpoint indexOfFrom (i : Z) (x : string) (l : list string) : Z :=
  match l with
  | [] => (-1)%Z
  | y :: rest => if String.eqb y x then i else indexOfFrom (i + 1) x rest
  end.

Definition indexOf (l : list string) (x : string) : Z := indexOfFrom 0 x l.

(** The test [arr.indexOf(x) > -1] that the source uses for membership. *)
Definition includes (l : list string) (x : string) : bool :=
  (indexOf l x >? -1)%Z.

(** The same test on a string, where [indexOf] searches a substring. *)
Definition includesText (s x : string) : bool :=
  match String.index 0 x s with
  | Some _ => true
  | None => false
  end.

(** The text an array takes inside a template literal: its elements joined
    by commas. *)
Fixpoint joinComma (l : list string) : string :=
  match l with
  | [] => EmptyString
  | [x] => x
  | x :: rest => x ++ "," ++ joinComma rest
  end.

(** [String.prototype.padEnd(n, ' ')]. *)
Definition padEnd (s : string) (n : nat) : string :=
  s ++ String.concat EmptyString (repeat " " (n - String.length s)).

(** ** Event vocabularies (lines 7-45) *)

Definition validInputEvents : list string :=
  [ "next"; "previous"; "pause"; "play"; "playPause"; "newest"; "delete";
    "star"; "mute"; "reboot"; "shutdown"; "record"; "askConfirm";
    "askCancel"; "messageBox"; "imagesUpdated"; "reloadRenderer" ].

Definition validListenEvents : list string :=
  [ "renderer-ready"; "images-loaded"; "teleFrame-ready"; "starImage";
    "unstarImage"; "deleteImage"; "imageDeleted"; "removeImageUnseen";
    "newImage"; "paused"; "muted"; "recordStarted"; "recordStopped";
    "recordError"; "changingActiveImage"; "changedActiveImage" ].

(** ** Name sanitizer (line 72) *)

(** The class [\s] of a regular expression, on code units below 256: tab,
    line feed, vertical tab, form feed, carriage return, space and the
    no-break space. *)
Definition isWhitespace (c : ascii) : bool :=
  let n := nat_of_ascii c in
  (((9 <=? n) && (n <=? 13)) || (n =? 32) || (n =? 160))%nat.

Definition isDot (c : ascii) : bool := Ascii.eqb c ".".
Definition isSlash (c : ascii) : bool := Ascii.eqb c "/".

(** [addonName.replace(/\.\/\s/g, '')]: the pattern is the three-character
    sequence dot, slash, whitespace; with the [g] flag every match, found
    left to right without overlap, is deleted. *)
Fixpoint removeInvalidAddonNameChars (addonName : string) : string :=
  match addonName with
  | EmptyString => EmptyString
  | String a t =>
      match t with
      | String b (String c rest) =>
          if isDot a && isSlash b && isWhitespace c
          then removeInvalidAddonNameChars rest
          else String a (removeInvalidAddonNameChars t)
      | _ => String a (removeInvalidAddonNameChars t)
      end
  end.

(** The sanitizer as the specification words it: every dot, slash and
    whitespace character is removed wherever it stands, every other
    character is kept. *)
Definition isInvalidNameChar (c : ascii) : bool :=
  isDot c || isSlash c || isWhitespace c.

Fixpoint stripInvalidChars_spec (addonName : string) : string :=
  match addonName with
  | EmptyString => EmptyString
  | String a t =>
      if isInvalidNameChar a then stripInvalidChars_spec t
      else String a (stripInvalidChars_spec t)
  end.

(** ** Thrown values and host objects *)

Inductive ErrorClass := TypeError | ReferenceError | AddonError | OtherError.

(** An [Error] object: its class (what [instanceof] tests), its message and
    the text of its [stack] property. *)
Record JsError := mkError {
  err_class : ErrorClass;
  err_message : string;
  err_stack : string
}.

Definition isTypeError (e : JsError) : bool :=
  match err_class e with TypeError => true | _ => false end.

(** [new AddonError(msg)] (lines 78-82). *)
Definition newAddonError (msg : string) : JsError :=
  mkError AddonError msg ("Error: " ++ msg).

(** The [TypeError] the runtime raises on a property read of [undefined]
    or [null], on a call of a non-function, and the like. *)
Definition newTypeError (msg : string) : JsError :=
  mkError TypeError msg ("TypeError: " ++ msg).

(** The [ReferenceError] the runtime raises on an identifier with no
    binding in scope. *)
Definition newReferenceError (msg : string) : JsError :=
  mkError ReferenceError msg ("ReferenceError: " ++ msg).

Definition singletonMessage : string :=
  "Only one instance of the AddonInterface-class is allowed.".

(** [null] and [undefined]. *)
Inductive Nothing := Null | Undefined.

Definition nothingName (n : Nothing) : string :=
  match n with
  | Null => "null"
  | Undefined => "undefined"
  end.

(** What a [throw] statement carries. JavaScript lets any value be thrown:
    an [Error] object; [null] or [undefined]; or another value, of which
    the source only ever reads the property [stack], which a string, a
    number or a plain object does not have. *)
Inductive Raised :=
| ErrorObject (e : JsError)
| Nullish (n : Nothing)
| NoStack.

Coercion ErrorObject : JsError >-> Raised.

(** [error instanceof TypeError]. *)
Definition instanceOfTypeError (error : Raised) : bool :=
  match error with
  | ErrorObject e => isTypeError e
  | _ => false
  end.

(** The host's logger, [ipcMain] and image array are references; the
    embedding tells them apart by a number. *)
Definition HostLogger := nat.
Definition IpcMain := nat.
Definition Images := list string.

(** The emitter: its identity, and whether its [send] throws. *)
Record Emitter := {
  emitter_id : nat;
  send_throws : string -> list string -> option Raised
}.

(** A callback an addon registers: its identity, and whether it throws on
    the arguments it is called with. *)
Record Callback := {
  cb_id : nat;
  cb_run : list string -> option Raised
}.

(** What the host can observe, in the order it happens. *)
Inductive Event :=
| HostLog (logger : HostLogger) (type : string) (text : string)
| EmitterSend (emitter : nat) (eventName : string) (args : list string)
| IpcOn (ipc : IpcMain) (eventName : string)
| CallbackRun (cb : nat) (args : list string).

(** ** Objects used as maps *)

(** An array index: the canonical decimal text of an integer below
    [2^32 - 1]. [Object.keys] lists the own properties that are array
    indices first, in ascending order. *)
Definition digitOf (c : ascii) : option N :=
  let n := N_of_ascii c in
  if ((48 <=? n) && (n <=? 57))%N then Some (n - 48)%N else None.

Fixpoint parseDigits (s : string) (acc : N) : option N :=
  match s with
  | EmptyString => Some acc
  | String c t =>
      match digitOf c with
      | Some d => parseDigits t (10 * acc + d)%N
      | None => None
      end
  end.

Definition arrayIndex (k : string) : option N :=
  match k with
  | EmptyString => None
  | String c t =>
      if Ascii.eqb c "0" && negb (String.eqb t EmptyString) then None
      else
        match parseDigits k 0 with
        | Some n => if (n <=? 4294967294)%N then Some n else None
        | None => None
        end
  end.

Section OwnProperties.
Context {V : Type}.

(** [o[k]] on own properties: [None] when [o] has no own property [k]. *)
Fixpoint getOwn (o : list (string * V)) (k : string) : option V :=
  match o with
  | [] => None
  | (k', v) :: rest => if String.eqb k' k then Some v else getOwn rest k
  end.

(** Whether the new key [k] is enumerated before the own key [k']. *)
Definition keyBefore (k k' : string) : bool :=
  match arrayIndex k, arrayIndex k' with
  | Some n, Some n' => (n <? n')%N
  | Some _, None => true
  | None, _ => false
  end.

(** [o[k] = v] on own properties: an existing key keeps its place, a new
    one takes the place [Object.keys] gives it. *)
Fixpoint setOwn (o : list (string * V)) (k : string) (v : V)
    : list (string * V) :=
  match o with
  | [] => [(k, v)]
  | (k', v') :: rest =>
      if String.eqb k' k then (k', v) :: rest
      else
        match getOwn rest k with
        | Some _ => (k', v') :: setOwn rest k v
        | None =>
            if keyBefore k k' then (k, v) :: (k', v') :: rest
            else (k', v') :: setOwn rest k v
        end
  end.

(** [delete o[k]]. *)
Fixpoint deleteOwn (o : list (string * V)) (k : string) : list (string * V) :=
  match o with
  | [] => []
  | (k', v') :: rest =>
      if String.eqb k' k then deleteOwn rest k else (k', v') :: deleteOwn rest k
  end.

(** [Object.keys(o)]. *)
Definition keys (o : list (string * V)) : list string := map fst o.

(** [target[k] = v] for a primitive [v], where [target] inherits the
    accessor [__proto__] of [Object.prototype]: with no own property of
    that name the assignment reaches the accessor, which ignores a value
    that is no object. *)
Definition assignField (target : list (string * V)) (k : string) (v : V)
    : list (string * V) :=
  match getOwn target k with
  | Some _ => setOwn target k v
  | None => if String.eqb k "__proto__" then target else setOwn target k v
  end.

(** [Object.assign(target, source)] for a [source] whose values are
    primitives: one assignment per own property of [source]. *)
Definition assign (target source : list (string * V)) : list (string * V) :=
  fold_left (fun t kv => assignField t (fst kv) (snd kv)) source target.
End OwnProperties.

(** ** Configuration *)

(** The values an addon entry holds under its keys. *)
Inductive Prim := PBool (b : bool) | PString (s : string).

Definition Fields := list (string * Prim).

(** What an own property of [config.addonInterface.addons] can hold:
    [null] (or an explicit [undefined]), a primitive, or an object with
    its fields. *)
Inductive ConfigValue :=
| CfgNullish
| CfgPrim (p : Prim)
| CfgObject (fields : Fields).

(** [config.addonInterface]: the [logging] types and the [addons] map. *)
Record Config := {
  cfg_logging : list string;
  cfg_addons : list (string * ConfigValue)
}.

(** [fields.enabled === false]. *)
Definition enabledIsFalse (fields : Fields) : bool :=
  match getOwn fields "enabled" with
  | Some (PBool false) => true
  | _ => false
  end.

(** Truthiness of a value stored under an addon name. *)
Definition truthyPrim (p : Prim) : bool :=
  match p with
  | PBool b => b
  | PString s => negb (String.eqb s EmptyString)
  end.

Definition truthy (v : option ConfigValue) : bool :=
  match v with
  | None | Some CfgNullish => false
  | Some (CfgPrim p) => truthyPrim p
  | Some (CfgObject _) => true
  end.

(** The methods every object inherits from [Object.prototype]; the
    accessor [__proto__], which yields [Object.prototype] itself, comes on
    top of them. *)
Definition objectPrototypeMethods : list string :=
  [ "constructor"; "__defineGetter__"; "__defineSetter__"; "hasOwnProperty";
    "__lookupGetter__"; "__lookupSetter__"; "isPrototypeOf";
    "propertyIsEnumerable"; "toString"; "valueOf"; "toLocaleString" ].

(** What [config.addonInterface.addons[name]] evaluates to: the value of
    the own property; or, through the prototype chain, a method of
    [Object.prototype] or [Object.prototype] itself; or [undefined]. *)
Inductive Member :=
| Own (v : ConfigValue)
| InheritedMethod
| ObjectPrototype
| Missing.

Definition getMember (o : list (string * ConfigValue)) (k : string) : Member :=
  match getOwn o k with
  | Some v => Own v
  | None =>
      if String.eqb k "__proto__" then ObjectPrototype
      else if includes objectPrototypeMethods k then InheritedMethod
      else Missing
  end.

(** Truthiness of what the lookup yields: a function and
    [Object.prototype] are truthy. *)
Definition truthyMember (m : Member) : bool :=
  match m with
  | Own v => truthy (Some v)
  | InheritedMethod | ObjectPrototype => true
  | Missing => false
  end.

(** ** [getClassLogger] (lines 54-65) *)

(** The values the properties [logger], [logTypes] and [images] of a
    configuration object can hold: what the loader puts there, or a
    primitive that [Object.assign] copied from an entry with a key of the
    same name. *)
Inductive JsValue :=
| VHostLogger (logger : HostLogger)
| VImages (images : Images)
| VStrings (l : list string)
| VPrim (p : Prim).

(** The object [getClassLogger] returns: the prefix, the logger it
    forwards to and the enabled types are captured by its closures. *)
Record ClassLogger := {
  cl_name : string;
  cl_logger : JsValue;
  cl_enabledTypes : option JsValue
}.

(** [getClassLogger(name, logger, enabledTypes)]: line 63,
    [loggerObj.log = logger.info], throws on an undefined [logger]. *)
Definition getClassLogger (name : string) (logger : option JsValue)
    (enabledTypes : option JsValue) : JsError + ClassLogger :=
  match logger with
  | None =>
      inl (newTypeError "Cannot read properties of undefined (reading 'info')")
  | Some l =>
      inr {| cl_name := name; cl_logger := l; cl_enabledTypes := enabledTypes |}
  end.

(** The scoped logger over a host logger and an array of types: what
    [getClassLogger] returns at line 103, and at line 387 on the object the
    loader built. *)
Definition scopedLogger (name : string) (logger : HostLogger)
    (enabledTypes : list string) : ClassLogger :=
  {| cl_name := name;
     cl_logger := VHostLogger logger;
     cl_enabledTypes := Some (VStrings enabledTypes) |}.

(** [enabledTypes.indexOf(type) > -1] (line 58): an array is searched for
    the element, a string for the substring, and anything else has no
    [indexOf]. *)
Definition enabledFor (enabledTypes : option JsValue) (type : string)
    : JsError + bool :=
  match enabledTypes with
  | Some (VStrings l) | Some (VImages l) => inr (includes l type)
  | Some (VPrim (PString s)) => inr (includesText s type)
  | Some (VPrim (PBool _)) | Some (VHostLogger _) =>
      inl (newTypeError "enabledTypes.indexOf is not a function")
  | None =>
      inl (newTypeError "Cannot read properties of undefined (reading 'indexOf')")
  end.

(** What a call [loggerObj[type](...args)] shows on the host logger when
    the scoped logger stands over a host logger and an array of types: one
    line, prefixed by the name, when [type] is among the enabled types,
    and nothing otherwise. *)
Definition classLog (l : ClassLogger) (type : string) (args : list string)
    : list Event :=
  match cl_logger l, cl_enabledTypes l with
  | VHostLogger logger, Some (VStrings types) =>
      if includes types type
      then [HostLog logger type ("[" ++ cl_name l ++ "] " ++ joinComma args)]
      else []
  | _, _ => []
  end.

(** ** Instances of the two classes *)

(** The object the loader builds at lines 117-122 and hands to the addon:
    [ac_entry] is its property [teleFrameAddonConfig], the addon's entry,
    until [AddonBase]'s constructor deletes it; [ac_props] holds its other
    properties, at first [logger], [logTypes] and [images]. *)
Record AddonConfig := {
  ac_entry : option Fields;
  ac_props : list (string * JsValue)
}.

(** The listeners of an addon, an array used as a map: event name to
    callbacks. *)
Definition Listeners := list (string * list Callback).

Record AddonBase := {
  ab_name : string;                (* this._name *)
  ab_images : option JsValue;      (* this._images *)
  ab_logger : ClassLogger;         (* this._logger *)
  ab_listeners : Listeners;        (* this.listeners *)
  ab_config : AddonConfig          (* this._config *)
}.

Record AddonInterface := {
  ai_addons : list AddonBase;      (* this.addons *)
  ai_emitter : Emitter;            (* this.emitter *)
  ai_ipcMain : IpcMain;            (* this.ipcMain *)
  ai_images : Images;              (* this.images *)
  ai_listeners : list string;      (* this.listeners *)
  ai_logger : ClassLogger          (* this.logger *)
}.

(** ** Module state and the monad of the code *)

(** The module-level variable [addonInterfaceObj] (line 4; [None] is
    [null]), the trace of what the host objects were asked to do, and the
    elements of [Array.prototype], which has none until an addon registers
    callbacks under the name [__proto__]. The registry under construction
    is the object [addonInterfaceObj] refers to from line 93 on, so every
    update of [this] is an update here. *)
Record World := {
  addonInterfaceObj : option AddonInterface;
  trace : list Event;
  arrayPrototype : list Callback
}.

(** How a piece of code ends: it returns, it throws, or the process
    exits ([process.exit], which no [catch] sees). *)
Inductive Completion (A : Type) :=
| Returned (a : A)
| Thrown (e : Raised)
| Exited (code : Z).
Arguments Returned {A} a.
Arguments Thrown {A} e.
Arguments Exited {A} code.

Section Effects.
Context {S : Type}.

Definition Eff (A : Type) : Type := S -> S * Completion A.

Definition ret {A} (a : A) : Eff A := fun s => (s, Returned a).

Definition throw {A} (e : Raised) : Eff A := fun s => (s, Thrown e).

Definition bind {A B} (m : Eff A) (k : A -> Eff B) : Eff B :=
  fun s =>
    match m s with
    | (s', Returned a) => k a s'
    | (s', Thrown e) => (s', Thrown e)
    | (s', Exited code) => (s', Exited code)
    end.

(** [try { m } catch (error) { handler }]. *)
Definition tryCatch {A} (m : Eff A) (handler : Raised -> Eff A) : Eff A :=
  fun s =>
    match m s with
    | (s', Thrown e) => handler e s'
    | other => other
    end.

(** [error.stack]: the text of an [Error] object's stack, [undefined]
    ([None]) on a value that has none, and a [TypeError] on [null] and
    [undefined]. *)
Definition stackOf (error : Raised) : Eff (option string) :=
  match error with
  | ErrorObject e => ret (Some (err_stack e))
  | NoStack => ret None
  | Nullish n =>
      throw (newTypeError ("Cannot read properties of " ++ nothingName n
                           ++ " (reading 'stack')"))
  end.
End Effects.
Arguments Eff S A : clear implicits.

Notation "x <- m ;; k" := (bind m (fun x => k))
  (at level 61, m at next level, right associativity).
Notation "m ;; k" := (bind m (fun _ => k))
  (at level 61, right associativity).

(** [undefined] among the elements of an array that a template literal
    turns into text contributes the empty string. *)
Definition joinedArg (v : option string) : string :=
  match v with
  | Some s => s
  | None => EmptyString
  end.

(** [undefined] as the console prints it. *)
Definition printedArg (v : option string) : string :=
  match v with
  | Some s => s
  | None => "undefined"
  end.

(** [arr.forEach(f)]: a throw of [f] ends the loop. *)
Fixpoint forEach {S A} (f : A -> Eff S unit) (l : list A) : Eff S unit :=
  match l with
  | [] => ret tt
  | x :: rest => f x ;; forEach f rest
  end.

Definition M (A : Type) : Type := Eff World A.

(** The world after the host objects saw [evs]. *)
Definition extend (w : World) (evs : list Event) : World :=
  {| addonInterfaceObj := addonInterfaceObj w;
     trace := (trace w ++ evs)%list;
     arrayPrototype := arrayPrototype w |}.

Definition record (evs : list Event) : M unit :=
  fun w => (extend w evs, Returned tt).

(** A call [loggerObj[type](...args)] of a scoped logger (lines 57-61). *)
Definition log (l : ClassLogger) (type : string) (args : list string) : M unit :=
  match enabledFor (cl_enabledTypes l) type with
  | inl e => throw e
  | inr false => ret tt
  | inr true =>
      match cl_logger l with
      | VHostLogger logger =>
          record [HostLog logger type ("[" ++ cl_name l ++ "] " ++ joinComma args)]
      | _ => throw (newTypeError "logger[type] is not a function")
      end
  end.

(** [addonInterfaceObj.<field>]: reading a field of [null] throws. *)
Definition theInterface : M AddonInterface :=
  fun w =>
    match addonInterfaceObj w with
    | Some r => (w, Returned r)
    | None => (w, Thrown (newTypeError "Cannot read properties of null"))
    end.

(** An assignment to a field of the registry. *)
Definition updateInterface (f : AddonInterface -> AddonInterface) : M unit :=
  fun w => ({| addonInterfaceObj := option_map f (addonInterfaceObj w);
               trace := trace w;
               arrayPrototype := arrayPrototype w |}, Returned tt).

(** ** Class [AddonBase] (lines 359-483) *)

(** [a || b] on strings: the empty string is falsy. *)
Definition orElse (a b : string) : string :=
  if String.eqb a EmptyString then b else a.

(** An entry's fields as properties of the configuration object. *)
Definition asProps (fields : Fields) : list (string * JsValue) :=
  map (fun kv => (fst kv, VPrim (snd kv))) fields.

(** Lines 404-411: what the constructor makes of [addonConfig]. It deletes
    [images] and [logger], assigns the entry's fields, then deletes
    [teleFrameAddonConfig]: a field of the entry named [logger], [images]
    or [logTypes] ends up on the object. *)
Definition prepareConfig (addonConfig : AddonConfig) : AddonConfig :=
  let stripped := deleteOwn (deleteOwn (ac_props addonConfig) "images") "logger" in
  let assigned :=
    match ac_entry addonConfig with
    | Some fields => assign stripped (asProps fields)
    | None => stripped
    end in
  {| ac_entry := None;
     ac_props := deleteOwn assigned "teleFrameAddonConfig" |}.

(** The instance the constructor builds for the name [name] once its
    scoped logger is there. *)
Definition baseInstance (name : string) (logger : ClassLogger)
    (addonConfig : AddonConfig) : AddonBase :=
  {| ab_name := name;
     ab_images := getOwn (ac_props addonConfig) "images";
     ab_logger := logger;
     ab_listeners := [];
     ab_config := prepareConfig addonConfig |}.

(** The constructor (lines 365-412). [loggerName] is [None] when the
    argument is not passed; [constructorName] is [this.constructor.name].
    It returns the new instance together with [addonConfig] as it leaves
    it: the caller's object is mutated in place. *)
Definition AddonBase_constructor (addonConfig : AddonConfig)
    (loggerName : option string) (constructorName : string)
    : M (AddonBase * AddonConfig) :=
  fun w =>
    match addonInterfaceObj w with
    | None => (w, Thrown (newAddonError "AddonInterface was not initialized."))
    | Some _ =>
        let name :=
          match loggerName with
          | Some n => orElse n constructorName
          | None => constructorName
          end in
        match getClassLogger ("addon " ++ name)
                             (getOwn (ac_props addonConfig) "logger")
                             (getOwn (ac_props addonConfig) "logTypes") with
        | inl e => (w, Thrown e)
        | inr logger =>
            (w, Returned (baseInstance name logger addonConfig,
                          prepareConfig addonConfig))
        end
    end.

(** An argument that is one value or an array of values. *)
Inductive OneOrMany (A : Type) :=
| One (a : A)
| Many (l : list A).
Arguments One {A} a.
Arguments Many {A} l.

(** [if (!Array.isArray(x)) x = [x]]. *)
Definition toArray {A} (x : OneOrMany A) : list A :=
  match x with
  | One a => [a]
  | Many l => l
  end.

(** The methods an array inherits from [Array.prototype] and, behind it,
    from [Object.prototype], as ECMAScript 2023 lists them. *)
Definition arrayPrototypeMethods : list string :=
  [ "at"; "concat"; "copyWithin"; "entries"; "every"; "fill"; "filter";
    "find"; "findIndex"; "findLast"; "findLastIndex"; "flat"; "flatMap";
    "forEach"; "includes"; "indexOf"; "join"; "keys"; "lastIndexOf"; "map";
    "pop"; "push"; "reduce"; "reduceRight"; "reverse"; "shift"; "slice";
    "some"; "sort"; "splice"; "toReversed"; "toSorted"; "toSpliced";
    "unshift"; "values"; "with" ].

(** What [this.listeners[name]] finds when the array has no own property
    [name]. *)
Inductive Inherited :=
| NoMember                      (* undefined *)
| TheLength                     (* the array's own [length], a number *)
| AFunction                     (* a method, or a callback that sits on
                                   [Array.prototype] at that index *)
| TheArrayPrototype.            (* [__proto__] *)

Definition inheritedByArray (pushed : list Callback) (name : string)
    : Inherited :=
  if String.eqb name "length" then TheLength
  else if String.eqb name "__proto__" then TheArrayPrototype
  else if includes arrayPrototypeMethods name
          || includes objectPrototypeMethods name then AFunction
  else
    match arrayIndex name with
    | Some i => if (i <? N.of_nat (length pushed))%N then AFunction else NoMember
    | None => NoMember
    end.

Definition notAFunction (what : string) : JsError :=
  newTypeError (what ++ " is not a function").

(** The body of the loop of [registerListener] for one name (lines
    456-462). A name the array has or inherits is not initialised; the
    callbacks are then pushed onto what [this.listeners[name]] holds, which
    throws when that is a number or a function and lands on
    [Array.prototype] when the name is [__proto__]. *)
Definition pushCallbacks (this : AddonBase) (name : string)
    (callbacks : list Callback) : M AddonBase :=
  fun w =>
    let store (l : list Callback) :=
      {| ab_name := ab_name this;
         ab_images := ab_images this;
         ab_logger := ab_logger this;
         ab_listeners := setOwn (ab_listeners this) name l;
         ab_config := ab_config this |} in
    match getOwn (ab_listeners this) name with
    | Some existing => (w, Returned (store (existing ++ callbacks)%list))
    | None =>
        match inheritedByArray (arrayPrototype w) name with
        | NoMember => (w, Returned (store callbacks))
        | TheLength | AFunction =>
            (w, Thrown (notAFunction "this.listeners[name].push"))
        | TheArrayPrototype =>
            ({| addonInterfaceObj := addonInterfaceObj w;
                trace := trace w;
                arrayPrototype := (arrayPrototype w ++ callbacks)%list |},
             Returned this)
        end
    end.

(** [registerListener(eventName, callbacks)] (lines 451-464). *)
Fixpoint registerNames (this : AddonBase) (names : list string)
    (callbacks : list Callback) : M AddonBase :=
  match names with
  | [] => ret this
  | name :: rest =>
      this' <- pushCallbacks this name callbacks ;;
      registerNames this' rest callbacks
  end.

Definition registerListener (this : AddonBase)
    (eventName : OneOrMany string) (callbacks : OneOrMany Callback)
    : M AddonBase :=
  registerNames this (toArray eventName) (toArray callbacks).

(** [emitter.send(eventName, ...args)]: the call is made, then it may
    throw. *)
Definition emitterSend (em : Emitter) (eventName : string)
    (args : list string) : M unit :=
  record [EmitterSend (emitter_id em) eventName args] ;;
  match send_throws em eventName args with
  | Some e => throw e
  | None => ret tt
  end.

(** [sendEvent(eventName, ...args)] (lines 471-481). The arguments of the
    call of line 476 are evaluated before the call: reading [error.stack]
    can throw. *)
Definition sendEvent (this : AddonBase) (eventName : string)
    (args : list string) : M unit :=
  if includes validInputEvents eventName then
    tryCatch
      (obj <- theInterface ;;
       emitterSend (ai_emitter obj) eventName args)
      (fun error =>
         stack <- stackOf error ;;
         log (ab_logger this) "error"
             ["Error send input event " ++ eventName ++ "!" ++ LF;
              joinedArg stack])
  else
    log (ab_logger this) "warn"
        ["sendEvent: Ignored invalid eventName '" ++ eventName ++ "'!"].

(** ** Addon modules *)

(** The three methods of a logger that the code of an addon calls. *)
Inductive Level := LevelInfo | LevelWarn | LevelError.

Definition levelName (level : Level) : string :=
  match level with
  | LevelInfo => "info"
  | LevelWarn => "warn"
  | LevelError => "error"
  end.

(** What the code of an addon does with the object [addon] it works on,
    the instance or, for a plain function under [new], the configuration
    object: [addon.registerListener(...)], [addon.sendEvent(...)],
    [addon.logger.<level>(text)], or a [throw]. *)
Inductive AddonOp :=
| OpRegisterListener (eventName : OneOrMany string)
                     (callbacks : OneOrMany Callback)
| OpSendEvent (eventName : string) (args : list string)
| OpLog (level : Level) (text : string)
| OpThrow (e : Raised).

(** Runs the operations on the instance [self] until one throws. *)
Fixpoint runOps (ops : list AddonOp) (self : AddonBase) : M AddonBase :=
  match ops with
  | [] => ret self
  | OpRegisterListener names cbs :: rest =>
      self' <- registerListener self names cbs ;;
      runOps rest self'
  | OpSendEvent eventName args :: rest =>
      sendEvent self eventName args ;; runOps rest self
  | OpLog level text :: rest =>
      log (ab_logger self) (levelName level) [text] ;; runOps rest self
  | OpThrow e :: _ => throw e
  end.

(** Runs the operations on the configuration object, as [new] of a plain
    function does: the object has no [registerListener] and no
    [sendEvent], and its [logger] is the host's logger itself, which gets
    the text as it is. *)
Fixpoint runOpsOnConfig (ops : list AddonOp) (addonConfig : AddonConfig)
    : M unit :=
  match ops with
  | [] => ret tt
  | OpRegisterListener _ _ :: _ => throw (notAFunction "addon.registerListener")
  | OpSendEvent _ _ :: _ => throw (notAFunction "addon.sendEvent")
  | OpLog level text :: rest =>
      match getOwn (ac_props addonConfig) "logger" with
      | Some (VHostLogger logger) =>
          record [HostLog logger (levelName level) text] ;;
          runOpsOnConfig rest addonConfig
      | Some _ => throw (notAFunction ("addon.logger." ++ levelName level))
      | None =>
          throw (newTypeError ("Cannot read properties of undefined (reading '"
                               ++ levelName level ++ "')"))
      end
  | OpThrow e :: _ => throw e
  end.

(** The kinds of function a module can export: an arrow function, which
    [new] refuses; a plain function of one parameter; a class that extends
    [AddonBase], whose constructor calls [super(addonConfig)] and then
    works on [this]; any other class. *)
Inductive FunctionKind :=
| ArrowFunction
| PlainFunction
| DerivedClass
| OtherClass.

(** An exported function or class: its [name], its kind and the
    operations of its body. *)
Record ExportedFunction := {
  fn_name : string;
  fn_kind : FunctionKind;
  fn_body : list AddonOp
}.

(** An exported value, by [typeof]. *)
Inductive Exported :=
| ExpFunction (f : ExportedFunction)
| ExpOther.

(** What [require] of an addon's folder yields: it throws; or the
    module's exports are [null] or [undefined]; or it returns the exports,
    with their truthy [addon] property if any. *)
Inductive Required :=
| RequireThrows (e : Raised)
| RequireNothing (n : Nothing)
| RequireModule (exports : Exported) (addon : option Exported).

(** The addon folders, by addon name. *)
Definition Modules := string -> Required.

(** ** Class [AddonInterface]: the loader (lines 107-170) *)

(** Lines 125-129: [require] the addon, then take its [addon] property when
    it has a truthy one. *)
Definition requireAddon (require : Modules) (addonName : string) : M Exported :=
  match require addonName with
  | RequireThrows e => throw e
  | RequireNothing n =>
      throw (newTypeError ("Cannot read properties of " ++ nothingName n
                           ++ " (reading 'addon')"))
  | RequireModule exports None => ret exports
  | RequireModule _ (Some wrapped) => ret wrapped
  end.

Definition notCallable (name : string) : JsError :=
  newTypeError ("Class constructor " ++ name ++ " cannot be invoked without 'new'").

(** Line 137, [new AddonClass(addonConfig)]: the outcome, and [addonConfig]
    as the attempt leaves it. [None] is an object that is no [AddonBase]. *)
Definition newAddonClass (f : ExportedFunction) (addonConfig : AddonConfig)
    : World -> World * (Completion (option AddonBase) * AddonConfig) :=
  fun w =>
    match fn_kind f with
    | ArrowFunction =>
        (w, (Thrown (newTypeError "AddonClass is not a constructor"),
             addonConfig))
    | PlainFunction =>
        match runOpsOnConfig (fn_body f) addonConfig w with
        | (w1, Returned _) => (w1, (Returned None, addonConfig))
        | (w1, Thrown e) => (w1, (Thrown e, addonConfig))
        | (w1, Exited code) => (w1, (Exited code, addonConfig))
        end
    | OtherClass => (w, (Returned None, addonConfig))
    | DerivedClass =>
        match AddonBase_constructor addonConfig None (fn_name f) w with
        | (w1, Thrown e) => (w1, (Thrown e, addonConfig))
        | (w1, Exited code) => (w1, (Exited code, addonConfig))
        | (w1, Returned (self, prepared)) =>
            match runOps (fn_body f) self w1 with
            | (w2, Returned self') => (w2, (Returned (Some self'), prepared))
            | (w2, Thrown e) => (w2, (Thrown e, prepared))
            | (w2, Exited code) => (w2, (Exited code, prepared))
            end
        end
    end.

(** [AddonClass(this)] at line 146: a function runs its body on the
    instance, a class cannot be called. *)
Definition callUnit (f : ExportedFunction) (self : AddonBase) : M AddonBase :=
  match fn_kind f with
  | ArrowFunction | PlainFunction => runOps (fn_body f) self
  | DerivedClass | OtherClass => throw (notCallable (fn_name f))
  end.

(** Lines 142-148: the anonymous class that extends [AddonBase] and calls
    the exported function on the new instance. *)
Definition newFunctionAddon (f : ExportedFunction) (addonConfig : AddonConfig)
    (addonName : string) : M (option AddonBase) :=
  built <- AddonBase_constructor addonConfig
             (Some (orElse (fn_name f) addonName)) EmptyString ;;
  self <- callUnit f (fst built) ;;
  ret (Some self).

(** Lines 135-152: the class attempt and, on a [TypeError], the fallback
    on the same [addonConfig] object. *)
Definition constructAddon (f : ExportedFunction) (addonConfig : AddonConfig)
    (addonName : string) : M (option AddonBase) :=
  fun w =>
    match newAddonClass f addonConfig w with
    | (w1, (Returned newAddon, _)) => (w1, Returned newAddon)
    | (w1, (Thrown loadErr, addonConfig1)) =>
        if instanceOfTypeError loadErr
        then newFunctionAddon f addonConfig1 addonName w1
        else (w1, Thrown loadErr)
    | (w1, (Exited code, _)) => (w1, Exited code)
    end.

(** Lines 157-161: the names the new addon listens to join
    [this.listeners], each once. *)
Definition mergeListeners (mine : list string) (names : list string)
    : list string :=
  fold_left (fun acc eventName =>
               if (indexOf acc eventName =? -1)%Z
               then (acc ++ [eventName])%list else acc)
            names mine.

(** Line 155 and lines 157-161 on [this]. *)
Definition pushAddon (newAddon : AddonBase) (this : AddonInterface)
    : AddonInterface :=
  {| ai_addons := (ai_addons this ++ [newAddon])%list;
     ai_emitter := ai_emitter this;
     ai_ipcMain := ai_ipcMain this;
     ai_images := ai_images this;
     ai_listeners := mergeListeners (ai_listeners this)
                                    (keys (ab_listeners newAddon));
     ai_logger := ai_logger this |}.

(** [this.logger.<type>(...)] inside the constructor. *)
Definition thisLog (type : string) (args : list string) : M unit :=
  this <- theInterface ;;
  log (ai_logger this) type args.

(** Lines 131-165: from the exported value to the pushed instance. *)
Definition installAddon (AddonClass : Exported) (addonConfig : AddonConfig)
    (addonName : string) : M unit :=
  match AddonClass with
  | ExpOther =>
      throw (newAddonError "Invalid addon declaration! Requires class or function.")
  | ExpFunction f =>
      newAddon <- constructAddon f addonConfig addonName ;;
      match newAddon with
      | Some instance =>
          updateInterface (pushAddon instance) ;;
          thisLog "info" ["Successfully loaded addon '" ++ addonName ++ "'."]
      | None =>
          throw (newAddonError
                   ("Invalid class declaration for addon '" ++ addonName
                    ++ "'! The class must extend the AddonBase class."))
      end
  end.

(** The object literal of lines 117-122. *)
Definition newAddonConfig (images : Images) (logger : HostLogger)
    (config : Config) (fields : Fields) : AddonConfig :=
  {| ac_entry := Some fields;
     ac_props := [("logger", VHostLogger logger);
                  ("logTypes", VStrings (cfg_logging config));
                  ("images", VImages images)] |}.

(** The body of the [try] of lines 123-165. *)
Definition loadAttempt (require : Modules) (images : Images)
    (logger : HostLogger) (config : Config) (addonName : string)
    (fields : Fields) : M unit :=
  let addonConfig := newAddonConfig images logger config fields in
  AddonClass <- requireAddon require addonName ;;
  installAddon AddonClass addonConfig addonName.

(** Lines 110-169 for what the lookup found, once [enabled] can be read:
    [fields] are the own fields of the entry. The arguments of the call of
    line 167 are evaluated before the call: reading [error.stack] can
    throw, out of the [catch] and out of the loop. *)
Definition loadEntry (require : Modules) (images : Images)
    (logger : HostLogger) (config : Config) (addonName : string)
    (fields : Fields) : M unit :=
  if enabledIsFalse fields then
    thisLog "warn" ["Addon " ++ addonName ++ " disabled in config."]
  else if String.eqb addonName "addonInterface" then ret tt
  else
    tryCatch
      (loadAttempt require images logger config addonName fields)
      (fun error =>
         stack <- stackOf error ;;
         thisLog "error"
                 ["Error initialize addon '" ++ addonName
                  ++ "'! Addon was disabled." ++ LF;
                  joinedArg stack]).

(** The function given to [forEach] at line 107, for one key of
    [config.addonInterface.addons]. The lookup of line 110 uses the
    sanitized name and reads [enabled] of what it finds, outside the
    [try]: [undefined] and [null] throw; a primitive and an inherited
    method have no [enabled] and are no objects; [Object.prototype], found
    under [__proto__], is an object without enumerable fields. *)
Definition loadAddon (require : Modules) (images : Images)
    (logger : HostLogger) (config : Config) (key : string) : M unit :=
  let addonName := removeInvalidAddonNameChars key in
  match getMember (cfg_addons config) addonName with
  | Missing =>
      throw (newTypeError "Cannot read properties of undefined (reading 'enabled')")
  | Own CfgNullish =>
      throw (newTypeError "Cannot read properties of null (reading 'enabled')")
  | Own (CfgPrim _) | InheritedMethod => ret tt
  | Own (CfgObject fields) =>
      loadEntry require images logger config addonName fields
  | ObjectPrototype =>
      loadEntry require images logger config addonName []
  end.

(** Lines 106-170: the loading pass. *)
Definition loadAddons (require : Modules) (images : Images)
    (logger : HostLogger) (config : Config) : M unit :=
  thisLog "info" ["Load addons..."] ;;
  forEach (loadAddon require images logger config) (keys (cfg_addons config)).

(** ** The router (lines 173-186) *)

(** The function given to [this.listeners.forEach] at line 174. *)
Definition installListener (ipcMain : IpcMain) (eventName : string) : M unit :=
  if includes validListenEvents eventName then
    record [IpcOn ipcMain eventName] ;;
    thisLog "info" ["Installed listener '" ++ eventName ++ "'"]
  else
    thisLog "warn"
            ["Ignore definition for unknown event listener: '" ++ eventName
             ++ "'! Use one of '" ++ joinComma validListenEvents ++ "'"].

Definition initializeListeners (ipcMain : IpcMain) : M unit :=
  thisLog "info" ["Initialize addons..."] ;;
  this <- theInterface ;;
  forEach (installListener ipcMain) (ai_listeners this) ;;
  thisLog "info" ["Addons loaded and initialized"].

(** ** The constructor (lines 88-187) *)

(** Lines 96-103: the fields of the new registry. *)
Definition newInterface (images : Images) (logger : HostLogger)
    (emitter : Emitter) (ipcMain : IpcMain) (config : Config) : AddonInterface :=
  {| ai_addons := [];
     ai_emitter := emitter;
     ai_ipcMain := ipcMain;
     ai_images := images;
     ai_listeners := [];
     ai_logger := scopedLogger "AddonInterface" logger (cfg_logging config) |}.

(** [new AddonInterface(...)]: the value is the object that line 93 stored
    in [addonInterfaceObj]. *)
Definition AddonInterface_constructor (require : Modules) (images : Images)
    (logger : HostLogger) (emitter : Emitter) (ipcMain : IpcMain)
    (config : Config) : M AddonInterface :=
  fun w =>
    match addonInterfaceObj w with
    | Some _ => (w, Thrown (newAddonError singletonMessage))
    | None =>
        (loadAddons require images logger config ;;
         initializeListeners ipcMain ;;
         theInterface)
          {| addonInterfaceObj :=
               Some (newInterface images logger emitter ipcMain config);
             trace := trace w;
             arrayPrototype := arrayPrototype w |}
    end.

(** ** [executeEventCallbacks] (lines 195-207) *)

(** [callbacks.forEach(callback => callback(...args))]. *)
Fixpoint runCallbacks (callbacks : list Callback) (args : list string)
    : M unit :=
  match callbacks with
  | [] => ret tt
  | callback :: rest =>
      record [CallbackRun (cb_id callback) args] ;;
      match cb_run callback args with
      | Some e => throw e
      | None => runCallbacks rest args
      end
  end.

(** Lines 200-204: one addon's batch, in its [try]. The arguments of the
    call of line 202 are evaluated before the call: reading [error.stack]
    can throw, out of the [catch] and out of the loop. *)
Definition runBatch (this : AddonInterface) (eventName : string)
    (args : list string) (addon : AddonBase) (callbacks : list Callback)
    : M unit :=
  tryCatch
    (runCallbacks callbacks args)
    (fun error =>
       stack <- stackOf error ;;
       log (ai_logger this) "error"
           ["Error execute callback for addon " ++ ab_name addon
            ++ " event " ++ eventName ++ "!" ++ LF;
            joinedArg stack]).

(** The function given to [this.addons.forEach] at line 197.
    [addon.listeners[eventName]] is an array when the name is an own
    property, and under [__proto__], where it is [Array.prototype] with the
    callbacks that were pushed onto it; anything else the array inherits
    is a function or a number. *)
Definition dispatchToAddon (this : AddonInterface) (eventName : string)
    (args : list string) (addon : AddonBase) : M unit :=
  match getOwn (ab_listeners addon) eventName with
  | Some callbacks => runBatch this eventName args addon callbacks
  | None =>
      if String.eqb eventName "__proto__"
      then fun w => runBatch this eventName args addon (arrayPrototype w) w
      else ret tt
  end.

Definition executeEventCallbacks (this : AddonInterface) (eventName : string)
    (args : list string) : M unit :=
  if includes (ai_listeners this) eventName then
    forEach (dispatchToAddon this eventName args) (ai_addons this)
  else ret tt.

(** ** [initAddonInterface] (lines 217-223) *)

Definition initAddonInterface (require : Modules) (images : Images)
    (logger : HostLogger) (emitter : Emitter) (ipcMain : IpcMain)
    (config : Config) : M (option AddonInterface) :=
  fun w =>
    match addonInterfaceObj w with
    | Some _ => (w, Thrown (newAddonError singletonMessage))
    | None =>
        (AddonInterface_constructor require images logger emitter ipcMain config ;;
         fun w' => (w', Returned (addonInterfaceObj w'))) w
    end.

(** ** [addonControl] (lines 231-351) *)

(** What the operator and the disk see: the console, and each call of
    [config.writeConfig()] with the addon entries it saves; and what the
    runtime keeps: a property set on a member of [Object.prototype]
    ([member] is the name the member was found under), which is no part
    of the configuration. *)
Inductive Output :=
| ConsoleInfo (text : string)
| ConsoleLog (text : string)
| ConsoleError (args : list string)
| WriteConfig (saved : list (string * ConfigValue))
| InheritedSet (member key : string) (value : Prim).

(** The state of the command: [config.addonInterface.addons] of the
    configuration module, which the commands update in place, and the
    output so far. *)
Record ControlState := {
  cs_addons : list (string * ConfigValue);
  cs_output : list Output
}.

(** The [configCtrl] export of an addon, for the [config] command. A
    function is given what the lookup of the addon's name found and the
    arguments; it calls [setConfigValue] some number of times and returns
    a value of which only the truthiness is used, or throws. *)
Inductive ConfigCtrl :=
| CtrlRequireThrows (e : Raised)
| CtrlNoFunction
| CtrlFunction (run : Member -> list string ->
                      list (string * Prim) * Completion bool).

(** What the module finds around it. The file requires [fs] and nothing
    else (line 1): whether the identifier [path] of line 257 has a binding
    at all is up to the global scope, [None] when it has none. *)
Record ControlEnv := {
  env_dirname : string;
  env_filename : string;
  env_path_resolve : option (string -> string);
  env_existsSync : string -> bool;
  env_writeConfig_throws : option Raised;
  env_configCtrl : string -> ConfigCtrl
}.

Definition C (A : Type) : Type := Eff ControlState A.

Definition out (o : Output) : C unit :=
  fun s => ({| cs_addons := cs_addons s;
               cs_output := (cs_output s ++ [o])%list |}, Returned tt).

(** [process.exit(code)]. *)
Definition processExit {A} (code : Z) : C A := fun s => (s, Exited code).

(** [config.addonInterface.addons[addonName]]. *)
Definition getEntry (addonName : string) : C Member :=
  fun s => (s, Returned (getMember (cs_addons s) addonName)).

Definition setAddons (f : list (string * ConfigValue) -> list (string * ConfigValue))
    : C unit :=
  fun s => ({| cs_addons := f (cs_addons s); cs_output := cs_output s |},
            Returned tt).

(** The properties of a function that an assignment cannot change: its
    [name] and [length], the poisoned [caller] and [arguments], and, on
    [Object] (found under [constructor]), [prototype]. *)
Definition readOnlyOfMethod (member key : string) : bool :=
  includes ["name"; "length"; "caller"; "arguments"] key
  || (String.eqb member "constructor" && String.eqb key "prototype").

(** [config.addonInterface.addons[addonName][key] = value] for a primitive
    [value], in the strict mode of a class body. On an entry that is an
    object the property is set; on a primitive and on a read-only
    property the assignment throws; on [null] and [undefined] it throws;
    the key [__proto__], where it is not an own property, reaches the
    accessor of [Object.prototype], which ignores a primitive. On an
    inherited member the property lands on an object all objects
    share. *)
Definition setEntryField (addonName key : string) (value : Prim) : C unit :=
  entry <- getEntry addonName ;;
  match entry with
  | Own (CfgObject fields) =>
      setAddons (fun o =>
                   setOwn o addonName (CfgObject (assignField fields key value)))
  | Own (CfgPrim _) =>
      if String.eqb key "__proto__" then ret tt
      else throw (newTypeError ("Cannot create property '" ++ key
                                ++ "' on a primitive"))
  | Own CfgNullish | Missing =>
      throw (newTypeError ("Cannot set properties of undefined (setting '"
                           ++ key ++ "')"))
  | InheritedMethod =>
      if readOnlyOfMethod addonName key then
        throw (newTypeError ("Cannot assign to read only property '" ++ key
                             ++ "' of function"))
      else if String.eqb key "__proto__" then ret tt
      else out (InheritedSet addonName key value)
  | ObjectPrototype =>
      if String.eqb key "__proto__" then ret tt
      else out (InheritedSet addonName key value)
  end.

(** [config.writeConfig()]. *)
Definition writeConfig (env : ControlEnv) : C unit :=
  (fun s => out (WriteConfig (cs_addons s)) s) ;;
  match env_writeConfig_throws env with
  | Some e => throw e
  | None => ret tt
  end.

(** [console.error(text, error.stack)] in a [catch]: the arguments are
    evaluated before the call, and reading [error.stack] can throw. *)
Definition reportError (text : string) (error : Raised) : C unit :=
  stack <- stackOf error ;;
  out (ConsoleError [text; printedArg stack]).

Definition showBool (b : bool) : string := if b then "true" else "false".

(** The rows of the status table (lines 251-253): reading [enabled] of a
    [null] entry throws. The names are own keys, so each is found as an
    own property. *)
Fixpoint statusRows (addons : list (string * ConfigValue))
    (names : list string) : JsError + string :=
  match names with
  | [] => inr EmptyString
  | addonName :: rest =>
      match getOwn addons addonName with
      | None | Some CfgNullish =>
          inl (newTypeError "Cannot read properties of null (reading 'enabled')")
      | Some entry =>
          let flag :=
            match entry with
            | CfgObject fields => negb (enabledIsFalse fields)
            | _ => true
            end in
          match statusRows addons rest with
          | inl e => inl e
          | inr rows =>
              inr (padEnd addonName 50 ++ " | " ++ showBool flag ++ LF ++ rows)
          end
      end
  end.

Definition dashes : string := String.concat EmptyString (repeat "-" 61).

Definition statusHeader : string :=
  LF ++ "Installed in the order they are loaded when enabled:" ++ LF
  ++ dashes ++ LF
  ++ padEnd "Addon" 50 ++ " | enabled" ++ LF
  ++ dashes ++ LF.

(** Lines 244-255. *)
Definition printStatus : C unit :=
  fun s =>
    match statusRows (cs_addons s) (keys (cs_addons s)) with
    | inl e => (s, Thrown e)
    | inr rows => out (ConsoleLog (statusHeader ++ rows)) s
    end.

(** [case 'enable'] (lines 260-281). An inherited member is truthy and
    has no [enabled]: nothing is created or flipped for it. *)
Definition enableCommand (env : ControlEnv) (addonName addonPath : string)
    : C unit :=
  tryCatch
    ((if env_existsSync env addonPath then ret tt
      else
        out (ConsoleError ["Addon folder does'nt exist '" ++ addonPath ++ "'"]) ;;
        processExit 1) ;;
     entry <- getEntry addonName ;;
     let updateConfig := negb (truthyMember entry) in
     match entry with
     | Own (CfgObject fields) =>
         if enabledIsFalse fields
         then setEntryField addonName "enabled" (PBool true)
         else ret tt
     | _ =>
         if updateConfig
         then setAddons (fun o =>
                           setOwn o addonName (CfgObject [("enabled", PBool true)]))
         else ret tt
     end ;;
     if updateConfig then
       writeConfig env ;;
       out (ConsoleInfo ("Enabled addon '" ++ addonName ++ "'."))
     else
       out (ConsoleInfo ("Nothing to do. Addon '" ++ addonName
                         ++ "' was already enabled.")))
    (reportError ("Error enable addon '" ++ addonName ++ "'!" ++ LF)).

(** [case 'disable'] (lines 282-294). *)
Definition disableCommand (env : ControlEnv) (addonName : string) : C unit :=
  tryCatch
    (entry <- getEntry addonName ;;
     let enabledNow :=
       match entry with
       | Own (CfgObject fields) => negb (enabledIsFalse fields)
       | other => truthyMember other
       end in
     if enabledNow then
       setEntryField addonName "enabled" (PBool false) ;;
       writeConfig env ;;
       out (ConsoleInfo ("Disabled addon '" ++ addonName ++ "'."))
     else
       out (ConsoleInfo ("Nothing to do. Addon '" ++ addonName
                         ++ "' was already disabled or not installed.")))
    (reportError ("Error updating config to enable addon '"
                  ++ addonName ++ "'!" ++ LF)).

(** [case 'remove'] (lines 295-307): [delete] of a name that is no own
    property changes nothing. *)
Definition removeCommand (env : ControlEnv) (addonName : string) : C unit :=
  tryCatch
    (entry <- getEntry addonName ;;
     if truthyMember entry then
       setAddons (fun o => deleteOwn o addonName) ;;
       writeConfig env ;;
       out (ConsoleInfo ("Removed addon '" ++ addonName ++ "'."))
     else
       out (ConsoleInfo ("Nothing to do. Addon '" ++ addonName
                         ++ "' was not enabled or installed.")))
    (reportError ("Error updating config to remove addon '"
                  ++ addonName ++ "'!" ++ LF)).

(** [case 'config'] (lines 308-348). The [catch] of lines 322-326 is in no
    other [try]: when reading [error.stack] throws there, the command
    throws. *)
Definition configCommand (env : ControlEnv) (addonName addonPath : string)
    (args : list string) : C unit :=
  (if (length args <? 2)%nat then
     out (ConsoleError ["Error configuring addon '" ++ addonName
                        ++ "'! Too few argunments. Requires <key> <value> "]) ;;
     processExit 1
   else ret tt) ;;
  entry <- getEntry addonName ;;
  (if truthyMember entry then ret tt
   else
     out (ConsoleError ["Error configuring not installed addon '"
                        ++ addonName ++ "'!"]) ;;
     processExit 1) ;;
  match env_configCtrl env addonPath with
  | CtrlRequireThrows e =>
      reportError ("Failed to load configControl for addon '" ++ addonName ++ "!") e
  | _ => ret tt
  end ;;
  tryCatch
    (writeIt <-
       match env_configCtrl env addonPath with
       | CtrlFunction run =>
           out (ConsoleInfo ("Use configCtrl function from addon '"
                             ++ addonName ++ "'.")) ;;
           current <- getEntry addonName ;;
           let '(sets, result) := run current args in
           forEach (fun kv => setEntryField addonName (fst kv) (snd kv)) sets ;;
           (fun s => (s, result))
       | _ =>
           let key := nth 0 args EmptyString in
           let value := nth 1 args EmptyString in
           setEntryField addonName key (PString value) ;;
           setEntryField addonName key (PString value) ;;
           ret true
       end ;;
     if (writeIt : bool) then
       writeConfig env ;;
       out (ConsoleInfo ("Config changed for addon '" ++ addonName ++ "'."))
     else ret tt)
    (reportError ("Error updating config for addon '" ++ addonName
                  ++ "'!" ++ LF)).

(** [!x] on an argument that may be missing: [undefined] and the empty
    string are falsy. *)
Definition missing (x : option string) : bool :=
  match x with
  | None => true
  | Some s => String.eqb s EmptyString
  end.

Definition isCommand (command : option string) (name : string) : bool :=
  match command with
  | Some c => String.eqb c name
  | None => false
  end.

(** The whole function. [command] and [addonName] are [None] when the
    caller passes nothing. *)
Definition addonControl (env : ControlEnv) (command addonName : option string)
    (args : list string) : C unit :=
  (if missing command
      || match command with
         | Some c => includes ["help"; "--help"; "-h"] c
         | None => false
         end
      || (negb (isCommand command "status") && missing addonName)
   then out (ConsoleInfo (LF ++ "Usage: node " ++ env_filename env
                          ++ " <command> <addonName> [...arguments]" ++ LF))
   else ret tt) ;;
  (* line 240: [addonName.replace] *)
  addonName <-
    match addonName with
    | Some n => ret (removeInvalidAddonNameChars n)
    | None =>
        throw (newTypeError "Cannot read properties of undefined (reading 'replace')")
    end ;;
  (if isCommand command "status" then printStatus else ret tt) ;;
  (* line 257: [path.resolve] *)
  addonPath <-
    match env_path_resolve env with
    | Some resolve => ret (resolve (env_dirname env ++ "/../addons/" ++ addonName))
    | None => throw (newReferenceError "path is not defined")
    end ;;
  if isCommand command "enable" then enableCommand env addonName addonPath
  else if isCommand command "disable" then disableCommand env addonName
  else if isCommand command "remove" then removeCommand env addonName
  else if isCommand command "config" then configCommand env addonName addonPath args
  else ret tt.

(** ** Observations

    Projections of traces and predicates on runs, used to state and prove
    the properties. *)

(** Whether a name holds a slash. *)
Definition hasSlash (s : string) : bool :=
  existsb isSlash (list_ascii_of_string s).

(** The handlers installed on [ipcMain], as a trace shows them. *)
Definition installedOn (tr : list Event) : list (IpcMain * string) :=
  flat_map (fun ev => match ev with IpcOn i n => [(i, n)] | _ => [] end) tr.

(** The events handed to the emitter. *)
Definition sentOn (tr : list Event) : list (nat * string * list string) :=
  flat_map (fun ev => match ev with
                      | EmitterSend em n args => [(em, n, args)]
                      | _ => []
                      end) tr.

(** The callbacks run, by their identity. *)
Definition callbacksRun (tr : list Event) : list nat :=
  flat_map (fun ev => match ev with CallbackRun cb _ => [cb] | _ => [] end) tr.

(** A scoped logger that stands over a host logger and an array of types,
    as every logger the module builds from the host's objects does. *)
Definition soundLogger (l : ClassLogger) : Prop :=
  exists logger types,
    cl_logger l = VHostLogger logger /\ cl_enabledTypes l = Some (VStrings types).

(** The process goes on. *)
Definition notExited {A} (c : Completion A) : Prop :=
  match c with
  | Exited _ => False
  | _ => True
  end.

(** The world after the host objects saw [evs] and [pushed] landed on
    [Array.prototype]. *)
Definition advance (w : World) (evs : list Event) (pushed : list Callback)
    : World :=
  {| addonInterfaceObj := addonInterfaceObj w;
     trace := (trace w ++ evs)%list;
     arrayPrototype := (arrayPrototype w ++ pushed)%list |}.

(** A computation that leaves the registry alone, installs nothing on
    [ipcMain], and does not end the process: what the code of an addon
    and the loggers can do. *)
Definition quiet {A} (m : M A) : Prop :=
  forall w, exists evs pushed c,
    m w = (advance w evs pushed, c) /\ installedOn evs = [] /\ notExited c.

(** The world while the registry is [this], after [evs] more events and
    [pushed] more elements on [Array.prototype]. *)
Definition reached (this : AddonInterface) (w : World) (evs : list Event)
    (pushed : list Callback) : World :=
  {| addonInterfaceObj := Some this;
     trace := (trace w ++ evs)%list;
     arrayPrototype := (arrayPrototype w ++ pushed)%list |}.

(** Two states of the registry with the same host objects. *)
Definition sameHost (a b : AddonInterface) : Prop :=
  ai_logger a = ai_logger b
  /\ ai_emitter a = ai_emitter b
  /\ ai_ipcMain a = ai_ipcMain b
  /\ ai_images a = ai_images b.

(** How a step of the loader can end: it returns, or it throws a
    [TypeError]: that of the lookup of line 110, or that of reading the
    [stack] of a thrown [null] or [undefined] at line 167. *)
Definition loaderOutcome {A} (c : Completion A) : Prop :=
  match c with
  | Returned _ => True
  | Thrown e => instanceOfTypeError e = true
  | Exited _ => False
  end.

(** The scoped logger of an instance carries the instance's name. *)
Definition named (a : AddonBase) : Prop :=
  cl_name (ab_logger a) = "addon " ++ ab_name a.

(** The registry after the instances [pushed] were pushed, in order. *)
Definition pushAll (pushed : list AddonBase) (this : AddonInterface)
    : AddonInterface :=
  fold_left (fun registry instance => pushAddon instance registry) pushed this.

(** The subscription set of a registry is the set of the names its addons
    listen to, each once. *)
Definition subscribesToItsAddons (this : AddonInterface) : Prop :=
  NoDup (ai_listeners this)
  /\ forall n,
       In n (ai_listeners this)
       <-> exists a, In a (ai_addons this) /\ In n (keys (ab_listeners a)).

(** A declared name the loader tries to load: the lookup of its sanitized
    form finds an object whose [enabled] is not [false], and the name is
    not the reserved one. *)
Definition eligible (config : Config) (key : string) : bool :=
  match getMember (cfg_addons config) (removeInvalidAddonNameChars key) with
  | Own (CfgObject fields) =>
      negb (enabledIsFalse fields)
      && negb (String.eqb (removeInvalidAddonNameChars key) "addonInterface")
  | ObjectPrototype => true
  | _ => false
  end.

(** The lookup of line 110 finds something whose [enabled] can be read. *)
Definition resolves (config : Config) (key : string) : bool :=
  match getMember (cfg_addons config) (removeInvalidAddonNameChars key) with
  | Own CfgNullish | Missing => false
  | _ => true
  end.

(** An addon's code that never throws [null] or [undefined]. *)
Definition throwsNothing (op : AddonOp) : bool :=
  match op with
  | OpThrow (Nullish _) => false
  | _ => true
  end.

Definition tameExport (e : Exported) : bool :=
  match e with
  | ExpFunction f => forallb throwsNothing (fn_body f)
  | ExpOther => true
  end.

(** A module of which neither [require] nor the code throws [null] or
    [undefined]. *)
Definition tame (r : Required) : bool :=
  match r with
  | RequireThrows (Nullish _) => false
  | RequireThrows _ | RequireNothing _ => true
  | RequireModule exports None => tameExport exports
  | RequireModule _ (Some wrapped) => tameExport wrapped
  end.

(** A name that an array neither has from the start nor inherits, and that
    is no array index: registering it creates a property that
    [Object.keys] lists after the ones already there. *)
Definition plainName (name : string) : bool :=
  negb (String.eqb name "length")
  && negb (String.eqb name "__proto__")
  && negb (includes arrayPrototypeMethods name)
  && negb (includes objectPrototypeMethods name)
  && match arrayIndex name with Some _ => false | None => true end.

(** A name that a plain object does not inherit. *)
Definition inheritedName (name : string) : bool :=
  String.eqb name "__proto__" || includes objectPrototypeMethods name.

(** Two states of an instance that differ in their listeners only. *)
Definition sameIdentity (a b : AddonBase) : Prop :=
  ab_name a = ab_name b
  /\ ab_logger a = ab_logger b
  /\ ab_images a = ab_images b
  /\ ab_config a = ab_config b.

(** What the router shows on the host objects for one name of the
    subscription set (lines 175-183), and for the whole of lines 173-186,
    when the registry's logger is [l]. *)
Definition installEvents (l : ClassLogger) (ipcMain : IpcMain)
    (eventName : string) : list Event :=
  if includes validListenEvents eventName then
    IpcOn ipcMain eventName
      :: classLog l "info" ["Installed listener '" ++ eventName ++ "'"]
  else
    classLog l "warn"
             ["Ignore definition for unknown event listener: '" ++ eventName
              ++ "'! Use one of '" ++ joinComma validListenEvents ++ "'"].

Definition routerTrace (l : ClassLogger) (ipcMain : IpcMain)
    (listeners : list string) : list Event :=
  (classLog l "info" ["Initialize addons..."]
   ++ flat_map (installEvents l ipcMain) listeners
   ++ classLog l "info" ["Addons loaded and initialized"])%list.


(** A computation that never throws [null] or [undefined]. *)
Definition civil {A} (m : M A) : Prop :=
  forall w w' n, m w <> (w', Thrown (Nullish n)).

(** The text read from [error.stack] where that read does not throw. *)
Definition stackText (error : Raised) : option string :=
  match error with
  | ErrorObject e => Some (err_stack e)
  | _ => None
  end.

(** Whether the body of a function starts with a call of a method of the
    object it is given. *)
Definition callsAMethodFirst (ops : list AddonOp) : bool :=
  match ops with
  | OpRegisterListener _ _ :: _ | OpSendEvent _ _ :: _ => true
  | _ => false
  end.

(** The callbacks of a batch that are called: every one up to and
    including the first that throws. *)
Fixpoint calledOf (callbacks : list Callback) (args : list string)
    : list Callback :=
  match callbacks with
  | [] => []
  | callback :: rest =>
      callback :: match cb_run callback args with
                  | Some _ => []
                  | None => calledOf rest args
                  end
  end.

(** What ends the batch, if anything. *)
Fixpoint firstThrown (callbacks : list Callback) (args : list string)
    : option Raised :=
  match callbacks with
  | [] => None
  | callback :: rest =>
      match cb_run callback args with
      | Some e => Some e
      | None => firstThrown rest args
      end
  end.

Definition callEvents (callbacks : list Callback) (args : list string)
    : list Event :=
  map (fun callback => CallbackRun (cb_id callback) args) callbacks.

(** The array [addon.listeners[eventName]] of line 198, empty when the
    lookup finds no array; [pushed] are the elements of
    [Array.prototype]. *)
Definition batchOf (pushed : list Callback) (addon : AddonBase)
    (eventName : string) : list Callback :=
  match getOwn (ab_listeners addon) eventName with
  | Some callbacks => callbacks
  | None => if String.eqb eventName "__proto__" then pushed else []
  end.

(** The events of one addon's batch when nothing it throws is [null] or
    [undefined]: its calls, then the line for what ended it. *)
Definition batchTrace (this : AddonInterface) (eventName : string)
    (args : list string) (pushed : list Callback) (addon : AddonBase)
    : list Event :=
  List.app
    (callEvents (calledOf (batchOf pushed addon eventName) args) args)
    match firstThrown (batchOf pushed addon eventName) args with
    | None => []
    | Some e =>
        classLog (ai_logger this) "error"
                 ["Error execute callback for addon " ++ ab_name addon
                  ++ " event " ++ eventName ++ "!" ++ LF;
                  joinedArg (stackText e)]
    end.

(** No callback of a batch throws [null] or [undefined]. *)
Definition throwsNoNullish (callbacks : list Callback) (args : list string)
    : bool :=
  match firstThrown callbacks args with
  | Some (Nullish _) => false
  | _ => true
  end.

(** The module state when the loop of line 107 starts, in a constructor
    call made on [w]. *)
Definition loadingStarts (images : Images) (logger : HostLogger)
    (emitter : Emitter) (ipcMain : IpcMain) (config : Config) (w : World)
    : World :=
  extend {| addonInterfaceObj :=
              Some (newInterface images logger emitter ipcMain config);
            trace := trace w;
            arrayPrototype := arrayPrototype w |}
         (classLog (scopedLogger "AddonInterface" logger (cfg_logging config))
                   "info" ["Load addons..."]).

(** A step of a command that leaves every entry but the one of [name] as
    it is. *)
Definition framed {A} (name : string) (m : C A) : Prop :=
  forall s s' c,
    m s = (s', c) ->
    forall k, k <> name -> getOwn (cs_addons s') k = getOwn (cs_addons s) k.

(** ** Vocabulary of the control surface *)

Definition report (s : ControlState) (o : list Output) : ControlState :=
  {| cs_addons := cs_addons s; cs_output := (cs_output s ++ o)%list |}.

Definition withAddons (s : ControlState) (addons : list (string * ConfigValue))
    : ControlState :=
  {| cs_addons := addons; cs_output := cs_output s |}.

(** [writeConfig] throws nothing, or a value other than [null] and
    [undefined]. *)
Definition civilWrite (env : ControlEnv) : bool :=
  match env_writeConfig_throws env with
  | Some (Nullish _) => false
  | _ => true
  end.

(** The output of a write in a [try] whose [catch] prints the failure. *)
Definition written (env : ControlEnv) (info failure : string)
    (s : ControlState) : ControlState :=
  report s [WriteConfig (cs_addons s);
            match env_writeConfig_throws env with
            | None => ConsoleInfo info
            | Some e => ConsoleError [failure; printedArg (stackText e)]
            end].

Definition disabledInfo (name : string) : string :=
  "Disabled addon '" ++ name ++ "'.".

Definition disableFailure (name : string) : string :=
  "Error updating config to enable addon '" ++ name ++ "'!" ++ LF.

Definition disableNothing (name : string) : Output :=
  ConsoleInfo ("Nothing to do. Addon '" ++ name
               ++ "' was already disabled or not installed.").

Definition removedInfo (name : string) : string :=
  "Removed addon '" ++ name ++ "'.".

Definition removeFailure (name : string) : string :=
  "Error updating config to remove addon '" ++ name ++ "'!" ++ LF.

Definition removeNothing (name : string) : Output :=
  ConsoleInfo ("Nothing to do. Addon '" ++ name
               ++ "' was not enabled or installed.").

Definition enabledInfo (name : string) : string :=
  "Enabled addon '" ++ name ++ "'.".

Definition enableFailure (name : string) : string :=
  "Error enable addon '" ++ name ++ "'!" ++ LF.

Definition enableNothing (name : string) : Output :=
  ConsoleInfo ("Nothing to do. Addon '" ++ name ++ "' was already enabled.").

Definition configInfo (name : string) : string :=
  "Config changed for addon '" ++ name ++ "'.".

Definition configFailure (name : string) : string :=
  "Error updating config for addon '" ++ name ++ "'!" ++ LF.

(** The line of lines 322-324, when requiring the addon throws a value
    with a [stack] to read. *)
Definition requireFailure (env : ControlEnv) (name addonPath : string)
    : list Output :=
  match env_configCtrl env addonPath with
  | CtrlRequireThrows e =>
      [ConsoleError ["Failed to load configControl for addon '" ++ name ++ "!";
                     printedArg (stackText e)]]
  | _ => []
  end.

(** The calls of [setConfigValue] a handler made, on the entry's fields. *)
Definition applySets (sets : list (string * Prim)) (fields : Fields) : Fields :=
  fold_left (fun f kv => assignField f (fst kv) (snd kv)) sets fields.

(** The module has no [configCtrl] function, and requiring it throws
    nothing, or a value other than [null] and [undefined]. *)
Definition noHandler (ctrl : ConfigCtrl) : bool :=
  match ctrl with
  | CtrlFunction _ => false
  | CtrlRequireThrows (Nullish _) => false
  | _ => true
  end.

(** ** Scenarios

    Concrete hosts, addons and configurations on which the properties
    below are exercised. *)

Definition allTypes : list string := ["info"; "warn"; "error"].

(** An emitter whose [send] never throws, one whose [send] always throws
    an [Error], and one whose [send] throws [null]. *)
Definition plainEmitter : Emitter :=
  {| emitter_id := 7; send_throws := fun _ _ => None |}.

Definition boom : JsError := mkError OtherError "boom" "Error: boom".

Definition brokenEmitter : Emitter :=
  {| emitter_id := 8; send_throws := fun _ _ => Some (ErrorObject boom) |}.

Definition nullEmitter : Emitter :=
  {| emitter_id := 9; send_throws := fun _ _ => Some (Nullish Null) |}.

Definition freshWorld : World :=
  {| addonInterfaceObj := None; trace := []; arrayPrototype := [] |}.

(** The registry as line 103 leaves it, before any addon is loaded. *)
Definition emptyInterface : AddonInterface :=
  {| ai_addons := [];
     ai_emitter := plainEmitter;
     ai_ipcMain := 3;
     ai_images := [];
     ai_listeners := [];
     ai_logger := scopedLogger "AddonInterface" 1 allTypes |}.

(** The module state while the registry is [this] and nothing else
    happened. *)
Definition worldOf (this : AddonInterface) : World :=
  {| addonInterfaceObj := Some this; trace := []; arrayPrototype := [] |}.

Definition startedWorld : World := worldOf emptyInterface.

(** A registry bound to the emitter whose [send] throws [null]. *)
Definition nullBound : AddonInterface :=
  {| ai_addons := [];
     ai_emitter := nullEmitter;
     ai_ipcMain := 3;
     ai_images := [];
     ai_listeners := [];
     ai_logger := scopedLogger "AddonInterface" 1 allTypes |}.

(** A registry bound to the emitter whose [send] throws an [Error]. *)
Definition brokenBound : AddonInterface :=
  {| ai_addons := [];
     ai_emitter := brokenEmitter;
     ai_ipcMain := 3;
     ai_images := [];
     ai_listeners := [];
     ai_logger := scopedLogger "AddonInterface" 1 allTypes |}.

Definition onTick : Callback := {| cb_id := 11; cb_run := fun _ => None |}.
Definition onTock : Callback := {| cb_id := 12; cb_run := fun _ => None |}.
Definition onCrash : Callback :=
  {| cb_id := 13; cb_run := fun _ => Some (ErrorObject boom) |}.
Definition onGreet : Callback := {| cb_id := 14; cb_run := fun _ => None |}.

(** A class that extends [AddonBase], listens for [newImage] and sends
    [next] from its constructor. *)
Definition clockClass : ExportedFunction :=
  {| fn_name := "Clock";
     fn_kind := DerivedClass;
     fn_body := [OpRegisterListener (One "newImage") (Many [onTick; onTock]);
                 OpSendEvent "next" []] |}.

(** A class that extends [AddonBase] and whose constructor throws a plain
    [Error] after [super]. *)
Definition brokenClass : ExportedFunction :=
  {| fn_name := "Broken";
     fn_kind := DerivedClass;
     fn_body := [OpThrow (ErrorObject boom)] |}.

(** A class that extends [AddonBase] and whose constructor runs into a
    [TypeError] after [super]. *)
Definition clumsyError : JsError :=
  newTypeError "Cannot read properties of undefined (reading 'interval')".

Definition clumsyClass : ExportedFunction :=
  {| fn_name := "Clumsy";
     fn_kind := DerivedClass;
     fn_body := [OpThrow (ErrorObject clumsyError)] |}.

(** A class that extends [AddonBase] and whose constructor executes
    [throw null] after [super]. *)
Definition nullerClass : ExportedFunction :=
  {| fn_name := "Nuller";
     fn_kind := DerivedClass;
     fn_body := [OpThrow (Nullish Null)] |}.

(** A plain function [function greeter(addon) { ... }]: under [new] its
    argument is the configuration object, which has no
    [registerListener]. *)
Definition greeterFunction : ExportedFunction :=
  {| fn_name := "greeter";
     fn_kind := PlainFunction;
     fn_body := [OpRegisterListener (Many ["newImage"; "tea-time"]) (One onGreet);
                 OpSendEvent "play" [];
                 OpSendEvent "explode" []] |}.

Definition notFound (name : string) : JsError :=
  mkError OtherError ("Cannot find module " ++ name) ("Error: Cannot find module").

Definition demoModules : Modules :=
  fun addonName =>
    if String.eqb addonName "clock" then
      RequireModule (ExpFunction clockClass) None
    else if String.eqb addonName "broken" then
      RequireModule ExpOther (Some (ExpFunction brokenClass))
    else if String.eqb addonName "clumsy" then
      RequireModule (ExpFunction clumsyClass) None
    else if String.eqb addonName "nuller" then
      RequireModule (ExpFunction nullerClass) None
    else if String.eqb addonName "greeter" then
      RequireModule (ExpFunction greeterFunction) None
    else RequireThrows (ErrorObject (notFound addonName)).

Definition demoConfig : Config :=
  {| cfg_logging := allTypes;
     cfg_addons := [("clock", CfgObject [("enabled", PBool true)]);
                    ("broken", CfgObject []);
                    ("greeter", CfgObject [("volume", PString "3")])] |}.

Definition clumsyConfig : Config :=
  {| cfg_logging := allTypes;
     cfg_addons := [("clumsy", CfgObject [])] |}.

(** The same addon with an entry that has a key [logger] of its own. *)
Definition clumsyLoggedConfig : Config :=
  {| cfg_logging := allTypes;
     cfg_addons := [("clumsy", CfgObject [("logger", PString "verbose")])] |}.

(** [nuller] stands between two addons that load. *)
Definition nullerConfig : Config :=
  {| cfg_logging := allTypes;
     cfg_addons := [("clock", CfgObject []);
                    ("nuller", CfgObject []);
                    ("greeter", CfgObject [])] |}.

(** What a computation returns on the started module, or [fallback]. *)
Definition valueOf {A} (m : M A) (fallback : A) : A :=
  match snd (m startedWorld) with
  | Returned a => a
  | _ => fallback
  end.

(** The instance the loader hands to [greeter], and [greeter]'s addon
    once its body ran. *)
Definition greeterInstance : AddonBase :=
  baseInstance "greeter" (scopedLogger "addon greeter" 1 allTypes)
               (newAddonConfig [] 1 demoConfig [("volume", PString "3")]).

Definition greeterLoaded : AddonBase :=
  valueOf (registerListener greeterInstance (Many ["newImage"; "tea-time"])
                            (One onGreet))
          greeterInstance.

(** Two loaded addons that listen for [newImage]: the first callback of
    the first addon throws. *)
Definition bareInstance (name : string) : AddonBase :=
  baseInstance name (scopedLogger ("addon " ++ name) 1 allTypes)
               (newAddonConfig [] 1 demoConfig []).

Definition crashingAddon : AddonBase :=
  valueOf (registerListener (bareInstance "Crashing")
                            (One "newImage") (Many [onCrash; onTick]))
          (bareInstance "Crashing").

Definition steadyAddon : AddonBase :=
  valueOf (registerListener (bareInstance "Steady")
                            (One "newImage") (One onTock))
          (bareInstance "Steady").

Definition twoAddons : AddonInterface :=
  pushAddon steadyAddon (pushAddon crashingAddon emptyInterface).



(** The registry the constructor builds from the scenario's modules and
    configuration, and the module state it leaves. *)
Definition demoRun : World * Completion AddonInterface :=
  AddonInterface_constructor demoModules [] 1 plainEmitter 3 demoConfig freshWorld.

Definition demoWorld : World := Eval vm_compute in fst demoRun.

Definition demoInterface : AddonInterface :=
  Eval vm_compute in
    match snd demoRun with
    | Returned this => this
    | _ => emptyInterface
    end.

(** A declared name the sanitizer alters, with no entry of its own under
    the altered form. *)
Definition alteredConfig : Config :=
  {| cfg_logging := allTypes;
     cfg_addons := [("clock", CfgObject [("enabled", PBool true)]);
                    ("we./ ather", CfgObject [])] |}.

(** A declared name the sanitizer alters into another declared name. *)
Definition collidingConfig : Config :=
  {| cfg_logging := allTypes;
     cfg_addons := [("clock", CfgObject [("enabled", PBool true)]);
                    ("cl./ ock", CfgObject [])] |}.

(** A declared name the sanitizer alters into the name of a method every
    object inherits. *)
Definition inheritingConfig : Config :=
  {| cfg_logging := allTypes;
     cfg_addons := [("to./ String", CfgObject [])] |}.

(** The [writeConfig] calls of an output, with what each saved. *)
Definition writesOf (o : list Output) : list (list (string * ConfigValue)) :=
  flat_map (fun x => match x with WriteConfig saved => [saved] | _ => [] end) o.

(** The module as it is shipped, run by [node]: nothing binds [path]. *)
Definition withoutPath (env : ControlEnv) : ControlEnv :=
  {| env_dirname := env_dirname env;
     env_filename := env_filename env;
     env_path_resolve := None;
     env_existsSync := env_existsSync env;
     env_writeConfig_throws := env_writeConfig_throws env;
     env_configCtrl := env_configCtrl env |}.

(** A host that does bind [path] globally, where every addon folder
    exists and the configuration can be written. *)
Definition boundEnv : ControlEnv :=
  {| env_dirname := "/opt/TeleFrame/js";
     env_filename := "/opt/TeleFrame/js/addonInterface.js";
     env_path_resolve := Some (fun p => p);
     env_existsSync := fun _ => true;
     env_writeConfig_throws := None;
     env_configCtrl := fun _ => CtrlNoFunction |}.

(** A handler that stores its second argument under [volume] and asks for
    the write. *)
Definition volumeCtrl : ConfigCtrl :=
  CtrlFunction (fun _ args =>
                  ([("volume", PString (nth 1 args EmptyString))], Returned true)).

Definition handlerEnv : ControlEnv :=
  {| env_dirname := "/opt/TeleFrame/js";
     env_filename := "/opt/TeleFrame/js/addonInterface.js";
     env_path_resolve := Some (fun p => p);
     env_existsSync := fun _ => true;
     env_writeConfig_throws := None;
     env_configCtrl := fun _ => volumeCtrl |}.

(** The configuration of the specification's scenarios: [addonA] enabled,
    [addonB] disabled. *)
Definition twoEntries : ControlState :=
  {| cs_addons := [("addonA", CfgObject [("enabled", PBool true)]);
                   ("addonB", CfgObject [("enabled", PBool false)])];
     cs_output := [] |}.

Definition statusTable : string :=
  statusHeader
  ++ padEnd "addonA" 50 ++ " | true" ++ LF
  ++ padEnd "addonB" 50 ++ " | false" ++ LF.

(** [disable addonA], then [enable addonA], on the same configuration
    object. *)
Definition disableThenEnable (env : ControlEnv) : C unit :=
  addonControl env (Some "disable") (Some "addonA") [] ;;
  addonControl env (Some "enable") (Some "addonA") [].

(** The flag the status table shows for an entry. *)
Definition shownFlag (entry : ConfigValue) : bool :=
  match entry with
  | CfgObject fields => negb (enabledIsFalse fields)
  | _ => true
  end.

Definition statusRow (kv : string * ConfigValue) : string :=
  padEnd (fst kv) 50 ++ " | " ++ showBool (shownFlag (snd kv)) ++ LF.

Definition isNullish (entry : ConfigValue) : bool :=
  match entry with
  | CfgNullish => true
  | _ => false
  end.

(** The rows of a list of entries, one after the other. *)
Definition statusRowsOf (entries : list (string * ConfigValue)) : string :=
  fold_right (fun kv rows => statusRow kv ++ rows) EmptyString entries.

(** The callbacks an instance holds for a name: none when the name was
    never registered. *)
Definition callbacksOf (ls : Listeners) (name : string) : list Callback :=
  match getOwn ls name with
  | Some l => l
  | None => []
  end.
(** * Properties *)

(** ** Strings *)

Lemma append_assoc (a b c : string) : (a ++ b) ++ c = a ++ b ++ c.
Proof. induction a as [|x a IH]; simpl; [reflexivity | now rewrite IH]. Qed.

(** ** Membership tests *)

Lemma indexOfFrom_lower (x : string) (l : list string) (i : Z) :
  (0 <= i)%Z -> (indexOfFrom i x l = -1 \/ i <= indexOfFrom i x l)%Z.
Proof.
  revert i; induction l as [|y rest IH]; intros i Hi; simpl.
  - now left.
  - destruct (String.eqb y x).
    + right; lia.
    + destruct (IH (i + 1)%Z ltac:(lia)) as [H|H]; [now left | right; lia].
Qed.

Lemma indexOfFrom_absent (x : string) (l : list string) (i : Z) :
  (0 <= i)%Z -> (indexOfFrom i x l = -1)%Z <-> ~ In x l.
Proof.
  revert i; induction l as [|y rest IH]; intros i Hi; simpl.
  - tauto.
  - destruct (String.eqb_spec y x) as [->|Hne].
    + split; [lia | intros H; exfalso; apply H; now left].
    + rewrite (IH (i + 1)%Z ltac:(lia)). split.
      * intros H [E|E]; [now apply Hne | now apply H].
      * intros H E; apply H; now right.
Qed.

Lemma includes_In (l : list string) (x : string) :
  includes l x = true <-> In x l.
Proof.
  unfold includes, indexOf.
  pose proof (indexOfFrom_lower x l 0%Z ltac:(lia)) as Hlow.
  pose proof (indexOfFrom_absent x l 0%Z ltac:(lia)) as Habs.
  destruct (in_dec string_dec x l) as [Hin|Hout].
  - split; [trivial|intros _].
    apply Z.gtb_lt. destruct Hlow as [H|H]; [|lia].
    apply Habs in H. contradiction.
  - split; [|contradiction].
    apply Habs in Hout. rewrite Hout. discriminate.
Qed.

Lemma includes_false (l : list string) (x : string) :
  includes l x = false <-> ~ In x l.
Proof.
  rewrite <- includes_In. destruct (includes l x); split; congruence.
Qed.

(** ** The sanitizer *)

(** X6. A name without a slash holds no match of the pattern and comes back
    as it went in, dots and blanks included. *)
Lemma removeInvalidAddonNameChars_no_slash (s : string) :
  hasSlash s = false -> removeInvalidAddonNameChars s = s.
Proof.
  unfold hasSlash.
  induction s as [|a t IH]; [reflexivity|].
  intros H. cbn [list_ascii_of_string existsb] in H.
  apply orb_false_elim in H as [Ha Ht].
  specialize (IH Ht).
  cbn [removeInvalidAddonNameChars].
  destruct t as [|b [|c rest]]; try (now rewrite IH).
  cbn [list_ascii_of_string existsb] in Ht.
  apply orb_false_elim in Ht as [Hb _].
  rewrite Hb, andb_false_r. cbn [andb]. now rewrite IH.
Qed.

(** X6 on a name with a blank and a dot. *)
Lemma removeInvalidAddonNameChars_no_slash_witness :
  removeInvalidAddonNameChars "my addon.v2" = "my addon.v2".
Proof.
  exact (removeInvalidAddonNameChars_no_slash "my addon.v2" eq_refl).
Defined.

(** C2. The specification reads the sanitizer as removing every dot, slash and
    whitespace character. On the name [../evil addon] the code returns the
    name unchanged, because its pattern only matches a dot, a slash and a
    whitespace in a row; the sanitizer of the specification returns
    [eviladdon]. *)
Theorem sanitizer_keeps_lone_invalid_chars :
  removeInvalidAddonNameChars "../evil addon" = "../evil addon"
  /\ stripInvalidChars_spec "../evil addon" = "eviladdon"
  /\ removeInvalidAddonNameChars "a.b" = "a.b"
  /\ removeInvalidAddonNameChars "a/b" = "a/b"
  /\ removeInvalidAddonNameChars "a b" = "a b"
  /\ removeInvalidAddonNameChars "a./ b" = "ab".
Proof. repeat split. Qed.

(** ** What the sanitizer removes *)

Lemma removeInvalidAddonNameChars_within (n : nat) :
  forall s,
    (String.length s <= n)%nat ->
    stripInvalidChars_spec (removeInvalidAddonNameChars s) =
      stripInvalidChars_spec s
    /\ (String.length (removeInvalidAddonNameChars s) <= String.length s)%nat.
Proof.
  induction n as [|n IH]; intros s Hlen.
  - destruct s; [now split|cbn in Hlen; lia].
  - destruct s as [|a t]; [now split|].
    cbn [String.length] in Hlen.
    assert (Ht : (String.length t <= n)%nat) by lia.
    destruct (IH t Ht) as [IHs IHl].
    cbn [removeInvalidAddonNameChars].
    destruct t as [|b [|c rest]];
      try (cbn [stripInvalidChars_spec String.length] in *;
           rewrite IHs; split; [reflexivity|lia]).
    destruct (isDot a && isSlash b && isWhitespace c) eqn:Hmatch.
    + apply andb_prop in Hmatch as [Hab Hc]. apply andb_prop in Hab as [Ha Hb].
      destruct (IH rest) as [IHr IHrl]; [cbn [String.length] in Ht; lia|].
      split.
      * rewrite IHr. cbn [stripInvalidChars_spec]. unfold isInvalidNameChar.
        rewrite Ha, Hb, Hc. cbn [orb]. now rewrite orb_true_r, !orb_true_r.
      * cbn [String.length]. lia.
    + cbn [stripInvalidChars_spec String.length] in *.
      rewrite IHs. split; [reflexivity|lia].
Qed.

(** X9. Whatever the sanitizer takes out of a name is a dot, a slash or a
    whitespace character: the name it returns and the name it was given
    hold the same other characters in the same order, and the result is
    never longer than the input. *)
Theorem sanitizer_removes_only_invalid_chars (addonName : string) :
  stripInvalidChars_spec (removeInvalidAddonNameChars addonName) =
    stripInvalidChars_spec addonName
  /\ (String.length (removeInvalidAddonNameChars addonName)
      <= String.length addonName)%nat.
Proof.
  apply (removeInvalidAddonNameChars_within (String.length addonName)). lia.
Qed.


(** ** Objects used as maps: reads after writes *)

Section OwnPropertyFacts.
Context {V : Type}.

Lemma getOwn_setOwn_same (o : list (string * V)) (k : string) (v : V) :
  getOwn (setOwn o k v) k = Some v.
Proof.
  induction o as [|[k' v'] rest IH]; cbn [setOwn getOwn].
  - now rewrite String.eqb_refl.
  - destruct (String.eqb k' k) eqn:E; cbn [getOwn]; [now rewrite E|].
    destruct (getOwn rest k); [cbn [getOwn]; now rewrite E|].
    destruct (keyBefore k k'); cbn [getOwn].
    + now rewrite String.eqb_refl.
    + now rewrite E.
Qed.

Lemma getOwn_setOwn_other (o : list (string * V)) (k k' : string) (v : V) :
  k <> k' -> getOwn (setOwn o k v) k' = getOwn o k'.
Proof.
  intros Hne. induction o as [|[k0 v0] rest IH]; cbn [setOwn getOwn].
  - destruct (String.eqb_spec k k'); [contradiction|reflexivity].
  - destruct (String.eqb_spec k0 k) as [->|Hk]; cbn [getOwn].
    + destruct (String.eqb_spec k k'); [contradiction|reflexivity].
    + destruct (getOwn rest k); [cbn [getOwn]; now rewrite IH|].
      destruct (keyBefore k k0); cbn [getOwn].
      * destruct (String.eqb_spec k k'); [contradiction|reflexivity].
      * now rewrite IH.
Qed.

Lemma keys_setOwn_present (o : list (string * V)) (k : string) (v v0 : V) :
  getOwn o k = Some v0 -> keys (setOwn o k v) = keys o.
Proof.
  revert v0. induction o as [|[k' v'] rest IH]; intros v0;
    cbn [setOwn getOwn keys map fst]; [discriminate|].
  destruct (String.eqb k' k); [reflexivity|].
  intros H. rewrite H. cbn [map fst]. f_equal. now apply (IH v0).
Qed.

Lemma keys_setOwn_named (o : list (string * V)) (k : string) (v : V) :
  getOwn o k = None -> arrayIndex k = None ->
  keys (setOwn o k v) = (keys o ++ [k])%list.
Proof.
  intros Hnone Hname.
  induction o as [|[k' v'] rest IH]; cbn [setOwn keys map fst app];
    [reflexivity|].
  cbn [getOwn] in Hnone. destruct (String.eqb k' k); [discriminate|].
  rewrite Hnone. unfold keyBefore. rewrite Hname. cbn [map fst].
  f_equal. now apply IH.
Qed.

Lemma In_keys_setOwn (o : list (string * V)) (k k' : string) (v : V) :
  In k' (keys (setOwn o k v)) <-> k' = k \/ In k' (keys o).
Proof.
  induction o as [|[k0 v0] rest IH]; cbn [setOwn keys map fst In].
  - intuition congruence.
  - destruct (String.eqb_spec k0 k) as [->|Hk]; cbn [map fst In].
    + intuition congruence.
    + fold (keys rest). destruct (getOwn rest k).
      * cbn [map fst In]. fold (keys (setOwn rest k v)). rewrite IH. tauto.
      * destruct (keyBefore k k0); cbn [map fst In].
        -- fold (keys rest). intuition congruence.
        -- fold (keys (setOwn rest k v)). rewrite IH. tauto.
Qed.

Lemma setOwn_present (o : list (string * V)) (k : string) (v : V) :
  getOwn o k = Some v -> setOwn o k v = o.
Proof.
  induction o as [|[k0 v0] rest IH]; cbn [getOwn setOwn]; [discriminate|].
  destruct (String.eqb_spec k0 k) as [->|Hne].
  - intros H. now injection H as ->.
  - intros H. rewrite H. now rewrite IH.
Qed.

Lemma setOwn_setOwn (o : list (string * V)) (k : string) (v v' : V) :
  setOwn (setOwn o k v) k v' = setOwn o k v'.
Proof.
  induction o as [|[k0 v0] rest IH]; cbn [setOwn].
  - now rewrite String.eqb_refl.
  - destruct (String.eqb k0 k) eqn:E; cbn [setOwn]; [now rewrite E|].
    destruct (getOwn rest k) eqn:Hrest.
    + cbn [setOwn]. rewrite E, getOwn_setOwn_same. now rewrite IH.
    + destruct (keyBefore k k0) eqn:Hb; cbn [setOwn].
      * now rewrite String.eqb_refl.
      * rewrite E, getOwn_setOwn_same. now rewrite IH.
Qed.

Lemma getOwn_deleteOwn_same (o : list (string * V)) (k : string) :
  getOwn (deleteOwn o k) k = None.
Proof.
  induction o as [|[k0 v0] rest IH]; cbn [deleteOwn getOwn]; [reflexivity|].
  destruct (String.eqb k0 k) eqn:E; [exact IH|]. cbn [getOwn]. now rewrite E.
Qed.

Lemma getOwn_deleteOwn_other (o : list (string * V)) (k k' : string) :
  k <> k' -> getOwn (deleteOwn o k) k' = getOwn o k'.
Proof.
  intros Hne. induction o as [|[k0 v0] rest IH]; cbn [deleteOwn getOwn];
    [reflexivity|].
  destruct (String.eqb_spec k0 k) as [->|Hk]; cbn [getOwn].
  - destruct (String.eqb_spec k k'); [contradiction|exact IH].
  - now rewrite IH.
Qed.

Lemma deleteOwn_absent (o : list (string * V)) (k : string) :
  getOwn o k = None -> deleteOwn o k = o.
Proof.
  induction o as [|[k0 v0] rest IH]; cbn [deleteOwn getOwn]; [reflexivity|].
  destruct (String.eqb k0 k); [discriminate|]. intros H. now rewrite IH.
Qed.

Lemma keys_deleteOwn (o : list (string * V)) (k : string) :
  keys (deleteOwn o k) = filter (fun k' => negb (String.eqb k' k)) (keys o).
Proof.
  induction o as [|[k0 v0] rest IH]; cbn [deleteOwn keys map fst filter];
    [reflexivity|].
  destruct (String.eqb k0 k); cbn [negb keys map fst]; [exact IH|].
  f_equal. exact IH.
Qed.

Lemma getOwn_In_keys (o : list (string * V)) (k : string) (v : V) :
  getOwn o k = Some v -> In k (keys o).
Proof.
  induction o as [|[k0 v0] rest IH]; cbn [getOwn keys map fst In];
    [discriminate|].
  destruct (String.eqb_spec k0 k) as [->|Hk]; [now left|].
  intros H. right. now apply IH.
Qed.

Lemma getOwn_not_In_keys (o : list (string * V)) (k : string) :
  ~ In k (keys o) -> getOwn o k = None.
Proof.
  intros H. destruct (getOwn o k) as [v|] eqn:E; [|reflexivity].
  exfalso. apply H. now apply (getOwn_In_keys _ _ v).
Qed.

Lemma getOwn_declared (o : list (string * V)) (k : string) :
  In k (keys o) -> getOwn o k <> None.
Proof.
  induction o as [|[k' v] rest IH]; cbn [keys map fst In getOwn]; [tauto|].
  destruct (String.eqb_spec k' k) as [->|Hne]; [discriminate|].
  intros [H|H]; [congruence|now apply IH].
Qed.

Lemma getOwn_NoDup (o : list (string * V)) (k : string) (v : V) :
  NoDup (keys o) -> In (k, v) o -> getOwn o k = Some v.
Proof.
  induction o as [|[k' v'] rest IH]; cbn [keys map fst In getOwn];
    [intros _ []|].
  intros Hnd [Heq|Hin]; inversion Hnd as [|? ? Hfresh Hrest]; subst.
  - injection Heq as -> ->. now rewrite String.eqb_refl.
  - destruct (String.eqb_spec k' k) as [->|Hne]; [|now apply IH].
    exfalso. apply Hfresh. change (In k (map fst rest)).
    now apply (in_map fst _ (k, v)).
Qed.

End OwnPropertyFacts.

(** ** Traces *)

Lemma extend_nil (w : World) : extend w [] = w.
Proof. destruct w. unfold extend. cbn. now rewrite app_nil_r. Qed.

Lemma extend_extend (w : World) (a b : list Event) :
  extend (extend w a) b = extend w (a ++ b).
Proof. unfold extend. cbn. now rewrite app_assoc. Qed.

Lemma advance_nil (w : World) : advance w [] [] = w.
Proof. destruct w. unfold advance. cbn. now rewrite !app_nil_r. Qed.

Lemma advance_advance (w : World) (a b : list Event) (p q : list Callback) :
  advance (advance w a p) b q = advance w (a ++ b) (p ++ q).
Proof. unfold advance. cbn. now rewrite !app_assoc. Qed.

Lemma extend_advance (w : World) (evs : list Event) : extend w evs = advance w evs [].
Proof. unfold extend, advance. now rewrite app_nil_r. Qed.

Lemma installedOn_app (a b : list Event) :
  installedOn (a ++ b)%list = (installedOn a ++ installedOn b)%list.
Proof. apply flat_map_app. Qed.

Lemma sentOn_app (a b : list Event) :
  sentOn (a ++ b)%list = (sentOn a ++ sentOn b)%list.
Proof. apply flat_map_app. Qed.

Lemma installedOn_classLog (l : ClassLogger) (type : string) (args : list string) :
  installedOn (classLog l type args) = [].
Proof.
  unfold classLog. destruct (cl_logger l); try reflexivity.
  destruct (cl_enabledTypes l) as [[| | |]|]; try reflexivity.
  now destruct (includes _ _).
Qed.

Lemma sentOn_classLog (l : ClassLogger) (type : string) (args : list string) :
  sentOn (classLog l type args) = [].
Proof.
  unfold classLog. destruct (cl_logger l); try reflexivity.
  destruct (cl_enabledTypes l) as [[| | |]|]; try reflexivity.
  now destruct (includes _ _).
Qed.

(** ** Scoped loggers *)

Lemma soundLogger_scoped (name : string) (logger : HostLogger)
    (types : list string) :
  soundLogger (scopedLogger name logger types).
Proof. now exists logger, types. Qed.

(** A sound logger never throws: its call shows [classLog] on the host
    logger. *)
Lemma log_sound (l : ClassLogger) (type : string) (args : list string)
    (w : World) :
  soundLogger l ->
  log l type args w = (extend w (classLog l type args), Returned tt).
Proof.
  intros (logger & types & Hl & Ht). unfold log, classLog.
  rewrite Hl, Ht. cbn [enabledFor].
  destruct (includes types type); [reflexivity|].
  unfold ret. now rewrite extend_nil.
Qed.

(** A line reaches the host logger exactly when its type is enabled. *)
Lemma classLog_enabled (name : string) (logger : HostLogger)
    (types : list string) (type : string) (args : list string) :
  In type types ->
  classLog (scopedLogger name logger types) type args =
    [HostLog logger type ("[" ++ name ++ "] " ++ joinComma args)].
Proof.
  intros H. unfold classLog. cbn.
  apply includes_In in H. now rewrite H.
Qed.

Lemma classLog_disabled (name : string) (logger : HostLogger)
    (types : list string) (type : string) (args : list string) :
  ~ In type types ->
  classLog (scopedLogger name logger types) type args = [].
Proof.
  intros H. unfold classLog. cbn.
  apply includes_false in H. now rewrite H.
Qed.

(** Whatever a scoped logger stands over, a call shows at most events of
    the host logger, leaves the registry alone, and returns or throws a
    [TypeError]. *)
Lemma log_run (l : ClassLogger) (type : string) (args : list string)
    (w : World) :
  exists evs c,
    log l type args w = (extend w evs, c)
    /\ installedOn evs = [] /\ sentOn evs = []
    /\ loaderOutcome c.
Proof.
  unfold log.
  destruct (enabledFor (cl_enabledTypes l) type) as [e|[|]] eqn:Hen.
  - exists [], (Thrown e). unfold throw. rewrite extend_nil.
    repeat split. cbn.
    unfold enabledFor in Hen.
    destruct (cl_enabledTypes l) as [[| | |[|]]|]; try discriminate;
      now injection Hen as <-.
  - destruct (cl_logger l).
    + eexists [_], (Returned tt). now repeat split.
    + exists [], (Thrown (newTypeError "logger[type] is not a function")).
      unfold throw. rewrite extend_nil. now repeat split.
    + exists [], (Thrown (newTypeError "logger[type] is not a function")).
      unfold throw. rewrite extend_nil. now repeat split.
    + exists [], (Thrown (newTypeError "logger[type] is not a function")).
      unfold throw. rewrite extend_nil. now repeat split.
  - exists [], (Returned tt). unfold ret. rewrite extend_nil. now repeat split.
Qed.

(** ** What the code of an addon can do to the module state *)

Lemma quiet_ret {A} (a : A) : quiet (ret a).
Proof. intros w. exists [], [], (Returned a). now rewrite advance_nil. Qed.

Lemma quiet_throw {A} (e : Raised) : quiet (@throw World A e).
Proof. intros w. exists [], [], (Thrown e). now rewrite advance_nil. Qed.

Lemma quiet_bind {A B} (m : M A) (k : A -> M B) :
  quiet m -> (forall a, quiet (k a)) -> quiet (bind m k).
Proof.
  intros Hm Hk w. unfold bind.
  destruct (Hm w) as (evs & pushed & c & -> & Hevs & Hc).
  destruct c as [a|e|code]; [|now exists evs, pushed, (Thrown e)|contradiction].
  destruct (Hk a (advance w evs pushed)) as (evs' & pushed' & c' & -> & Hevs' & Hc').
  exists (evs ++ evs')%list, (pushed ++ pushed')%list, c'.
  rewrite advance_advance, installedOn_app, Hevs, Hevs'. now repeat split.
Qed.

Lemma quiet_tryCatch {A} (m : M A) (handler : Raised -> M A) :
  quiet m -> (forall e, quiet (handler e)) -> quiet (tryCatch m handler).
Proof.
  intros Hm Hh w. unfold tryCatch.
  destruct (Hm w) as (evs & pushed & c & -> & Hevs & Hc).
  destruct c as [a|e|code]; [now exists evs, pushed, (Returned a)| |contradiction].
  destruct (Hh e (advance w evs pushed)) as (evs' & pushed' & c' & -> & Hevs' & Hc').
  exists (evs ++ evs')%list, (pushed ++ pushed')%list, c'.
  rewrite advance_advance, installedOn_app, Hevs, Hevs'. now repeat split.
Qed.

Lemma quiet_stackOf (error : Raised) : quiet (stackOf error).
Proof.
  destruct error; [apply quiet_ret|apply quiet_throw|apply quiet_ret].
Qed.

Lemma quiet_log (l : ClassLogger) (type : string) (args : list string) :
  quiet (log l type args).
Proof.
  intros w. destruct (log_run l type args w) as (evs & c & -> & Hevs & _ & Hc).
  exists evs, [], c. rewrite extend_advance. repeat split; [exact Hevs|].
  now destruct c.
Qed.

Lemma quiet_record (evs : list Event) :
  installedOn evs = [] -> quiet (record evs).
Proof.
  intros H w. exists evs, [], (Returned tt). unfold record.
  rewrite extend_advance. now repeat split.
Qed.

Lemma quiet_theInterface : quiet theInterface.
Proof.
  intros w. unfold theInterface.
  destruct (addonInterfaceObj w) as [r|].
  - exists [], [], (Returned r). now rewrite advance_nil.
  - eexists [], [], (Thrown _). now rewrite advance_nil.
Qed.

Lemma quiet_sendEvent (this : AddonBase) (eventName : string)
    (args : list string) :
  quiet (sendEvent this eventName args).
Proof.
  unfold sendEvent. destruct (includes validInputEvents eventName).
  - apply quiet_tryCatch.
    + apply quiet_bind; [apply quiet_theInterface|]. intros obj.
      unfold emitterSend. apply quiet_bind; [now apply quiet_record|].
      intros _. destruct (send_throws _ _ _); [apply quiet_throw|apply quiet_ret].
    + intros e. apply quiet_bind; [apply quiet_stackOf|].
      intros stack. apply quiet_log.
  - apply quiet_log.
Qed.

Lemma quiet_pushCallbacks (this : AddonBase) (name : string)
    (callbacks : list Callback) :
  quiet (pushCallbacks this name callbacks).
Proof.
  intros w. unfold pushCallbacks.
  destruct (getOwn (ab_listeners this) name).
  - eexists [], [], (Returned _). now rewrite advance_nil.
  - destruct (inheritedByArray (arrayPrototype w) name).
    + eexists [], [], (Returned _). now rewrite advance_nil.
    + eexists [], [], (Thrown _). now rewrite advance_nil.
    + eexists [], [], (Thrown _). now rewrite advance_nil.
    + exists [], callbacks, (Returned this). unfold advance.
      now rewrite app_nil_r.
Qed.

Lemma quiet_registerNames (names : list string) (callbacks : list Callback) :
  forall this, quiet (registerNames this names callbacks).
Proof.
  induction names as [|name rest IH]; intros this; cbn [registerNames].
  - apply quiet_ret.
  - apply quiet_bind; [apply quiet_pushCallbacks|]. intros this'. apply IH.
Qed.

Lemma quiet_registerListener (this : AddonBase) (eventName : OneOrMany string)
    (callbacks : OneOrMany Callback) :
  quiet (registerListener this eventName callbacks).
Proof. apply quiet_registerNames. Qed.

Lemma quiet_runOps (ops : list AddonOp) :
  forall self, quiet (runOps ops self).
Proof.
  induction ops as [|[names cbs|eventName args|level text|e] rest IH];
    intros self; cbn [runOps].
  - apply quiet_ret.
  - apply quiet_bind; [apply quiet_registerListener|]. intros self'. apply IH.
  - apply quiet_bind; [apply quiet_sendEvent|]. intros _. apply IH.
  - apply quiet_bind; [apply quiet_log|]. intros _. apply IH.
  - apply quiet_throw.
Qed.

Lemma quiet_runOpsOnConfig (addonConfig : AddonConfig) (ops : list AddonOp) :
  quiet (runOpsOnConfig ops addonConfig).
Proof.
  induction ops as [|[names cbs|eventName args|level text|e] rest IH];
    cbn [runOpsOnConfig].
  - apply quiet_ret.
  - apply quiet_throw.
  - apply quiet_throw.
  - destruct (getOwn (ac_props addonConfig) "logger") as [[| | |]|];
      try apply quiet_throw.
    apply quiet_bind; [now apply quiet_record|]. intros _. exact IH.
  - apply quiet_throw.
Qed.

(** The constructor of [AddonBase] touches nothing but the object it is
    given. *)
Lemma AddonBase_constructor_pure (addonConfig : AddonConfig)
    (loggerName : option string) (constructorName : string) (w : World) :
  fst (AddonBase_constructor addonConfig loggerName constructorName w) = w
  /\ notExited (snd (AddonBase_constructor addonConfig loggerName
                       constructorName w)).
Proof.
  unfold AddonBase_constructor.
  destruct (addonInterfaceObj w); [|now split].
  destruct (getClassLogger _ _ _); now split.
Qed.

Lemma quiet_AddonBase_constructor (addonConfig : AddonConfig)
    (loggerName : option string) (constructorName : string) :
  quiet (AddonBase_constructor addonConfig loggerName constructorName).
Proof.
  intros w.
  destruct (AddonBase_constructor_pure addonConfig loggerName constructorName w)
    as [Hw Hc].
  destruct (AddonBase_constructor addonConfig loggerName constructorName w)
    as [w1 c]. cbn [fst snd] in Hw, Hc. subst w1.
  exists [], [], c. now rewrite advance_nil.
Qed.

Lemma quiet_callUnit (f : ExportedFunction) (self : AddonBase) :
  quiet (callUnit f self).
Proof.
  unfold callUnit. destruct (fn_kind f);
    try apply quiet_runOps; apply quiet_throw.
Qed.

Lemma quiet_newFunctionAddon (f : ExportedFunction) (addonConfig : AddonConfig)
    (addonName : string) :
  quiet (newFunctionAddon f addonConfig addonName).
Proof.
  unfold newFunctionAddon.
  apply quiet_bind; [apply quiet_AddonBase_constructor|]. intros built.
  apply quiet_bind; [apply quiet_callUnit|]. intros self. apply quiet_ret.
Qed.

Lemma newAddonClass_quiet (f : ExportedFunction) (addonConfig : AddonConfig)
    (w : World) :
  exists evs pushed c addonConfig1,
    newAddonClass f addonConfig w = (advance w evs pushed, (c, addonConfig1))
    /\ installedOn evs = [] /\ notExited c.
Proof.
  unfold newAddonClass. destruct (fn_kind f).
  - eexists [], [], (Thrown _), addonConfig. now rewrite advance_nil.
  - destruct (quiet_runOpsOnConfig addonConfig (fn_body f) w)
      as (evs & pushed & c & -> & Hevs & Hc).
    destruct c as [[]|e|code]; [| |contradiction].
    + now exists evs, pushed, (Returned None), addonConfig.
    + now exists evs, pushed, (Thrown e), addonConfig.
  - destruct (AddonBase_constructor_pure addonConfig None (fn_name f) w)
      as [Hw Hc].
    destruct (AddonBase_constructor addonConfig None (fn_name f) w)
      as [w1 [[self prepared]|e|code]]; cbn [fst snd] in Hw, Hc; subst w1;
      [| |contradiction].
    + destruct (quiet_runOps (fn_body f) self w)
        as (evs & pushed & c & -> & Hevs & Hc2).
      destruct c as [self'|e|code]; [| |contradiction].
      * now exists evs, pushed, (Returned (Some self')), prepared.
      * now exists evs, pushed, (Thrown e), prepared.
    + exists [], [], (Thrown e), addonConfig. now rewrite advance_nil.
  - exists [], [], (Returned None), addonConfig. now rewrite advance_nil.
Qed.

Lemma quiet_constructAddon (f : ExportedFunction) (addonConfig : AddonConfig)
    (addonName : string) :
  quiet (constructAddon f addonConfig addonName).
Proof.
  intros w. unfold constructAddon.
  destruct (newAddonClass_quiet f addonConfig w)
    as (evs & pushed & c & addonConfig1 & -> & Hevs & Hc).
  destruct c as [newAddon|loadErr|code]; [| |contradiction].
  - now exists evs, pushed, (Returned newAddon).
  - destruct (instanceOfTypeError loadErr).
    + destruct (quiet_newFunctionAddon f addonConfig1 addonName
                  (advance w evs pushed))
        as (evs' & pushed' & c' & -> & Hevs' & Hc').
      exists (evs ++ evs')%list, (pushed ++ pushed')%list, c'.
      rewrite advance_advance, installedOn_app, Hevs, Hevs'. now repeat split.
    + now exists evs, pushed, (Thrown loadErr).
Qed.

Lemma quiet_requireAddon (require : Modules) (addonName : string) :
  quiet (requireAddon require addonName).
Proof.
  unfold requireAddon.
  destruct (require addonName) as [e|n|exports [wrapped|]];
    [apply quiet_throw|apply quiet_throw|apply quiet_ret|apply quiet_ret].
Qed.

(** ** Runs of the monad *)

Lemma bind_run {S A B} (m : Eff S A) (k : A -> Eff S B) (s s1 : S)
    (c : Completion A) :
  m s = (s1, c) ->
  bind m k s = match c with
               | Returned a => k a s1
               | Thrown e => (s1, Thrown e)
               | Exited code => (s1, Exited code)
               end.
Proof. unfold bind. intros ->. now destruct c. Qed.

Lemma tryCatch_run {S A} (m : Eff S A) (handler : Raised -> Eff S A)
    (s s1 : S) (c : Completion A) :
  m s = (s1, c) ->
  tryCatch m handler s = match c with
                         | Thrown e => handler e s1
                         | other => (s1, other)
                         end.
Proof. unfold tryCatch. intros ->. now destruct c. Qed.

Lemma reached_nil (w : World) (this : AddonInterface) :
  addonInterfaceObj w = Some this -> reached this w [] [] = w.
Proof.
  destruct w as [obj tr proto]. cbn. intros ->. unfold reached. cbn.
  now rewrite !app_nil_r.
Qed.

Lemma advance_reached (w : World) (this : AddonInterface) (evs : list Event)
    (pushed : list Callback) :
  addonInterfaceObj w = Some this ->
  advance w evs pushed = reached this w evs pushed.
Proof. unfold advance, reached. now intros ->. Qed.

Lemma advance_of_reached (w : World) (this : AddonInterface)
    (a b : list Event) (p q : list Callback) :
  advance (reached this w a p) b q = reached this w (a ++ b) (p ++ q).
Proof. unfold advance, reached. cbn. now rewrite !app_assoc. Qed.

Lemma extend_reached (w : World) (this : AddonInterface)
    (a b : list Event) (p : list Callback) :
  extend (reached this w a p) b = reached this w (a ++ b) p.
Proof. unfold extend, reached. cbn. now rewrite !app_assoc. Qed.

Lemma reached_reached (w : World) (this this' : AddonInterface)
    (a b : list Event) (p q : list Callback) :
  reached this' (reached this w a p) b q = reached this' w (a ++ b) (p ++ q).
Proof. unfold reached. cbn. now rewrite !app_assoc. Qed.

Lemma thisLog_run (type : string) (args : list string) (w : World)
    (this : AddonInterface) :
  addonInterfaceObj w = Some this ->
  exists evs c,
    thisLog type args w = (extend w evs, c)
    /\ installedOn evs = [] /\ sentOn evs = [] /\ loaderOutcome c.
Proof.
  intros Hobj. unfold thisLog, bind, theInterface. rewrite Hobj.
  apply log_run.
Qed.

Lemma thisLog_sound (type : string) (args : list string) (w : World)
    (this : AddonInterface) :
  addonInterfaceObj w = Some this ->
  soundLogger (ai_logger this) ->
  thisLog type args w =
    (extend w (classLog (ai_logger this) type args), Returned tt).
Proof.
  intros Hobj Hsound. unfold thisLog, bind, theInterface. rewrite Hobj.
  now apply log_sound.
Qed.

Lemma loaderOutcome_notExited {A} (c : Completion A) :
  loaderOutcome c -> notExited c.
Proof. now destruct c. Qed.

(** ** Instances keep their name and their logger *)

Lemma sameIdentity_refl (a : AddonBase) : sameIdentity a a.
Proof. now repeat split. Qed.

Lemma sameIdentity_trans (a b c : AddonBase) :
  sameIdentity a b -> sameIdentity b c -> sameIdentity a c.
Proof.
  intros (H1 & H2 & H3 & H4) (H1' & H2' & H3' & H4').
  repeat split; congruence.
Qed.

Lemma sameIdentity_named (a b : AddonBase) :
  sameIdentity a b -> named a -> named b.
Proof. intros (H1 & H2 & _). unfold named. now rewrite <- H1, <- H2. Qed.

Lemma pushCallbacks_identity (this this' : AddonBase) (name : string)
    (callbacks : list Callback) (w w' : World) :
  pushCallbacks this name callbacks w = (w', Returned this') ->
  sameIdentity this this'.
Proof.
  unfold pushCallbacks.
  destruct (getOwn (ab_listeners this) name).
  - intros [= _ <-]. now repeat split.
  - destruct (inheritedByArray (arrayPrototype w) name); try discriminate.
    + intros [= _ <-]. now repeat split.
    + intros [= _ <-]. apply sameIdentity_refl.
Qed.

Lemma registerNames_identity (names : list string) (callbacks : list Callback) :
  forall (this this' : AddonBase) (w w' : World),
    registerNames this names callbacks w = (w', Returned this') ->
    sameIdentity this this'.
Proof.
  induction names as [|name rest IH]; intros this this' w w'; cbn [registerNames].
  - intros [= _ <-]. apply sameIdentity_refl.
  - unfold bind.
    destruct (pushCallbacks this name callbacks w) as [w1 [this1|e|code]] eqn:Hpush;
      try discriminate.
    intros Hrest. eapply sameIdentity_trans.
    + eapply pushCallbacks_identity, Hpush.
    + eapply IH, Hrest.
Qed.

Lemma runOps_identity (ops : list AddonOp) :
  forall (self self' : AddonBase) (w w' : World),
    runOps ops self w = (w', Returned self') ->
    sameIdentity self self'.
Proof.
  induction ops as [|[names cbs|eventName args|level text|e] rest IH];
    intros self self' w w'; cbn [runOps].
  - intros [= _ <-]. apply sameIdentity_refl.
  - unfold bind.
    destruct (registerListener self names cbs w) as [w1 [self1|e|code]] eqn:Hreg;
      try discriminate.
    intros Hrest. eapply sameIdentity_trans.
    + eapply registerNames_identity, Hreg.
    + eapply IH, Hrest.
  - unfold bind.
    destruct (sendEvent self eventName args w) as [w1 [[]|e|code]];
      try discriminate.
    apply IH.
  - unfold bind.
    destruct (log (ab_logger self) (levelName level) [text] w) as [w1 [[]|e|code]];
      try discriminate.
    apply IH.
  - discriminate.
Qed.

Lemma AddonBase_constructor_named (addonConfig prepared : AddonConfig)
    (loggerName : option string) (constructorName : string)
    (w w' : World) (self : AddonBase) :
  AddonBase_constructor addonConfig loggerName constructorName w =
    (w', Returned (self, prepared)) ->
  named self.
Proof.
  unfold AddonBase_constructor, getClassLogger.
  destruct (addonInterfaceObj w); [|discriminate].
  destruct (getOwn (ac_props addonConfig) "logger"); [|discriminate].
  intros [= _ <- _]. reflexivity.
Qed.

Lemma newAddonClass_named (f : ExportedFunction) (addonConfig addonConfig1 : AddonConfig)
    (w w' : World) (instance : AddonBase) :
  newAddonClass f addonConfig w = (w', (Returned (Some instance), addonConfig1)) ->
  named instance.
Proof.
  unfold newAddonClass. destruct (fn_kind f); try discriminate.
  - destruct (runOpsOnConfig (fn_body f) addonConfig w) as [w1 [[]|e|code]];
      discriminate.
  - destruct (AddonBase_constructor addonConfig None (fn_name f) w)
      as [w1 [[self prepared]|e|code]] eqn:Hbase; try discriminate.
    destruct (runOps (fn_body f) self w1) as [w2 [self'|e|code]] eqn:Hbody;
      try discriminate.
    intros [= _ <- _].
    eapply sameIdentity_named.
    + eapply runOps_identity, Hbody.
    + eapply AddonBase_constructor_named, Hbase.
Qed.

Lemma newFunctionAddon_named (f : ExportedFunction) (addonConfig : AddonConfig)
    (addonName : string) (w w' : World) (instance : AddonBase) :
  newFunctionAddon f addonConfig addonName w = (w', Returned (Some instance)) ->
  named instance.
Proof.
  unfold newFunctionAddon, bind.
  destruct (AddonBase_constructor addonConfig _ EmptyString w)
    as [w1 [[self prepared]|e|code]] eqn:Hbase; try discriminate.
  cbn [fst]. unfold callUnit.
  assert (Hbody : forall w2 self',
             runOps (fn_body f) self w1 = (w2, Returned self') -> named self').
  { intros w2 self' Hbody. eapply sameIdentity_named.
    - eapply runOps_identity, Hbody.
    - eapply AddonBase_constructor_named, Hbase. }
  destruct (fn_kind f); try discriminate.
  - destruct (runOps (fn_body f) self w1) as [w2 [self'|e|code]] eqn:Hrun;
      try discriminate.
    intros [= _ <-]. eapply Hbody. reflexivity.
  - destruct (runOps (fn_body f) self w1) as [w2 [self'|e|code]] eqn:Hrun;
      try discriminate.
    intros [= _ <-]. eapply Hbody. reflexivity.
Qed.

Lemma constructAddon_named (f : ExportedFunction) (addonConfig : AddonConfig)
    (addonName : string) (w w' : World) (instance : AddonBase) :
  constructAddon f addonConfig addonName w = (w', Returned (Some instance)) ->
  named instance.
Proof.
  unfold constructAddon.
  destruct (newAddonClass f addonConfig w)
    as [w1 [[newAddon|loadErr|code] addonConfig1]] eqn:Hclass.
  - intros [= _ ->]. eapply newAddonClass_named, Hclass.
  - destruct (instanceOfTypeError loadErr); [|discriminate].
    apply newFunctionAddon_named.
  - discriminate.
Qed.

(** ** The loader, one declared name at a time *)

Lemma pushAll_app (a b : list AddonBase) (this : AddonInterface) :
  pushAll (a ++ b) this = pushAll b (pushAll a this).
Proof. apply fold_left_app. Qed.

Lemma pushAll_addons (more : list AddonBase) :
  forall this, ai_addons (pushAll more this) = (ai_addons this ++ more)%list.
Proof.
  induction more as [|instance rest IH]; intros this; cbn.
  - now rewrite app_nil_r.
  - change (ai_addons (pushAll rest (pushAddon instance this))
            = (ai_addons this ++ instance :: rest)%list).
    rewrite IH. cbn. now rewrite <- app_assoc.
Qed.

Lemma pushAll_sameHost (more : list AddonBase) :
  forall this, sameHost (pushAll more this) this.
Proof.
  induction more as [|instance rest IH]; intros this.
  - now repeat split.
  - change (sameHost (pushAll rest (pushAddon instance this)) this).
    destruct (IH (pushAddon instance this)) as (H1 & H2 & H3 & H4).
    now repeat split.
Qed.

Lemma installAddon_step (AddonClass : Exported) (addonConfig : AddonConfig)
    (addonName : string) (w : World) (this : AddonInterface) :
  addonInterfaceObj w = Some this ->
  exists more evs pushed c,
    installAddon AddonClass addonConfig addonName w =
      (reached (pushAll more this) w evs pushed, c)
    /\ installedOn evs = [] /\ notExited c
    /\ Forall named more /\ length more <= 1.
Proof.
  intros Hobj. destruct AddonClass as [f|]; cbn [installAddon].
  - destruct (quiet_constructAddon f addonConfig addonName w)
      as (evs & pushed & c & Hrun & Hevs & Hc).
    rewrite (bind_run _ _ _ _ _ Hrun).
    destruct c as [[instance|]|e|code]; [| | |contradiction].
    + pose proof (constructAddon_named _ _ _ _ _ _ Hrun) as Hnamed.
      unfold bind at 1. unfold updateInterface at 1.
      cbn [addonInterfaceObj trace arrayPrototype advance]. rewrite Hobj.
      cbn [option_map].
      change {| addonInterfaceObj := Some (pushAddon instance this);
                trace := (trace w ++ evs)%list;
                arrayPrototype := (arrayPrototype w ++ pushed)%list |}
        with (reached (pushAddon instance this) w evs pushed).
      destruct (thisLog_run "info"
                  ["Successfully loaded addon '" ++ addonName ++ "'."]
                  (reached (pushAddon instance this) w evs pushed)
                  (pushAddon instance this) eq_refl)
        as (evs' & c' & -> & Hevs' & _ & Hc').
      exists [instance], (evs ++ evs')%list, pushed, c'.
      rewrite extend_reached, installedOn_app, Hevs, Hevs'.
      repeat split; auto using loaderOutcome_notExited.
    + exists [], evs, pushed. eexists. rewrite (advance_reached _ _ _ _ Hobj).
      cbn. repeat split; auto.
    + exists [], evs, pushed, (Thrown e). rewrite (advance_reached _ _ _ _ Hobj).
      cbn. repeat split; auto.
  - exists [], [], []. eexists. unfold throw. unfold pushAll; cbn [fold_left]; rewrite (reached_nil _ _ Hobj).
    cbn. repeat split; auto.
Qed.

Lemma loadAttempt_step (require : Modules) (images : Images)
    (logger : HostLogger) (config : Config) (addonName : string)
    (fields : Fields) (w : World) (this : AddonInterface) :
  addonInterfaceObj w = Some this ->
  exists more evs pushed c,
    loadAttempt require images logger config addonName fields w =
      (reached (pushAll more this) w evs pushed, c)
    /\ installedOn evs = [] /\ notExited c
    /\ Forall named more /\ length more <= 1.
Proof.
  intros Hobj. unfold loadAttempt, requireAddon.
  destruct (require addonName) as [e|n|exports [wrapped|]].
  - exists [], [], [], (Thrown e). unfold bind, throw.
    unfold pushAll; cbn [fold_left]; rewrite (reached_nil _ _ Hobj). cbn. repeat split; auto.
  - exists [], [], []. eexists. unfold bind, throw.
    unfold pushAll; cbn [fold_left]; rewrite (reached_nil _ _ Hobj). cbn. repeat split; auto.
  - unfold bind, ret. now apply installAddon_step.
  - unfold bind, ret. now apply installAddon_step.
Qed.

Lemma loadEntry_step (require : Modules) (images : Images)
    (logger : HostLogger) (config : Config) (addonName : string)
    (fields : Fields) (w : World) (this : AddonInterface) :
  addonInterfaceObj w = Some this ->
  exists more evs pushed c,
    loadEntry require images logger config addonName fields w =
      (reached (pushAll more this) w evs pushed, c)
    /\ installedOn evs = [] /\ loaderOutcome c
    /\ Forall named more
    /\ length more <=
         (if negb (enabledIsFalse fields)
             && negb (String.eqb addonName "addonInterface")
          then 1 else 0).
Proof.
  intros Hobj. unfold loadEntry.
  destruct (enabledIsFalse fields).
  { destruct (thisLog_run "warn" ["Addon " ++ addonName ++ " disabled in config."]
                w this Hobj) as (evs & c & -> & Hevs & _ & Hc).
    exists [], evs, [], c. rewrite extend_advance, (advance_reached _ _ _ _ Hobj).
    cbn. repeat split; auto. }
  destruct (String.eqb addonName "addonInterface").
  { exists [], [], [], (Returned tt). unfold ret. unfold pushAll; cbn [fold_left]; rewrite (reached_nil _ _ Hobj).
    cbn. repeat split; auto. }
  destruct (loadAttempt_step require images logger config addonName fields w
              this Hobj) as (more & evs & pushed & c & Hrun & Hevs & Hc & Hnamed & Hlen).
  rewrite (tryCatch_run _ _ _ _ _ Hrun).
  destruct c as [[]|e|code]; [| |contradiction].
  - exists more, evs, pushed, (Returned tt). cbn. repeat split; auto.
  - destruct e as [err|n|].
    + cbn [stackOf]. unfold bind at 1, ret at 1.
      destruct (thisLog_run "error"
                  ["Error initialize addon '" ++ addonName
                   ++ "'! Addon was disabled." ++ LF;
                   joinedArg (Some (err_stack err))]
                  (reached (pushAll more this) w evs pushed)
                  (pushAll more this) eq_refl)
        as (evs' & c' & -> & Hevs' & _ & Hc').
      exists more, (evs ++ evs')%list, pushed, c'.
      rewrite extend_reached, installedOn_app, Hevs, Hevs'.
      cbn. repeat split; auto.
    + cbn [stackOf]. unfold bind at 1, throw at 1.
      exists more, evs, pushed. eexists. repeat split; auto.
    + cbn [stackOf]. unfold bind at 1, ret at 1.
      destruct (thisLog_run "error"
                  ["Error initialize addon '" ++ addonName
                   ++ "'! Addon was disabled." ++ LF;
                   joinedArg None]
                  (reached (pushAll more this) w evs pushed)
                  (pushAll more this) eq_refl)
        as (evs' & c' & -> & Hevs' & _ & Hc').
      exists more, (evs ++ evs')%list, pushed, c'.
      rewrite extend_reached, installedOn_app, Hevs, Hevs'.
      cbn. repeat split; auto.
Qed.

Lemma loadAddon_step (require : Modules) (images : Images)
    (logger : HostLogger) (config : Config) (key : string)
    (w : World) (this : AddonInterface) :
  addonInterfaceObj w = Some this ->
  exists more evs pushed c,
    loadAddon require images logger config key w =
      (reached (pushAll more this) w evs pushed, c)
    /\ installedOn evs = [] /\ loaderOutcome c
    /\ Forall named more
    /\ length more <= (if eligible config key then 1 else 0).
Proof.
  intros Hobj. unfold loadAddon, eligible.
  destruct (getMember (cfg_addons config) (removeInvalidAddonNameChars key))
    as [[|p|fields]| | |].
  - exists [], [], []. eexists. unfold throw. unfold pushAll; cbn [fold_left]; rewrite (reached_nil _ _ Hobj).
    cbn. repeat split; auto.
  - exists [], [], [], (Returned tt). unfold ret. unfold pushAll; cbn [fold_left]; rewrite (reached_nil _ _ Hobj).
    cbn. repeat split; auto.
  - apply loadEntry_step, Hobj.
  - exists [], [], [], (Returned tt). unfold ret. unfold pushAll; cbn [fold_left]; rewrite (reached_nil _ _ Hobj).
    cbn. repeat split; auto.
  - destruct (loadEntry_step require images logger config
                (removeInvalidAddonNameChars key) [] w this Hobj)
      as (more & evs & pushed & c & Hrun & Hevs & Hc & Hnamed & Hlen).
    exists more, evs, pushed, c. repeat split; auto.
    destruct (negb (enabledIsFalse []) && _); lia.
  - exists [], [], []. eexists. unfold throw. unfold pushAll; cbn [fold_left]; rewrite (reached_nil _ _ Hobj).
    cbn. repeat split; auto.
Qed.

Lemma loadAddon_steps (require : Modules) (images : Images)
    (logger : HostLogger) (config : Config) (names : list string) :
  forall (w : World) (this : AddonInterface),
    addonInterfaceObj w = Some this ->
    exists more evs pushed c,
      forEach (loadAddon require images logger config) names w =
        (reached (pushAll more this) w evs pushed, c)
      /\ installedOn evs = [] /\ loaderOutcome c
      /\ Forall named more
      /\ length more <= length (filter (eligible config) names).
Proof.
  induction names as [|key rest IH]; intros w this Hobj; cbn [forEach].
  - exists [], [], [], (Returned tt). unfold ret. unfold pushAll; cbn [fold_left]; rewrite (reached_nil _ _ Hobj).
    cbn. repeat split; auto.
  - destruct (loadAddon_step require images logger config key w this Hobj)
      as (more & evs & pushed & c & Hrun & Hevs & Hc & Hnamed & Hlen).
    rewrite (bind_run _ _ _ _ _ Hrun).
    assert (Hcount : length more <= length (filter (eligible config) (key :: rest))).
    { cbn [filter]. destruct (eligible config key); cbn [length]; lia. }
    destruct c as [[]|e|code]; [| |contradiction].
    + destruct (IH (reached (pushAll more this) w evs pushed) (pushAll more this)
                  eq_refl)
        as (more' & evs' & pushed' & c' & -> & Hevs' & Hc' & Hnamed' & Hlen').
      exists (more ++ more')%list, (evs ++ evs')%list, (pushed ++ pushed')%list, c'.
      rewrite reached_reached, pushAll_app, installedOn_app, Hevs, Hevs'.
      repeat split; auto.
      * now apply Forall_app.
      * rewrite length_app. cbn [filter].
        destruct (eligible config key); cbn [length] in *; lia.
    + exists more, evs, pushed, (Thrown e). repeat split; auto.
Qed.

(** ** The subscription set *)

Lemma indexOf_absent (l : list string) (x : string) :
  (indexOf l x =? -1)%Z = true <-> ~ In x l.
Proof.
  unfold indexOf. rewrite Z.eqb_eq. apply indexOfFrom_absent. lia.
Qed.

Lemma mergeListeners_spec (names : list string) :
  forall mine,
    NoDup mine ->
    NoDup (mergeListeners mine names)
    /\ (forall n, In n (mergeListeners mine names) <-> In n mine \/ In n names)
    /\ exists more, mergeListeners mine names = (mine ++ more)%list.
Proof.
  unfold mergeListeners.
  induction names as [|name rest IH]; intros mine Hnd; cbn [fold_left].
  - split; [exact Hnd|]. split; [cbn; tauto|]. exists []. now rewrite app_nil_r.
  - destruct (indexOf mine name =? -1)%Z eqn:E.
    + apply indexOf_absent in E.
      destruct (IH (mine ++ [name])%list) as (H1 & H2 & more & H3).
      { apply NoDup_app; [exact Hnd|repeat constructor; intros []|].
        intros x Hx [<-|[]]. contradiction. }
      split; [exact H1|]. split.
      * intros n. rewrite H2, in_app_iff. cbn [In]. tauto.
      * exists (name :: more). rewrite H3, <- app_assoc. reflexivity.
    + assert (Hin : In name mine).
      { destruct (in_dec string_dec name mine) as [H|H]; [exact H|].
        apply indexOf_absent in H. congruence. }
      destruct (IH mine Hnd) as (H1 & H2 & H3).
      split; [exact H1|]. split; [|exact H3].
      intros n. rewrite H2. cbn [In]. split; [tauto|].
      intros [H|[<-|H]]; tauto.
Qed.

Lemma pushAddon_subscribes (instance : AddonBase) (this : AddonInterface) :
  subscribesToItsAddons this -> subscribesToItsAddons (pushAddon instance this).
Proof.
  intros [Hnd Hiff]. unfold subscribesToItsAddons.
  cbn [pushAddon ai_listeners ai_addons].
  destruct (mergeListeners_spec (keys (ab_listeners instance))
              (ai_listeners this) Hnd) as (H1 & H2 & _).
  split; [exact H1|]. intros n. rewrite H2, Hiff. split.
  - intros [(a & Ha & Hn)|Hn].
    + exists a. split; [apply in_or_app; now left|exact Hn].
    + exists instance. split; [apply in_or_app; right; now left|exact Hn].
  - intros (a & Ha & Hn). apply in_app_or in Ha as [Ha|[<-|[]]].
    + left. now exists a.
    + now right.
Qed.

Lemma pushAll_subscribes (pushed : list AddonBase) :
  forall this,
    subscribesToItsAddons this -> subscribesToItsAddons (pushAll pushed this).
Proof.
  induction pushed as [|a rest IH]; intros this H; [exact H|].
  unfold pushAll. cbn [fold_left]. fold (pushAll rest (pushAddon a this)).
  apply IH. now apply pushAddon_subscribes.
Qed.


Lemma NoDup_installed (ipcMain : IpcMain) (names : list string) :
  NoDup names ->
  NoDup (map (pair ipcMain) (filter (includes validListenEvents) names)).
Proof.
  intros Hnd. apply (NoDup_filter (includes validListenEvents)) in Hnd.
  induction Hnd as [|n rest Hout _ IH]; cbn [map]; constructor; [|exact IH].
  intros Hin. apply in_map_iff in Hin as (m & Heq & Hm).
  injection Heq as ->. contradiction.
Qed.


(** ** Runs of the router *)

Lemma installListener_sound (ipcMain : IpcMain) (eventName : string)
    (w : World) (this : AddonInterface) :
  addonInterfaceObj w = Some this ->
  soundLogger (ai_logger this) ->
  installListener ipcMain eventName w =
    (extend w (installEvents (ai_logger this) ipcMain eventName), Returned tt).
Proof.
  intros Hobj Hsound. unfold installListener, installEvents.
  destruct (includes validListenEvents eventName).
  - unfold bind, record.
    erewrite thisLog_sound;
      [|unfold extend; cbn [addonInterfaceObj]; exact Hobj|exact Hsound].
    now rewrite extend_extend.
  - now apply thisLog_sound.
Qed.

Lemma forEach_installListener_sound (ipcMain : IpcMain) (names : list string) :
  forall (w : World) (this : AddonInterface),
    addonInterfaceObj w = Some this ->
    soundLogger (ai_logger this) ->
    forEach (installListener ipcMain) names w =
      (extend w (flat_map (installEvents (ai_logger this) ipcMain) names),
       Returned tt).
Proof.
  induction names as [|eventName rest IH]; intros w this Hobj Hsound;
    cbn [forEach flat_map].
  - unfold ret. now rewrite extend_nil.
  - unfold bind. rewrite (installListener_sound _ _ _ _ Hobj Hsound).
    rewrite (IH _ this); [|exact Hobj|exact Hsound].
    now rewrite extend_extend.
Qed.

Lemma initializeListeners_sound (ipcMain : IpcMain) (w : World)
    (this : AddonInterface) :
  addonInterfaceObj w = Some this ->
  soundLogger (ai_logger this) ->
  initializeListeners ipcMain w =
    (extend w (routerTrace (ai_logger this) ipcMain (ai_listeners this)),
     Returned tt).
Proof.
  intros Hobj Hsound. unfold initializeListeners, routerTrace.
  unfold bind at 1. rewrite (thisLog_sound _ _ _ _ Hobj Hsound).
  unfold bind at 1, theInterface at 1. cbn [extend addonInterfaceObj].
  rewrite Hobj. unfold bind at 1.
  erewrite forEach_installListener_sound; [|exact Hobj|exact Hsound].
  erewrite thisLog_sound; [|exact Hobj|exact Hsound].
  unfold extend. cbn [trace addonInterfaceObj arrayPrototype].
  now rewrite <- !app_assoc.
Qed.

Lemma installedOn_installEvents (l : ClassLogger) (ipcMain : IpcMain)
    (names : list string) :
  installedOn (flat_map (installEvents l ipcMain) names) =
    map (pair ipcMain) (filter (includes validListenEvents) names).
Proof.
  induction names as [|eventName rest IH]; cbn [flat_map filter map];
    [reflexivity|].
  rewrite installedOn_app, IH. unfold installEvents.
  destruct (includes validListenEvents eventName).
  - cbn [installedOn flat_map app map].
    fold (installedOn (classLog l "info"
                         ["Installed listener '" ++ eventName ++ "'"])).
    now rewrite installedOn_classLog.
  - now rewrite installedOn_classLog.
Qed.

Lemma installedOn_routerTrace (l : ClassLogger) (ipcMain : IpcMain)
    (names : list string) :
  installedOn (routerTrace l ipcMain names) =
    map (pair ipcMain) (filter (includes validListenEvents) names).
Proof.
  unfold routerTrace.
  rewrite !installedOn_app, !installedOn_classLog, installedOn_installEvents.
  now rewrite app_nil_r.
Qed.

(** ** Runs of the constructor *)

Lemma sameHost_sound (a b : AddonInterface) :
  sameHost a b -> soundLogger (ai_logger b) -> soundLogger (ai_logger a).
Proof. intros (-> & _). auto. Qed.

(** On a fresh module the constructor is the loading pass followed by the
    router. *)
Lemma constructor_fresh (require : Modules) (images : Images)
    (logger : HostLogger) (emitter : Emitter) (ipcMain : IpcMain)
    (config : Config) (w : World) :
  addonInterfaceObj w = None ->
  AddonInterface_constructor require images logger emitter ipcMain config w =
    bind (forEach (loadAddon require images logger config)
                  (keys (cfg_addons config)))
         (fun _ => initializeListeners ipcMain ;; theInterface)
         (loadingStarts images logger emitter ipcMain config w).
Proof.
  intros Hnone. unfold AddonInterface_constructor, loadingStarts.
  rewrite Hnone. unfold loadAddons. unfold bind at 1. unfold bind at 1.
  now rewrite (thisLog_sound "info" ["Load addons..."]
                 {| addonInterfaceObj :=
                      Some (newInterface images logger emitter ipcMain config);
                    trace := trace w;
                    arrayPrototype := arrayPrototype w |}
                 (newInterface images logger emitter ipcMain config) eq_refl
                 (soundLogger_scoped _ _ _)).
Qed.

(** The constructor on a fresh module. The loading pass pushes some
    instances onto the new registry; when it returns, the router runs and
    the constructor returns the registry; when it throws, the constructor
    throws that [TypeError]. Either way the registry stays in
    [addonInterfaceObj]. *)
Lemma constructor_steps (require : Modules) (images : Images)
    (logger : HostLogger) (emitter : Emitter) (ipcMain : IpcMain)
    (config : Config) (w : World) :
  addonInterfaceObj w = None ->
  exists more evs pushed,
    Forall named more
    /\ length more <= length (filter (eligible config) (keys (cfg_addons config)))
    /\ installedOn evs = []
    /\ (AddonInterface_constructor require images logger emitter ipcMain config w =
          (reached (pushAll more (newInterface images logger emitter ipcMain config))
                   w
                   (evs ++ routerTrace
                             (scopedLogger "AddonInterface" logger (cfg_logging config))
                             ipcMain
                             (ai_listeners
                                (pushAll more
                                   (newInterface images logger emitter ipcMain config))))
                   pushed,
           Returned (pushAll more (newInterface images logger emitter ipcMain config)))
        \/ exists e,
             AddonInterface_constructor require images logger emitter ipcMain config w =
               (reached (pushAll more (newInterface images logger emitter ipcMain config))
                        w evs pushed,
                Thrown e)
             /\ instanceOfTypeError e = true
             /\ forEach (loadAddon require images logger config)
                        (keys (cfg_addons config))
                        (loadingStarts images logger emitter ipcMain config w) =
                  (reached (pushAll more
                              (newInterface images logger emitter ipcMain config))
                           w evs pushed,
                   Thrown e)).
Proof.
  intros Hnone.
  rewrite (constructor_fresh _ _ _ _ _ _ _ Hnone).
  set (this0 := newInterface images logger emitter ipcMain config).
  set (L := classLog (scopedLogger "AddonInterface" logger (cfg_logging config))
                     "info" ["Load addons..."]).
  assert (Hsound0 : soundLogger (ai_logger this0)) by apply soundLogger_scoped.
  destruct (loadAddon_steps require images logger config (keys (cfg_addons config))
              (loadingStarts images logger emitter ipcMain config w) this0 eq_refl)
    as (more & evs & pushed & c & Hrun & Hevs & Hc & Hnamed & Hlen).
  rewrite (bind_run _ _ _ _ _ Hrun). rewrite Hrun.
  exists more, (L ++ evs)%list, pushed.
  split; [exact Hnamed|]. split; [exact Hlen|]. split.
  { rewrite installedOn_app, Hevs. unfold L. now rewrite installedOn_classLog. }
  assert (Hw : forall this evs',
             reached this (loadingStarts images logger emitter ipcMain config w)
                     evs' pushed =
             reached this w (L ++ evs') pushed).
  { intros this evs'. unfold reached, loadingStarts, extend.
    cbn [trace arrayPrototype addonInterfaceObj]. now rewrite <- app_assoc. }
  destruct c as [[]|e|code]; [| |contradiction].
  - left.
    assert (Hsound : soundLogger (ai_logger (pushAll more this0))).
    { eapply sameHost_sound; [apply pushAll_sameHost|exact Hsound0]. }
    unfold bind at 1.
    rewrite (initializeListeners_sound ipcMain
               (reached (pushAll more this0)
                        (loadingStarts images logger emitter ipcMain config w)
                        evs pushed)
               (pushAll more this0) eq_refl Hsound).
    unfold theInterface. rewrite extend_reached.
    cbn [addonInterfaceObj reached].
    destruct (pushAll_sameHost more this0) as (-> & _).
    fold (reached (pushAll more this0)
                  (loadingStarts images logger emitter ipcMain config w)
                  (evs ++ routerTrace (ai_logger this0) ipcMain
                                      (ai_listeners (pushAll more this0)))
                  pushed).
    rewrite Hw. now rewrite <- app_assoc.
  - right. exists e. rewrite Hw. now repeat split.
Qed.


(** ** Code that throws neither [null] nor [undefined] *)

Lemma civil_ret {A} (a : A) : civil (ret a).
Proof. intros w w' n. discriminate. Qed.

Lemma civil_throw {A} (e : JsError) : civil (@throw World A e).
Proof. intros w w' n. discriminate. Qed.

Lemma civil_bind {A B} (m : M A) (k : A -> M B) :
  civil m -> (forall a, civil (k a)) -> civil (bind m k).
Proof.
  intros Hm Hk w w' n. unfold bind.
  destruct (m w) as [w1 [a|e|code]] eqn:Hrun.
  - apply Hk.
  - intros [= <- ->]. exact (Hm _ _ _ Hrun).
  - discriminate.
Qed.

Lemma civil_tryCatch {A} (m : M A) (handler : Raised -> M A) :
  (forall e, civil (handler e)) -> civil (tryCatch m handler).
Proof.
  intros Hh w w' n. unfold tryCatch.
  destruct (m w) as [w1 [a|e|code]]; [discriminate|apply Hh|discriminate].
Qed.

Lemma civil_stackOf (error : Raised) : civil (stackOf error).
Proof. destruct error; intros w w' n'; discriminate. Qed.

Lemma civil_log (l : ClassLogger) (type : string) (args : list string) :
  civil (log l type args).
Proof.
  intros w w' n. unfold log.
  destruct (enabledFor (cl_enabledTypes l) type) as [e|[|]]; try discriminate.
  destruct (cl_logger l); discriminate.
Qed.

Lemma civil_thisLog (type : string) (args : list string) :
  civil (thisLog type args).
Proof.
  apply civil_bind.
  - intros w w' n. unfold theInterface. destruct (addonInterfaceObj w); discriminate.
  - intros this. apply civil_log.
Qed.

Lemma civil_sendEvent (this : AddonBase) (eventName : string)
    (args : list string) :
  civil (sendEvent this eventName args).
Proof.
  unfold sendEvent. destruct (includes validInputEvents eventName).
  - apply civil_tryCatch. intros e.
    apply civil_bind; [apply civil_stackOf|]. intros stack. apply civil_log.
  - apply civil_log.
Qed.

Lemma civil_pushCallbacks (this : AddonBase) (name : string)
    (callbacks : list Callback) :
  civil (pushCallbacks this name callbacks).
Proof.
  intros w w' n. unfold pushCallbacks.
  destruct (getOwn (ab_listeners this) name); [discriminate|].
  destruct (inheritedByArray (arrayPrototype w) name); discriminate.
Qed.

Lemma civil_registerNames (names : list string) (callbacks : list Callback) :
  forall this, civil (registerNames this names callbacks).
Proof.
  induction names as [|name rest IH]; intros this; cbn [registerNames].
  - apply civil_ret.
  - apply civil_bind; [apply civil_pushCallbacks|]. intros this'. apply IH.
Qed.

Lemma civil_runOps (ops : list AddonOp) :
  forallb throwsNothing ops = true ->
  forall self, civil (runOps ops self).
Proof.
  induction ops as [|[names cbs|eventName args|level text|e] rest IH];
    cbn [forallb throwsNothing]; intros Hops self; cbn [runOps].
  - apply civil_ret.
  - apply civil_bind; [apply civil_registerNames|]. intros self'. now apply IH.
  - apply civil_bind; [apply civil_sendEvent|]. intros _. now apply IH.
  - apply civil_bind; [apply civil_log|]. intros _. now apply IH.
  - destruct e as [err|n|]; [|discriminate|]; intros w w' n'; discriminate.
Qed.

Lemma civil_runOpsOnConfig (addonConfig : AddonConfig) (ops : list AddonOp) :
  forallb throwsNothing ops = true ->
  civil (runOpsOnConfig ops addonConfig).
Proof.
  induction ops as [|[names cbs|eventName args|level text|e] rest IH];
    cbn [forallb throwsNothing]; intros Hops; cbn [runOpsOnConfig].
  - apply civil_ret.
  - apply civil_throw.
  - apply civil_throw.
  - destruct (getOwn (ac_props addonConfig) "logger") as [[| | |]|];
      try apply civil_throw.
    apply civil_bind; [intros w w' n; discriminate|]. intros _. now apply IH.
  - destruct e as [err|n|]; [|discriminate|]; intros w w' n'; discriminate.
Qed.

Lemma civil_AddonBase_constructor (addonConfig : AddonConfig)
    (loggerName : option string) (constructorName : string) :
  civil (AddonBase_constructor addonConfig loggerName constructorName).
Proof.
  intros w w' n. unfold AddonBase_constructor.
  destruct (addonInterfaceObj w); [|discriminate].
  destruct (getClassLogger _ _ _); discriminate.
Qed.

Lemma civil_newFunctionAddon (f : ExportedFunction) (addonConfig : AddonConfig)
    (addonName : string) :
  forallb throwsNothing (fn_body f) = true ->
  civil (newFunctionAddon f addonConfig addonName).
Proof.
  intros Hops. unfold newFunctionAddon.
  apply civil_bind; [apply civil_AddonBase_constructor|]. intros built.
  apply civil_bind; [|intros self; apply civil_ret].
  unfold callUnit. destruct (fn_kind f);
    try (now apply civil_runOps); apply civil_throw.
Qed.

Lemma civil_constructAddon (f : ExportedFunction) (addonConfig : AddonConfig)
    (addonName : string) :
  forallb throwsNothing (fn_body f) = true ->
  civil (constructAddon f addonConfig addonName).
Proof.
  intros Hops w w' n. unfold constructAddon.
  destruct (newAddonClass f addonConfig w)
    as [w1 [[newAddon|loadErr|code] addonConfig1]] eqn:Hclass; try discriminate.
  destruct (instanceOfTypeError loadErr) eqn:Hte.
  - now apply civil_newFunctionAddon.
  - intros [= <- ->]. revert Hclass. unfold newAddonClass.
    destruct (fn_kind f).
    + discriminate.
    + destruct (runOpsOnConfig (fn_body f) addonConfig w)
        as [w2 [[]|e|code]] eqn:Hrun; try discriminate.
      intros [= -> -> _]. exact (civil_runOpsOnConfig _ _ Hops _ _ _ Hrun).
    + destruct (AddonBase_constructor addonConfig None (fn_name f) w)
        as [w2 [[self prepared]|e|code]] eqn:Hbase; try discriminate.
      * destruct (runOps (fn_body f) self w2) as [w3 [self'|e|code]] eqn:Hrun;
          try discriminate.
        intros [= -> -> _]. exact (civil_runOps _ Hops _ _ _ _ Hrun).
      * intros [= -> -> _]. exact (civil_AddonBase_constructor _ _ _ _ _ _ Hbase).
    + discriminate.
Qed.

Lemma civil_installAddon (AddonClass : Exported) (addonConfig : AddonConfig)
    (addonName : string) :
  tameExport AddonClass = true ->
  civil (installAddon AddonClass addonConfig addonName).
Proof.
  destruct AddonClass as [f|]; cbn [tameExport installAddon]; intros Hops.
  - apply civil_bind; [now apply civil_constructAddon|].
    intros [instance|]; [|apply civil_throw].
    apply civil_bind; [intros w w' n; discriminate|]. intros _.
    apply civil_thisLog.
  - apply civil_throw.
Qed.

Lemma civil_loadAttempt (require : Modules) (images : Images)
    (logger : HostLogger) (config : Config) (addonName : string)
    (fields : Fields) :
  tame (require addonName) = true ->
  civil (loadAttempt require images logger config addonName fields).
Proof.
  unfold loadAttempt, requireAddon, tame.
  destruct (require addonName) as [[err|n|]|n|exports [wrapped|]]; intros Htame.
  - intros w w' n. unfold bind, throw. discriminate.
  - discriminate.
  - intros w w' n. unfold bind, throw. discriminate.
  - intros w w' n'. unfold bind, throw. discriminate.
  - intros w w' n. unfold bind at 1, ret at 1. now apply civil_installAddon.
  - intros w w' n. unfold bind at 1, ret at 1. now apply civil_installAddon.
Qed.

(** ** Steps of the loader that return *)

Lemma loadEntry_not_thrown (require : Modules) (images : Images)
    (logger : HostLogger) (config : Config) (addonName : string)
    (fields : Fields) (w : World) (this : AddonInterface) :
  addonInterfaceObj w = Some this ->
  soundLogger (ai_logger this) ->
  tame (require addonName) = true ->
  forall w' e,
    loadEntry require images logger config addonName fields w <> (w', Thrown e).
Proof.
  intros Hobj Hsound Htame w' e0. unfold loadEntry.
  destruct (enabledIsFalse fields).
  { rewrite (thisLog_sound _ _ _ _ Hobj Hsound). discriminate. }
  destruct (String.eqb addonName "addonInterface"); [discriminate|].
  destruct (loadAttempt_step require images logger config addonName fields w
              this Hobj) as (more & evs & pushed & c & Hrun & _ & Hc & _).
  rewrite (tryCatch_run _ _ _ _ _ Hrun).
  assert (Hsound' : soundLogger (ai_logger (pushAll more this))).
  { eapply sameHost_sound; [apply pushAll_sameHost|exact Hsound]. }
  destruct c as [[]|e|code]; [discriminate| |contradiction].
  destruct e as [err|n|].
  - cbn [stackOf]. unfold bind at 1, ret at 1.
    rewrite (thisLog_sound _ _ (reached (pushAll more this) w evs pushed)
               (pushAll more this) eq_refl Hsound').
    discriminate.
  - exfalso. exact (civil_loadAttempt _ _ _ _ _ _ Htame _ _ _ Hrun).
  - cbn [stackOf]. unfold bind at 1, ret at 1.
    rewrite (thisLog_sound _ _ (reached (pushAll more this) w evs pushed)
               (pushAll more this) eq_refl Hsound').
    discriminate.
Qed.

Lemma loadAddon_returns (require : Modules) (images : Images)
    (logger : HostLogger) (config : Config) (key : string)
    (w : World) (this : AddonInterface) :
  addonInterfaceObj w = Some this ->
  soundLogger (ai_logger this) ->
  resolves config key = true ->
  tame (require (removeInvalidAddonNameChars key)) = true ->
  exists more evs pushed,
    loadAddon require images logger config key w =
      (reached (pushAll more this) w evs pushed, Returned tt)
    /\ installedOn evs = []
    /\ Forall named more
    /\ length more <= (if eligible config key then 1 else 0).
Proof.
  intros Hobj Hsound Hres Htame.
  destruct (loadAddon_step require images logger config key w this Hobj)
    as (more & evs & pushed & c & Hrun & Hevs & Hc & Hnamed & Hlen).
  exists more, evs, pushed. repeat split; auto.
  destruct c as [[]|e|code]; [exact Hrun| |contradiction].
  exfalso. revert Hrun Hres. unfold loadAddon, resolves.
  destruct (getMember (cfg_addons config) (removeInvalidAddonNameChars key))
    as [[|p|fields]| | |]; try discriminate.
  - intros Hrun _.
    exact (loadEntry_not_thrown _ _ _ _ _ _ _ _ Hobj Hsound Htame _ _ Hrun).
  - intros Hrun _.
    exact (loadEntry_not_thrown _ _ _ _ _ _ _ _ Hobj Hsound Htame _ _ Hrun).
Qed.

Lemma loadAddon_all_return (require : Modules) (images : Images)
    (logger : HostLogger) (config : Config) (names : list string) :
  forallb (resolves config) names = true ->
  forallb (fun key => tame (require (removeInvalidAddonNameChars key))) names
    = true ->
  forall (w : World) (this : AddonInterface),
    addonInterfaceObj w = Some this ->
    soundLogger (ai_logger this) ->
    exists more evs pushed,
      forEach (loadAddon require images logger config) names w =
        (reached (pushAll more this) w evs pushed, Returned tt).
Proof.
  induction names as [|key rest IH]; intros Hres Htame w this Hobj Hsound;
    cbn [forEach].
  - exists [], [], []. unfold ret, pushAll. cbn [fold_left].
    now rewrite (reached_nil _ _ Hobj).
  - cbn [forallb] in Hres, Htame.
    apply andb_prop in Hres as [Hkey Hrest].
    apply andb_prop in Htame as [Htame Htames].
    destruct (loadAddon_returns require images logger config key w this
                Hobj Hsound Hkey Htame)
      as (more & evs & pushed & Hrun & _).
    rewrite (bind_run _ _ _ _ _ Hrun).
    destruct (IH Hrest Htames (reached (pushAll more this) w evs pushed)
                (pushAll more this) eq_refl) as (more' & evs' & pushed' & ->).
    { eapply sameHost_sound; [apply pushAll_sameHost|exact Hsound]. }
    exists (more ++ more')%list, (evs ++ evs')%list, (pushed ++ pushed')%list.
    now rewrite reached_reached, pushAll_app.
Qed.

(** ** [sendEvent] *)

Lemma In_validInputEvents_dec (eventName : string) :
  {In eventName validInputEvents} + {~ In eventName validInputEvents}.
Proof. apply in_dec, string_dec. Qed.

(** The shape of every run of [sendEvent]: a name of the vocabulary is
    handed to the emitter of the registry, once, whatever happens next. *)
Lemma sendEvent_run (this : AddonBase) (eventName : string)
    (args : list string) (w : World) (r : AddonInterface) :
  addonInterfaceObj w = Some r ->
  exists evs c,
    sendEvent this eventName args w = (extend w evs, c)
    /\ sentOn evs =
         (if includes validInputEvents eventName
          then [(emitter_id (ai_emitter r), eventName, args)] else [])
    /\ installedOn evs = []
    /\ loaderOutcome c
    /\ (includes validInputEvents eventName = true ->
        send_throws (ai_emitter r) eventName args = None ->
        evs = [EmitterSend (emitter_id (ai_emitter r)) eventName args]
        /\ c = Returned tt).
Proof.
  intros Hobj. unfold sendEvent.
  destruct (includes validInputEvents eventName).
  - unfold tryCatch, bind at 1, theInterface. rewrite Hobj.
    unfold emitterSend, bind at 1, record.
    destruct (send_throws (ai_emitter r) eventName args) as [e|].
    + unfold throw.
      assert (Hlog : forall stack,
                 exists evs c,
                   log (ab_logger this) "error"
                       ["Error send input event " ++ eventName ++ "!" ++ LF;
                        joinedArg stack]
                       (extend w [EmitterSend (emitter_id (ai_emitter r))
                                              eventName args]) =
                     (extend w evs, c)
                   /\ sentOn evs = [(emitter_id (ai_emitter r), eventName, args)]
                   /\ installedOn evs = [] /\ loaderOutcome c).
      { intros stack.
        destruct (log_run (ab_logger this) "error"
                    ["Error send input event " ++ eventName ++ "!" ++ LF;
                     joinedArg stack]
                    (extend w [EmitterSend (emitter_id (ai_emitter r))
                                           eventName args]))
          as (evs & c & -> & Hinst & Hsent & Hc).
        eexists _, c. rewrite extend_extend. split; [reflexivity|].
        rewrite sentOn_app, installedOn_app, Hsent, Hinst. now repeat split. }
      destruct e as [err|n|]; cbn [stackOf].
      * destruct (Hlog (Some (err_stack err))) as (evs & c & Hrun & H1 & H2 & H3).
        exists evs, c. unfold bind, ret. rewrite Hrun.
        repeat split; auto; discriminate.
      * eexists [_], (Thrown _). unfold bind, throw.
        repeat split; try reflexivity; discriminate.
      * destruct (Hlog None) as (evs & c & Hrun & H1 & H2 & H3).
        exists evs, c. unfold bind, ret. rewrite Hrun.
        repeat split; auto; discriminate.
    + eexists [_], (Returned tt). unfold ret. now repeat split.
  - destruct (log_run (ab_logger this) "warn"
                ["sendEvent: Ignored invalid eventName '" ++ eventName ++ "'!"] w)
      as (evs & c & -> & Hinst & Hsent & Hc).
    exists evs, c. repeat split; auto; discriminate.
Qed.

(** C5. The specification has a failing forward caught and logged, never
    passed on to the caller. With an emitter whose [send] throws [null],
    the [catch] of lines 475-477 reads [error.stack] to build the log
    call, which is itself a [TypeError]: [sendEvent] hands the event to the
    emitter, logs nothing, and throws to the addon that called it. *)
Theorem send_failure_with_null_propagates :
  In "next" validInputEvents
  /\ send_throws (ai_emitter nullBound) "next" [] = Some (Nullish Null)
  /\ sendEvent greeterInstance "next" [] (worldOf nullBound) =
       (extend (worldOf nullBound) [EmitterSend 9 "next" []],
        Thrown (newTypeError "Cannot read properties of null (reading 'stack')")).
Proof.
  split; [cbn; tauto|]. split; reflexivity.
Qed.

(** X30. [sendEvent] on an instance whose scoped logger stands over the
    host logger, as the loader builds it, while the registry exists and
    the emitter's [send] throws nothing or a value other than [null] and
    [undefined]: the call returns; a name of the outbound vocabulary is
    handed to the registry's emitter, and what [send] throws ends up as one
    line of type [error] on the host logger, prefixed with the addon's
    name; any other name never reaches the emitter and gives one line of
    type [warn]. A line is written when its type is among the enabled
    types. *)
Theorem sendEvent_validates_and_isolates
    (this : AddonBase) (eventName : string) (args : list string)
    (w : World) (r : AddonInterface) (logger : HostLogger)
    (types : list string) :
  addonInterfaceObj w = Some r ->
  ab_logger this = scopedLogger ("addon " ++ ab_name this) logger types ->
  (forall n, send_throws (ai_emitter r) eventName args <> Some (Nullish n)) ->
  exists evs,
    sendEvent this eventName args w = (extend w evs, Returned tt)
    /\ (In (emitter_id (ai_emitter r), eventName, args) (sentOn evs)
        <-> In eventName validInputEvents)
    /\ (~ In eventName validInputEvents ->
        sentOn evs = []
        /\ (In "warn" types ->
            evs = [HostLog logger "warn"
                     ("[addon " ++ ab_name this
                      ++ "] sendEvent: Ignored invalid eventName '"
                      ++ eventName ++ "'!")])
        /\ (~ In "warn" types -> evs = []))
    /\ (In eventName validInputEvents ->
        send_throws (ai_emitter r) eventName args = None ->
        evs = [EmitterSend (emitter_id (ai_emitter r)) eventName args])
    /\ (In eventName validInputEvents ->
        forall e, send_throws (ai_emitter r) eventName args = Some e ->
        sentOn evs = [(emitter_id (ai_emitter r), eventName, args)]
        /\ (In "error" types ->
            evs = [EmitterSend (emitter_id (ai_emitter r)) eventName args;
                   HostLog logger "error"
                     ("[addon " ++ ab_name this ++ "] Error send input event "
                      ++ eventName ++ "!" ++ LF ++ ","
                      ++ joinedArg (stackText e))])
        /\ (~ In "error" types ->
            evs = [EmitterSend (emitter_id (ai_emitter r)) eventName args])).
Proof.
  intros Hobj Hlogger Hcivil.
  assert (Hsound : soundLogger (ab_logger this)).
  { rewrite Hlogger. apply soundLogger_scoped. }
  unfold sendEvent.
  destruct (In_validInputEvents_dec eventName) as [Hin|Hout].
  - pose proof Hin as Hinc. apply includes_In in Hinc. rewrite Hinc.
    unfold tryCatch, bind at 1, theInterface. rewrite Hobj.
    unfold emitterSend, bind at 1, record.
    destruct (send_throws (ai_emitter r) eventName args) as [e|] eqn:Hsend.
    + unfold throw.
      assert (Hstack : stackOf e
                         (extend w [EmitterSend (emitter_id (ai_emitter r))
                                                eventName args]) =
                       (extend w [EmitterSend (emitter_id (ai_emitter r))
                                              eventName args],
                        Returned (stackText e))).
      { destruct e as [err|n|]; try reflexivity. now destruct (Hcivil n). }
      rewrite (bind_run _ _ _ _ _ Hstack), (log_sound _ _ _ _ Hsound).
      rewrite extend_extend, Hlogger. eexists. split; [reflexivity|].
      cbn [app sentOn flat_map].
      fold (sentOn (classLog (scopedLogger ("addon " ++ ab_name this) logger types)
                      "error"
                      ["Error send input event " ++ eventName ++ "!" ++ LF;
                       joinedArg (stackText e)])).
      rewrite sentOn_classLog.
      split; [split; [trivial|intros _; now left]|].
      split; [intros H; contradiction|]. split; [discriminate|].
      intros _ e' [= <-]. split; [reflexivity|]. split.
      * intros Hen. rewrite (classLog_enabled _ _ _ _ _ Hen).
        cbn [joinComma]. now rewrite !append_assoc.
      * intros Hen. now rewrite (classLog_disabled _ _ _ _ _ Hen).
    + unfold ret. eexists. split; [reflexivity|].
      cbn [sentOn flat_map app].
      split; [split; [trivial|intros _; now left]|].
      split; [intros H; contradiction|]. split; [reflexivity|].
      discriminate.
  - pose proof Hout as Hinc. apply includes_false in Hinc. rewrite Hinc.
    rewrite (log_sound _ _ _ _ Hsound), Hlogger. eexists.
    split; [reflexivity|]. rewrite sentOn_classLog.
    split; [split; [intros []|contradiction]|].
    split; [|split; intros H; contradiction].
    intros _. split; [reflexivity|]. split.
    + intros Hen. rewrite (classLog_enabled _ _ _ _ _ Hen).
      cbn [joinComma]. now rewrite !append_assoc.
    + intros Hen. now rewrite (classLog_disabled _ _ _ _ _ Hen).
Qed.

Lemma sendEvent_validates_and_isolates_witness :
  exists evs,
    sendEvent greeterInstance "play" [] (worldOf brokenBound) =
      (extend (worldOf brokenBound) evs, Returned tt)
    /\ evs = [EmitterSend 8 "play" [];
              HostLog 1 "error"
                ("[addon greeter] Error send input event play!" ++ LF
                 ++ ",Error: boom")].
Proof.
  destruct (sendEvent_validates_and_isolates
              greeterInstance "play" [] (worldOf brokenBound) brokenBound 1
              allTypes eq_refl eq_refl ltac:(discriminate))
    as (evs & Hrun & _ & _ & _ & Hthrows).
  exists evs. split; [exact Hrun|].
  destruct (Hthrows ltac:(cbn; tauto) (ErrorObject boom) eq_refl)
    as (_ & Hline & _).
  apply Hline. cbn. tauto.
Defined.

(** ** The singleton *)

(** C1. The specification has the first call of the entry point return the
    registry for every configuration. On the configuration whose second
    declared name is [we./ ather] the first call sets the module-level
    reference, loads [clock], and then throws the [TypeError] of line 110
    out of the constructor and out of the entry point: no registry is
    returned. The half-built registry stays in [addonInterfaceObj], so the
    next call of the entry point throws the singleton error. *)
Theorem first_construction_can_throw :
  exists w1 (e : JsError) this,
    initAddonInterface demoModules [] 1 plainEmitter 3 alteredConfig freshWorld =
      (w1, Thrown e)
    /\ err_class e = TypeError
    /\ addonInterfaceObj w1 = Some this
    /\ map ab_name (ai_addons this) = ["Clock"]
    /\ installedOn (trace w1) = []
    /\ initAddonInterface demoModules [] 1 plainEmitter 3 demoConfig w1 =
         (w1, Thrown (newAddonError singletonMessage)).
Proof.
  eexists _, _, _. repeat split.
Qed.

(** X1. Once [addonInterfaceObj] is set, every construction attempt, through
    the entry point or through the constructor, throws the singleton
    error and leaves the module state, and with it the registry, its addon
    list, its subscription set and what a dispatch does, as it was. *)
Theorem later_constructions_fail
    (require : Modules) (images : Images) (logger : HostLogger)
    (emitter : Emitter) (ipcMain : IpcMain) (config : Config)
    (w : World) (this : AddonInterface) :
  addonInterfaceObj w = Some this ->
  initAddonInterface require images logger emitter ipcMain config w =
    (w, Thrown (newAddonError singletonMessage))
  /\ AddonInterface_constructor require images logger emitter ipcMain config w =
       (w, Thrown (newAddonError singletonMessage))
  /\ err_class (newAddonError singletonMessage) = AddonError.
Proof.
  intros Hobj. unfold initAddonInterface, AddonInterface_constructor.
  rewrite Hobj. now repeat split.
Qed.

Lemma later_constructions_fail_witness :
  initAddonInterface demoModules [] 2 brokenEmitter 4 alteredConfig demoWorld =
    (demoWorld, Thrown (newAddonError singletonMessage)).
Proof.
  exact (proj1 (later_constructions_fail
                  demoModules [] 2 brokenEmitter 4 alteredConfig
                  demoWorld demoInterface eq_refl)).
Defined.

(** X2. On a fresh module, when every declared name resolves to an entry
    whose [enabled] can be read and neither the modules of the declared
    names nor their code throw [null] or [undefined], the entry point
    returns the registry it created, which is then the value of
    [addonInterfaceObj] and holds the host objects it was given. *)
Theorem first_construction_returns
    (require : Modules) (images : Images) (logger : HostLogger)
    (emitter : Emitter) (ipcMain : IpcMain) (config : Config) (w : World) :
  addonInterfaceObj w = None ->
  forallb (resolves config) (keys (cfg_addons config)) = true ->
  forallb (fun key => tame (require (removeInvalidAddonNameChars key)))
          (keys (cfg_addons config)) = true ->
  exists w' this,
    initAddonInterface require images logger emitter ipcMain config w =
      (w', Returned (Some this))
    /\ addonInterfaceObj w' = Some this
    /\ ai_emitter this = emitter
    /\ ai_ipcMain this = ipcMain
    /\ ai_images this = images.
Proof.
  intros Hfresh Hres Htame.
  destruct (loadAddon_all_return require images logger config _ Hres Htame
              (loadingStarts images logger emitter ipcMain config w)
              (newInterface images logger emitter ipcMain config) eq_refl
              (soundLogger_scoped _ _ _))
    as (more & evs & pushed & Hload).
  assert (Hsound : soundLogger
                     (ai_logger
                        (pushAll more
                           (newInterface images logger emitter ipcMain config)))).
  { eapply sameHost_sound; [apply pushAll_sameHost|apply soundLogger_scoped]. }
  eexists _, (pushAll more (newInterface images logger emitter ipcMain config)).
  unfold initAddonInterface. rewrite Hfresh. unfold bind at 1.
  rewrite (constructor_fresh _ _ _ _ _ _ _ Hfresh).
  rewrite (bind_run _ _ _ _ _ Hload). unfold bind at 1.
  rewrite (initializeListeners_sound ipcMain
             (reached (pushAll more
                         (newInterface images logger emitter ipcMain config))
                      (loadingStarts images logger emitter ipcMain config w)
                      evs pushed)
             _ eq_refl Hsound).
  unfold theInterface. cbn [extend reached addonInterfaceObj].
  split; [reflexivity|]. split; [reflexivity|].
  destruct (pushAll_sameHost more
              (newInterface images logger emitter ipcMain config))
    as (_ & -> & -> & ->).
  now repeat split.
Qed.

(** X2 on the scenario. *)
Lemma first_construction_returns_witness :
  exists w' this,
    initAddonInterface demoModules [] 1 plainEmitter 3 demoConfig freshWorld =
      (w', Returned (Some this))
    /\ addonInterfaceObj w' = Some this
    /\ ai_emitter this = plainEmitter
    /\ ai_ipcMain this = 3
    /\ ai_images this = [].
Proof.
  exact (first_construction_returns
           demoModules [] 1 plainEmitter 3 demoConfig freshWorld
           eq_refl eq_refl eq_refl).
Defined.

(** X27. A construction on a fresh module binds the emitter for good,
    however it ends: afterwards the module holds a registry with the
    emitter the constructor was given, every later initialisation, with
    whatever emitter, throws and leaves the module as it is, and an event
    of the outbound vocabulary that an addon sends is handed to that first
    emitter, once; the call returns when that [send] does. *)
Theorem events_go_to_the_first_emitter
    (require : Modules) (images : Images) (logger : HostLogger)
    (emitter : Emitter) (ipcMain : IpcMain) (config : Config)
    (w w' : World) (c : Completion AddonInterface) :
  addonInterfaceObj w = None ->
  AddonInterface_constructor require images logger emitter ipcMain config w =
    (w', c) ->
  (exists this, addonInterfaceObj w' = Some this /\ ai_emitter this = emitter)
  /\ (forall require2 images2 logger2 emitter2 ipcMain2 config2,
        exists e,
          initAddonInterface require2 images2 logger2 emitter2 ipcMain2 config2
                             w' = (w', Thrown e))
  /\ (forall addon eventName args,
        In eventName validInputEvents ->
        exists evs c',
          sendEvent addon eventName args w' = (extend w' evs, c')
          /\ sentOn evs = [(emitter_id emitter, eventName, args)]
          /\ (send_throws emitter eventName args = None -> c' = Returned tt)).
Proof.
  intros Hfresh Hrun.
  assert (Hthis : exists this,
             addonInterfaceObj w' = Some this /\ ai_emitter this = emitter).
  { destruct (constructor_steps require images logger emitter ipcMain config w
                Hfresh)
      as (more & evs & pushed & _ & _ & _ & [Hctor|(e & Hctor & _ & _)]);
      rewrite Hctor in Hrun; injection Hrun as <- _;
      (eexists; split; [reflexivity|]);
      now destruct (pushAll_sameHost more
                      (newInterface images logger emitter ipcMain config))
        as (_ & -> & _). }
  split; [exact Hthis|]. destruct Hthis as (this & Hobj & Hem). split.
  - intros require2 images2 logger2 emitter2 ipcMain2 config2.
    exists (ErrorObject (newAddonError singletonMessage)).
    unfold initAddonInterface. now rewrite Hobj.
  - intros addon eventName args Hin.
    destruct (sendEvent_run addon eventName args w' this Hobj)
      as (evs & c' & Hsend & Hsent & _ & _ & Hreturns).
    apply includes_In in Hin. rewrite Hin, Hem in Hsent. rewrite Hem in Hreturns.
    exists evs, c'. split; [exact Hsend|]. split; [exact Hsent|].
    intros Hnone. now apply Hreturns.
Qed.

Lemma events_go_to_the_first_emitter_witness :
  exists evs c',
    sendEvent greeterLoaded "next" [] demoWorld = (extend demoWorld evs, c')
    /\ sentOn evs = [(emitter_id plainEmitter, "next", [])]
    /\ (send_throws plainEmitter "next" [] = None -> c' = Returned tt).
Proof.
  exact (proj2 (proj2 (events_go_to_the_first_emitter
                         demoModules [] 1 plainEmitter 3 demoConfig
                         freshWorld demoWorld (Returned demoInterface)
                         eq_refl eq_refl))
               greeterLoaded "next" [] ltac:(cbn; tauto)).
Defined.

(** What a returning constructor call did. *)
Lemma constructor_returned (require : Modules) (images : Images)
    (logger : HostLogger) (emitter : Emitter) (ipcMain : IpcMain)
    (config : Config) (w w' : World) (this : AddonInterface) :
  AddonInterface_constructor require images logger emitter ipcMain config w =
    (w', Returned this) ->
  exists more evs pushed,
    addonInterfaceObj w = None
    /\ Forall named more
    /\ length more <= length (filter (eligible config) (keys (cfg_addons config)))
    /\ installedOn evs = []
    /\ this = pushAll more (newInterface images logger emitter ipcMain config)
    /\ w' = reached this w
              (evs ++ routerTrace
                        (scopedLogger "AddonInterface" logger (cfg_logging config))
                        ipcMain (ai_listeners this))
              pushed.
Proof.
  intros Hrun.
  assert (Hfresh : addonInterfaceObj w = None).
  { unfold AddonInterface_constructor in Hrun.
    destruct (addonInterfaceObj w); [discriminate|reflexivity]. }
  destruct (constructor_steps require images logger emitter ipcMain config w
              Hfresh)
    as (more & evs & pushed & Hnamed & Hlen & Hevs & [Hctor|(e & Hctor & _)]);
    rewrite Hctor in Hrun; [|discriminate].
  injection Hrun as <- <-. exists more, evs, pushed. now repeat split.
Qed.

Lemma newInterface_subscribes (images : Images) (logger : HostLogger)
    (emitter : Emitter) (ipcMain : IpcMain) (config : Config) :
  subscribesToItsAddons (newInterface images logger emitter ipcMain config).
Proof.
  split; [constructor|]. intros n. cbn. split; [intros []|].
  intros (a & [] & _).
Qed.

(** ** The loader *)

(** C3. The specification has every construction failure other than the
    type mismatch caught at the loader boundary, so that one addon never
    aborts the loading. [Nuller], a class that extends [AddonBase], runs
    [throw null] in its constructor: line 139 passes the value on, the
    [catch] of line 166 receives it, and building the arguments of the log
    call of line 167 reads [error.stack] of [null]. That [TypeError] leaves
    the [catch], the loop and the constructor: the entry point throws,
    nothing is logged for [nuller], and [greeter], declared after it, is
    never tried. With [broken], whose constructor throws an [Error], in
    the same place both other addons are loaded. *)
Theorem thrown_null_aborts_the_loading :
  keys (cfg_addons nullerConfig) = ["clock"; "nuller"; "greeter"]
  /\ constructAddon nullerClass (newAddonConfig [] 1 nullerConfig []) "nuller"
                    startedWorld =
       (startedWorld, Thrown (Nullish Null))
  /\ (exists w1 this,
        initAddonInterface demoModules [] 1 plainEmitter 3 nullerConfig
                           freshWorld =
          (w1, Thrown (newTypeError
                         "Cannot read properties of null (reading 'stack')"))
        /\ addonInterfaceObj w1 = Some this
        /\ map ab_name (ai_addons this) = ["Clock"]
        /\ trace w1 =
             [HostLog 1 "info" "[AddonInterface] Load addons...";
              EmitterSend 7 "next" [];
              HostLog 1 "info"
                      "[AddonInterface] Successfully loaded addon 'clock'."])
  /\ keys (cfg_addons demoConfig) = ["clock"; "broken"; "greeter"]
  /\ map ab_name (ai_addons demoInterface) = ["Clock"; "greeter"].
Proof.
  repeat split. eexists _, _. repeat split.
Qed.

(** X29. A construction failure that is no type mismatch and no thrown
    [null] or [undefined] is not retried: it reaches the [catch] of line
    166, the step returns, the registry is as it was, the line with the
    addon's name and the stack of the error goes to the host logger when
    [error] is among the enabled types, and [forEach] goes on with the
    names that follow. *)
Theorem construction_failure_skips_one_addon
    (require : Modules) (images : Images) (logger : HostLogger)
    (config : Config) (key : string) (rest : list string)
    (w w1 : World) (this : AddonInterface) (fields : Fields)
    (f : ExportedFunction) (e : Raised) (addonConfig1 : AddonConfig) :
  let addonName := removeInvalidAddonNameChars key in
  let line :=
    HostLog logger "error"
            ("[AddonInterface] Error initialize addon '" ++ addonName
             ++ "'! Addon was disabled." ++ LF ++ ","
             ++ joinedArg (stackText e)) in
  let w' := extend w1 (if includes (cfg_logging config) "error"
                       then [line] else []) in
  addonInterfaceObj w = Some this ->
  ai_logger this = scopedLogger "AddonInterface" logger (cfg_logging config) ->
  getMember (cfg_addons config) addonName = Own (CfgObject fields) ->
  enabledIsFalse fields = false ->
  String.eqb addonName "addonInterface" = false ->
  requireAddon require addonName w = (w, Returned (ExpFunction f)) ->
  newAddonClass f (newAddonConfig images logger config fields) w =
    (w1, (Thrown e, addonConfig1)) ->
  instanceOfTypeError e = false ->
  (forall n, e <> Nullish n) ->
  loadAddon require images logger config key w = (w', Returned tt)
  /\ addonInterfaceObj w' = Some this
  /\ forEach (loadAddon require images logger config) (key :: rest) w =
       forEach (loadAddon require images logger config) rest w'.
Proof.
  intros addonName line w' Hobj Hlogger Hget Hen Hres Hreq Hnew Hte Hcivil.
  assert (Hobj1 : addonInterfaceObj w1 = Some this).
  { destruct (newAddonClass_quiet f (newAddonConfig images logger config fields) w)
      as (evs & pushed & c & cfg1 & Hq & _).
    rewrite Hq in Hnew. injection Hnew as <- _ _. exact Hobj. }
  assert (Hstep : loadAddon require images logger config key w = (w', Returned tt)).
  { unfold loadAddon. fold addonName. rewrite Hget.
    unfold loadEntry. rewrite Hen, Hres.
    unfold tryCatch, loadAttempt, bind at 1. rewrite Hreq.
    cbn [installAddon]. unfold bind at 1, constructAddon. rewrite Hnew, Hte.
    assert (Hstack : stackOf e w1 = (w1, Returned (stackText e))).
    { destruct e as [err|n|]; try reflexivity. now destruct (Hcivil n). }
    rewrite (bind_run _ _ _ _ _ Hstack).
    rewrite (thisLog_sound _ _ _ _ Hobj1);
      [|rewrite Hlogger; apply soundLogger_scoped].
    rewrite Hlogger. unfold w', line, classLog.
    cbn [scopedLogger cl_logger cl_enabledTypes cl_name].
    destruct (includes (cfg_logging config) "error"); [|reflexivity].
    cbn [joinComma]. now rewrite !append_assoc. }
  split; [exact Hstep|]. split; [exact Hobj1|].
  cbn [forEach]. unfold bind. now rewrite Hstep.
Qed.

(** X29 on the class [Broken]. *)
Lemma construction_failure_skips_one_addon_witness :
  loadAddon demoModules [] 1 demoConfig "broken" startedWorld =
    (extend startedWorld
       [HostLog 1 "error"
          ("[AddonInterface] Error initialize addon 'broken'! Addon was disabled."
           ++ LF ++ ",Error: boom")],
     Returned tt).
Proof.
  exact (proj1 (construction_failure_skips_one_addon
                  demoModules [] 1 demoConfig "broken" []
                  startedWorld startedWorld emptyInterface [] brokenClass
                  (ErrorObject boom) _
                  eq_refl eq_refl eq_refl eq_refl eq_refl eq_refl eq_refl
                  eq_refl ltac:(discriminate))).
Defined.

(** C4. The specification has the loader, after a type mismatch of the
    class construction, construct a base instance and call the exported
    unit with it. [Clumsy] is a class that extends [AddonBase] and whose
    constructor runs into a [TypeError] of its own after [super]: line 139
    takes the fallback, but the class attempt has already run the base
    constructor on the one [addonConfig] object, which deleted its
    [logger] (line 405). The base constructor of the fallback throws at
    line 63, no instance is built, the unit is never called, and the log
    line names that error instead of the addon's. With an entry that has
    a [logger] key of its own, line 407 puts a logger back, the base
    constructor passes, and calling the class throws. *)
Theorem type_error_after_super_masks_the_cause :
  newAddonClass clumsyClass (newAddonConfig [] 1 clumsyConfig []) startedWorld =
    (startedWorld,
     (Thrown clumsyError, prepareConfig (newAddonConfig [] 1 clumsyConfig [])))
  /\ instanceOfTypeError clumsyError = true
  /\ getOwn (ac_props (prepareConfig (newAddonConfig [] 1 clumsyConfig [])))
            "logger" = None
  /\ AddonBase_constructor (prepareConfig (newAddonConfig [] 1 clumsyConfig []))
                           (Some "Clumsy") EmptyString startedWorld =
       (startedWorld,
        Thrown (newTypeError "Cannot read properties of undefined (reading 'info')"))
  /\ constructAddon clumsyClass (newAddonConfig [] 1 clumsyConfig []) "clumsy"
                    startedWorld =
       (startedWorld,
        Thrown (newTypeError "Cannot read properties of undefined (reading 'info')"))
  /\ loadAddon demoModules [] 1 clumsyConfig "clumsy" startedWorld =
       (extend startedWorld
          [HostLog 1 "error"
             ("[AddonInterface] Error initialize addon 'clumsy'! Addon was disabled."
              ++ LF
              ++ ",TypeError: Cannot read properties of undefined (reading 'info')")],
        Returned tt)
  /\ constructAddon clumsyClass
                    (newAddonConfig [] 1 clumsyLoggedConfig
                                    [("logger", PString "verbose")])
                    "clumsy" startedWorld =
       (startedWorld, Thrown (notCallable "Clumsy")).
Proof. repeat split. Qed.

Lemma orElse_empty (a : string) : orElse a EmptyString = a.
Proof. unfold orElse. now destruct (String.eqb_spec a EmptyString). Qed.

(** The fallback on the object the loader built. *)
Lemma newFunctionAddon_intact (f : ExportedFunction) (images : Images)
    (logger : HostLogger) (config : Config) (fields : Fields)
    (addonName : string) (w : World) (this : AddonInterface) :
  addonInterfaceObj w = Some this ->
  newFunctionAddon f (newAddonConfig images logger config fields) addonName w =
    (self <- callUnit f
               (baseInstance (orElse (fn_name f) addonName)
                  (scopedLogger ("addon " ++ orElse (fn_name f) addonName)
                                logger (cfg_logging config))
                  (newAddonConfig images logger config fields)) ;;
     ret (Some self)) w.
Proof.
  intros Hobj. unfold newFunctionAddon, bind at 1, AddonBase_constructor.
  rewrite Hobj, orElse_empty. reflexivity.
Qed.

(** X31. An arrow function, and a plain function whose body starts with a
    call of [registerListener] or [sendEvent] on its argument, are loaded
    through the fallback: [new] fails with a [TypeError] before anything
    happened, a base instance is built on the untouched configuration
    object, named after the function, or after the addon when the function
    has no name, with a scoped logger over the host logger, and the body
    runs once, on that instance. When the body returns, the instance is
    pushed and the success line is logged. *)
Theorem function_addons_load_through_the_fallback
    (images : Images) (logger : HostLogger) (config : Config)
    (fields : Fields) (f : ExportedFunction) (addonName : string)
    (w : World) (this : AddonInterface) :
  let addonConfig := newAddonConfig images logger config fields in
  let name := orElse (fn_name f) addonName in
  let instance :=
    baseInstance name
                 (scopedLogger ("addon " ++ name) logger (cfg_logging config))
                 addonConfig in
  addonInterfaceObj w = Some this ->
  ai_logger this = scopedLogger "AddonInterface" logger (cfg_logging config) ->
  fn_kind f = ArrowFunction
  \/ (fn_kind f = PlainFunction /\ callsAMethodFirst (fn_body f) = true) ->
  constructAddon f addonConfig addonName w =
    (self <- runOps (fn_body f) instance ;; ret (Some self)) w
  /\ forall w2 self,
       runOps (fn_body f) instance w = (w2, Returned self) ->
       installAddon (ExpFunction f) addonConfig addonName w =
         (extend
            {| addonInterfaceObj := Some (pushAddon self this);
               trace := trace w2;
               arrayPrototype := arrayPrototype w2 |}
            (if includes (cfg_logging config) "info"
             then [HostLog logger "info"
                     ("[AddonInterface] Successfully loaded addon '"
                      ++ addonName ++ "'.")]
             else []),
          Returned tt).
Proof.
  intros addonConfig name instance Hobj Hlogger Hkind.
  assert (Hconstruct :
            constructAddon f addonConfig addonName w =
              (self <- runOps (fn_body f) instance ;; ret (Some self)) w).
  { unfold constructAddon, newAddonClass.
    destruct Hkind as [Hkind|[Hkind Hfirst]]; rewrite Hkind.
    - cbn [instanceOfTypeError isTypeError newTypeError err_class].
      unfold addonConfig. rewrite (newFunctionAddon_intact _ _ _ _ _ _ _ _ Hobj).
      unfold callUnit. now rewrite Hkind.
    - destruct (fn_body f) as [|[names cbs|eventName args|level text|e] rest] eqn:Hbody;
        try discriminate; cbn [runOpsOnConfig]; unfold throw;
        cbn [instanceOfTypeError isTypeError notAFunction newTypeError err_class];
        unfold addonConfig; rewrite (newFunctionAddon_intact _ _ _ _ _ _ _ _ Hobj);
        unfold callUnit; now rewrite Hkind, Hbody. }
  split; [exact Hconstruct|].
  intros w2 self Hbody. cbn [installAddon]. unfold bind at 1.
  rewrite Hconstruct. unfold bind at 1. rewrite Hbody. unfold ret at 1.
  assert (Hobj2 : addonInterfaceObj w2 = Some this).
  { destruct (quiet_runOps (fn_body f) instance w)
      as (evs & pushed & c & Hq & _).
    rewrite Hq in Hbody. injection Hbody as <- _. exact Hobj. }
  unfold bind at 1, updateInterface at 1. rewrite Hobj2. cbn [option_map].
  rewrite (thisLog_sound _ _
             {| addonInterfaceObj := Some (pushAddon self this);
                trace := trace w2; arrayPrototype := arrayPrototype w2 |}
             (pushAddon self this) eq_refl);
    [|cbn [pushAddon ai_logger]; rewrite Hlogger; apply soundLogger_scoped].
  cbn [pushAddon ai_logger]. rewrite Hlogger. unfold classLog.
  cbn [scopedLogger cl_logger cl_enabledTypes cl_name].
  destruct (includes (cfg_logging config) "info"); reflexivity.
Qed.

(** X31 on the function [greeter]. *)
Lemma function_addons_load_through_the_fallback_witness :
  installAddon (ExpFunction greeterFunction)
               (newAddonConfig [] 1 demoConfig [("volume", PString "3")])
               "greeter" startedWorld =
    ({| addonInterfaceObj :=
          Some {| ai_addons := [greeterLoaded];
                  ai_emitter := plainEmitter;
                  ai_ipcMain := 3;
                  ai_images := [];
                  ai_listeners := ["newImage"; "tea-time"];
                  ai_logger := scopedLogger "AddonInterface" 1 allTypes |};
        trace :=
          [EmitterSend 7 "play" [];
           HostLog 1 "warn"
             "[addon greeter] sendEvent: Ignored invalid eventName 'explode'!";
           HostLog 1 "info" "[AddonInterface] Successfully loaded addon 'greeter'."];
        arrayPrototype := []
     |}, Returned tt).
Proof.
  refine (proj2 (function_addons_load_through_the_fallback
                   [] 1 demoConfig [("volume", PString "3")] greeterFunction
                   "greeter" startedWorld emptyInterface eq_refl eq_refl
                   (or_intror (conj eq_refl eq_refl)))
                _ greeterLoaded eq_refl).
Defined.

(** A loop that reaches an element on which the body throws does not
    return. *)
Lemma forEach_aborts {S A} (f : A -> Eff S unit) (l : list A) (x : A) :
  In x l ->
  (forall s s', f x s <> (s', Returned tt)) ->
  forall s s', forEach f l s <> (s', Returned tt).
Proof.
  intros Hin Hthrows.
  induction l as [|y rest IH]; [contradiction|].
  intros s s'. cbn [forEach]. unfold bind.
  destruct (f y s) as [s1 [[]|e|code]] eqn:Hrun; try discriminate.
  destruct Hin as [->|Hin]; [now apply Hthrows in Hrun|]. now apply IH.
Qed.

Lemma getMember_missing (o : list (string * ConfigValue)) (k : string) :
  getOwn o k = None -> inheritedName k = false -> getMember o k = Missing.
Proof.
  unfold getMember, inheritedName. intros -> H.
  apply orb_false_elim in H as [-> ->]. reflexivity.
Qed.

(** C10. A declared name that the sanitizer changes, and whose sanitized
    form is neither a declared name nor a name that every object inherits:
    the lookup of line 110 yields [undefined], reading [enabled] throws a
    [TypeError] outside the [try] of line 123, and the constructor throws
    with the registry left in [addonInterfaceObj]. *)
Theorem altered_name_aborts_construction
    (require : Modules) (images : Images) (logger : HostLogger)
    (emitter : Emitter) (ipcMain : IpcMain) (config : Config)
    (key : string) (w : World) :
  addonInterfaceObj w = None ->
  In key (keys (cfg_addons config)) ->
  removeInvalidAddonNameChars key <> key ->
  getOwn (cfg_addons config) (removeInvalidAddonNameChars key) = None ->
  inheritedName (removeInvalidAddonNameChars key) = false ->
  getMember (cfg_addons config) (removeInvalidAddonNameChars key) = Missing
  /\ (forall w1,
        loadAddon require images logger config key w1 =
          (w1, Thrown (newTypeError
                         "Cannot read properties of undefined (reading 'enabled')")))
  /\ exists w' (e : JsError) this,
       AddonInterface_constructor require images logger emitter ipcMain config w =
         (w', Thrown e)
       /\ isTypeError e = true
       /\ addonInterfaceObj w' = Some this.
Proof.
  intros Hfresh Hin Hchanged Hown Hinherited.
  pose proof (getMember_missing _ _ Hown Hinherited) as Hmissing.
  assert (Hstep : forall w1,
             loadAddon require images logger config key w1 =
               (w1, Thrown (newTypeError
                  "Cannot read properties of undefined (reading 'enabled')"))).
  { intros w1. unfold loadAddon. now rewrite Hmissing. }
  split; [exact Hmissing|]. split; [exact Hstep|].
  rewrite (constructor_fresh _ _ _ _ _ _ _ Hfresh).
  destruct (loadAddon_steps require images logger config (keys (cfg_addons config))
              (loadingStarts images logger emitter ipcMain config w)
              (newInterface images logger emitter ipcMain config) eq_refl)
    as (more & evs & pushed & c & Hrun & _ & Hc & _).
  rewrite (bind_run _ _ _ _ _ Hrun).
  destruct c as [[]|[err|n|]|code]; try discriminate; try contradiction.
  - exfalso. revert Hrun. apply forEach_aborts with (x := key); [exact Hin|].
    intros s s'. rewrite Hstep. discriminate.
  - eexists _, err, _. split; [reflexivity|]. split; [exact Hc|reflexivity].
Qed.

(** C10 on the name [we./ ather]. *)
Lemma altered_name_aborts_construction_witness :
  removeInvalidAddonNameChars "we./ ather" = "weather"
  /\ exists w' (e : JsError) this,
       AddonInterface_constructor demoModules [] 1 plainEmitter 3
                                  alteredConfig freshWorld = (w', Thrown e)
       /\ isTypeError e = true
       /\ addonInterfaceObj w' = Some this.
Proof.
  split; [reflexivity|].
  apply (altered_name_aborts_construction
           demoModules [] 1 plainEmitter 3 alteredConfig "we./ ather" freshWorld).
  - reflexivity.
  - cbn. tauto.
  - discriminate.
  - reflexivity.
  - reflexivity.
Defined.

(** The claim as the specification words it, for every name the sanitizer
    changes, fails on two configurations. In the first the sanitized form
    of [cl./ ock] is the declared name [clock]: the lookup finds that
    entry and the constructor returns. In the second the sanitized form of
    [to./ String] is [toString], which the lookup finds on
    [Object.prototype]: a function has no [enabled] and is no object, the
    name is passed over and the constructor returns. *)
Lemma altered_name_can_hit_another_entry :
  removeInvalidAddonNameChars "cl./ ock" = "clock"
  /\ String.eqb (removeInvalidAddonNameChars "cl./ ock") "cl./ ock" = false
  /\ getMember (cfg_addons collidingConfig)
               (removeInvalidAddonNameChars "cl./ ock")
     = Own (CfgObject [("enabled", PBool true)])
  /\ (exists w' this,
        AddonInterface_constructor demoModules [] 1 plainEmitter 3
                                   collidingConfig freshWorld = (w', Returned this)
        /\ map ab_name (ai_addons this) = ["Clock"; "Clock"])
  /\ removeInvalidAddonNameChars "to./ String" = "toString"
  /\ String.eqb (removeInvalidAddonNameChars "to./ String") "to./ String" = false
  /\ getMember (cfg_addons inheritingConfig)
               (removeInvalidAddonNameChars "to./ String")
     = InheritedMethod
  /\ (exists w' this,
        AddonInterface_constructor demoModules [] 1 plainEmitter 3
                                   inheritingConfig freshWorld = (w', Returned this)
        /\ ai_addons this = []).
Proof.
  repeat split; eexists _, _; split; reflexivity.
Qed.

(** X3. The loading pass never takes an addon off the loaded list, however
    the pass ends. *)
Theorem loading_only_appends
    (require : Modules) (images : Images) (logger : HostLogger)
    (config : Config) (names : list string) (w w' : World)
    (this : AddonInterface) (c : Completion unit) :
  addonInterfaceObj w = Some this ->
  forEach (loadAddon require images logger config) names w = (w', c) ->
  exists this' more,
    addonInterfaceObj w' = Some this'
    /\ ai_addons this' = (ai_addons this ++ more)%list.
Proof.
  intros Hobj Hrun.
  destruct (loadAddon_steps require images logger config names w this Hobj)
    as (more & evs & pushed & c' & Heq & _).
  rewrite Heq in Hrun. injection Hrun as <- _.
  exists (pushAll more this), more. split; [reflexivity|apply pushAll_addons].
Qed.

(** X3 on a registry that holds two addons already. *)
Lemma loading_only_appends_witness :
  exists this' more,
    addonInterfaceObj
      (fst (forEach (loadAddon demoModules [] 1 demoConfig)
                    ["broken"; "greeter"; "missing"]
                    (worldOf twoAddons)))
    = Some this'
    /\ ai_addons this' = (ai_addons twoAddons ++ more)%list.
Proof.
  exact (loading_only_appends
           demoModules [] 1 demoConfig ["broken"; "greeter"; "missing"]
           (worldOf twoAddons) _
           twoAddons _ eq_refl (surjective_pairing _)).
Defined.

(** X7. Every addon of the registry the constructor returns logs under
    its own name: the prefix of its scoped logger is [addon] followed by
    the addon's name. *)
Theorem loaded_addons_are_named
    (require : Modules) (images : Images) (logger : HostLogger)
    (emitter : Emitter) (ipcMain : IpcMain) (config : Config)
    (w w' : World) (this : AddonInterface) :
  AddonInterface_constructor require images logger emitter ipcMain config w =
    (w', Returned this) ->
  Forall named (ai_addons this).
Proof.
  intros Hrun.
  destruct (constructor_returned _ _ _ _ _ _ _ _ _ Hrun)
    as (more & evs & pushed & _ & Hnamed & _ & _ & -> & _).
  rewrite pushAll_addons. exact Hnamed.
Qed.

(** X7 on the scenario. *)
Lemma loaded_addons_are_named_witness :
  Forall named (ai_addons demoInterface).
Proof.
  exact (loaded_addons_are_named demoModules [] 1 plainEmitter 3 demoConfig
           freshWorld demoWorld demoInterface eq_refl).
Defined.

(** X8. Whatever the module of a declared name does short of throwing
    [null] or [undefined] (its [require] throws, it exports no function,
    its construction fails as a class or in the fallback, its instance is
    no [AddonBase]), the loader's step for that name returns normally,
    installs nothing and only ever appends to the loaded list, as soon as
    the lookup of line 110 finds something whose [enabled] can be read and
    the registry's logger is the one the constructor built. *)
Theorem addon_failures_never_abort_loading
    (require : Modules) (images : Images) (logger : HostLogger)
    (config : Config) (key : string) (w : World) (this : AddonInterface) :
  addonInterfaceObj w = Some this ->
  ai_logger this = scopedLogger "AddonInterface" logger (cfg_logging config) ->
  resolves config key = true ->
  tame (require (removeInvalidAddonNameChars key)) = true ->
  exists this' evs pushed,
    loadAddon require images logger config key w =
      (reached this' w evs pushed, Returned tt)
    /\ installedOn evs = []
    /\ exists more, ai_addons this' = (ai_addons this ++ more)%list.
Proof.
  intros Hobj Hlogger Hres Htame.
  destruct (loadAddon_returns require images logger config key w this Hobj)
    as (more & evs & pushed & Hrun & Hevs & _); auto.
  { rewrite Hlogger. apply soundLogger_scoped. }
  exists (pushAll more this), evs, pushed.
  split; [exact Hrun|]. split; [exact Hevs|].
  exists more. apply pushAll_addons.
Qed.

(** X8 on the class [Clumsy]. *)
Lemma addon_failures_never_abort_loading_witness :
  exists this' evs pushed,
    loadAddon demoModules [] 1 clumsyConfig "clumsy" startedWorld =
      (reached this' startedWorld evs pushed, Returned tt)
    /\ installedOn evs = []
    /\ exists more, ai_addons this' = (ai_addons emptyInterface ++ more)%list.
Proof.
  exact (addon_failures_never_abort_loading demoModules [] 1 clumsyConfig "clumsy"
           startedWorld emptyInterface eq_refl eq_refl eq_refl eq_refl).
Defined.

(** ** Which names are loaded *)

(** X15. A declared name that is not eligible never reaches its module:
    the lookup of its sanitized form finds nothing, [null], a primitive, a
    method that every object inherits, or an object that is disabled or
    stands under the reserved name [addonInterface]. What the loader does
    for such a name is the same whatever the addon folders hold, and it
    leaves the registry and the emitter alone. *)
Theorem ineligible_names_never_reach_the_module
    (images : Images) (logger : HostLogger) (config : Config) (key : string) :
  eligible config key = false ->
  (forall (require1 require2 : Modules) (w : World),
      loadAddon require1 images logger config key w =
        loadAddon require2 images logger config key w)
  /\ (forall (require : Modules) (w w' : World) (this : AddonInterface)
             (c : Completion unit),
        addonInterfaceObj w = Some this ->
        loadAddon require images logger config key w = (w', c) ->
        addonInterfaceObj w' = Some this
        /\ sentOn (trace w') = sentOn (trace w)).
Proof.
  intros Hel. unfold eligible in Hel.
  assert (Hcases :
            forall require w,
              loadAddon require images logger config key w =
                match getMember (cfg_addons config)
                                (removeInvalidAddonNameChars key) with
                | Missing =>
                    (w, Thrown (newTypeError
                       "Cannot read properties of undefined (reading 'enabled')"))
                | Own CfgNullish =>
                    (w, Thrown (newTypeError
                       "Cannot read properties of null (reading 'enabled')"))
                | Own (CfgObject fields) =>
                    if enabledIsFalse fields
                    then thisLog "warn"
                           ["Addon " ++ removeInvalidAddonNameChars key
                            ++ " disabled in config."] w
                    else (w, Returned tt)
                | _ => (w, Returned tt)
                end).
  { intros require w. unfold loadAddon.
    destruct (getMember (cfg_addons config) (removeInvalidAddonNameChars key))
      as [[|p|fields]| | |]; try reflexivity; try discriminate.
    unfold loadEntry.
    destruct (enabledIsFalse fields); [reflexivity|].
    cbn [negb andb] in Hel. apply negb_false_iff in Hel. now rewrite Hel. }
  split.
  - intros require1 require2 w. now rewrite !Hcases.
  - intros require w w' this c Hobj. rewrite Hcases.
    destruct (getMember (cfg_addons config) (removeInvalidAddonNameChars key))
      as [[|p|fields]| | |];
      try (intros H; injection H as <- _; now split).
    destruct (enabledIsFalse fields);
      [|intros H; injection H as <- _; now split].
    destruct (thisLog_run "warn"
                ["Addon " ++ removeInvalidAddonNameChars key
                 ++ " disabled in config."] w this Hobj)
      as (evs & c' & -> & _ & Hsent & _).
    intros H. injection H as <- _.
    split; [exact Hobj|]. unfold extend. cbn [trace].
    now rewrite sentOn_app, Hsent, app_nil_r.
Qed.

(** X15 on a disabled entry. *)
Lemma ineligible_names_never_reach_the_module_witness :
  loadAddon demoModules [] 1
            {| cfg_logging := allTypes;
               cfg_addons := [("clock", CfgObject [("enabled", PBool false)])] |}
            "clock" startedWorld =
    loadAddon (fun _ => RequireThrows (Nullish Null)) [] 1
              {| cfg_logging := allTypes;
                 cfg_addons := [("clock", CfgObject [("enabled", PBool false)])] |}
              "clock" startedWorld.
Proof.
  exact (proj1 (ineligible_names_never_reach_the_module [] 1
                  {| cfg_logging := allTypes;
                     cfg_addons :=
                       [("clock", CfgObject [("enabled", PBool false)])] |}
                  "clock" eq_refl)
               demoModules (fun _ => RequireThrows (Nullish Null)) startedWorld).
Defined.

(** X16. A construction on a fresh module sets [addonInterfaceObj] however
    it ends and loads at most one instance per eligible declared name: the
    loaded list is never longer than the list of declared names whose
    sanitized form the lookup resolves to an object that is not disabled,
    the reserved name apart. *)
Theorem loaded_addons_are_eligible_names
    (require : Modules) (images : Images) (logger : HostLogger)
    (emitter : Emitter) (ipcMain : IpcMain) (config : Config)
    (w w' : World) (c : Completion AddonInterface) :
  addonInterfaceObj w = None ->
  AddonInterface_constructor require images logger emitter ipcMain config w =
    (w', c) ->
  exists this,
    addonInterfaceObj w' = Some this
    /\ (length (ai_addons this)
        <= length (filter (eligible config) (keys (cfg_addons config))))%nat
    /\ (forall returned, c = Returned returned -> returned = this).
Proof.
  intros Hfresh Hrun.
  destruct (constructor_steps require images logger emitter ipcMain config w
              Hfresh)
    as (more & evs & pushed & _ & Hlen & _ & [Hctor|(e & Hctor & _)]);
    rewrite Hctor in Hrun; injection Hrun as <- <-;
    (eexists; split; [reflexivity|]);
    rewrite pushAll_addons; cbn [newInterface ai_addons app];
    (split; [exact Hlen|]).
  - now intros returned [= <-].
  - discriminate.
Qed.

(** X16 on the scenario: three eligible names, two instances (the module of
    the third throws). *)
Lemma loaded_addons_are_eligible_names_witness :
  exists this,
    addonInterfaceObj demoWorld = Some this
    /\ (length (ai_addons this)
        <= length (filter (eligible demoConfig) (keys (cfg_addons demoConfig))))%nat
    /\ (forall returned, Returned demoInterface = Returned returned ->
                         returned = this).
Proof.
  exact (loaded_addons_are_eligible_names
           demoModules [] 1 plainEmitter 3 demoConfig
           freshWorld demoWorld (Returned demoInterface) eq_refl eq_refl).
Defined.

(** ** The router *)

Lemma In_validListenEvents_dec (eventName : string) :
  {In eventName validListenEvents} + {~ In eventName validListenEvents}.
Proof. apply in_dec, string_dec. Qed.




(** X14. In the registry the constructor returns, the subscription set
    holds no name twice and holds exactly the names for which some loaded
    addon registered a listener during its construction; so an event the
    dispatcher turns away as not subscribed is one no loaded addon had
    callbacks for. *)
Theorem subscription_set_is_the_union
    (require : Modules) (images : Images) (logger : HostLogger)
    (emitter : Emitter) (ipcMain : IpcMain) (config : Config)
    (w w' : World) (this : AddonInterface) :
  AddonInterface_constructor require images logger emitter ipcMain config w =
    (w', Returned this) ->
  NoDup (ai_listeners this)
  /\ (forall eventName,
        In eventName (ai_listeners this)
        <-> exists addon,
              In addon (ai_addons this)
              /\ In eventName (keys (ab_listeners addon)))
  /\ (forall eventName addon callbacks,
        In addon (ai_addons this) ->
        getOwn (ab_listeners addon) eventName = Some callbacks ->
        includes (ai_listeners this) eventName = true).
Proof.
  intros Hrun.
  destruct (constructor_returned _ _ _ _ _ _ _ _ _ Hrun)
    as (more & evs & pushed & _ & _ & _ & _ & -> & _).
  destruct (pushAll_subscribes more _
              (newInterface_subscribes images logger emitter ipcMain config))
    as [Hnd Hiff].
  split; [exact Hnd|]. split; [exact Hiff|].
  intros eventName addon callbacks Hin Hget.
  apply includes_In, Hiff. exists addon. split; [exact Hin|].
  now apply (getOwn_In_keys _ _ callbacks).
Qed.

(** X14 on the scenario. *)
Lemma subscription_set_is_the_union_witness :
  NoDup (ai_listeners demoInterface)
  /\ includes (ai_listeners demoInterface) "tea-time" = true.
Proof.
  destruct (subscription_set_is_the_union
              demoModules [] 1 plainEmitter 3 demoConfig
              freshWorld demoWorld demoInterface eq_refl) as (Hnd & _ & _).
  split; [exact Hnd|reflexivity].
Defined.

(** X17. When the constructor returns the registry, the handlers it
    installed on [ipcMain] hold no event name twice, however many addons
    listen to the name, and every name of the inbound vocabulary for which
    a loaded addon registered callbacks has its handler: an event of that
    name reaches the dispatcher once. *)
Theorem every_subscribed_event_gets_one_handler
    (require : Modules) (images : Images) (logger : HostLogger)
    (emitter : Emitter) (ipcMain : IpcMain) (config : Config)
    (w w' : World) (this : AddonInterface) :
  AddonInterface_constructor require images logger emitter ipcMain config w =
    (w', Returned this) ->
  exists installed,
    installedOn (trace w') = (installedOn (trace w) ++ installed)%list
    /\ NoDup installed
    /\ (forall addon eventName callbacks,
          In addon (ai_addons this) ->
          getOwn (ab_listeners addon) eventName = Some callbacks ->
          In eventName validListenEvents ->
          In (ipcMain, eventName) installed).
Proof.
  intros Hrun.
  destruct (constructor_returned _ _ _ _ _ _ _ _ _ Hrun)
    as (more & evs & pushed & _ & _ & _ & Hevs & Hthis & ->).
  destruct (pushAll_subscribes more _
              (newInterface_subscribes images logger emitter ipcMain config))
    as [Hnd Hiff].
  rewrite <- Hthis in Hnd, Hiff.
  exists (map (pair ipcMain)
              (filter (includes validListenEvents) (ai_listeners this))).
  split; [|split].
  - cbn [reached trace].
    now rewrite !installedOn_app, Hevs, installedOn_routerTrace.
  - now apply NoDup_installed.
  - intros addon eventName callbacks Hin Hget Hvalid.
    apply in_map, filter_In. split; [|now apply includes_In].
    apply Hiff. exists addon. split; [exact Hin|].
    now apply (getOwn_In_keys _ _ callbacks).
Qed.

(** X17 on the scenario. *)
Lemma every_subscribed_event_gets_one_handler_witness :
  exists installed,
    installedOn (trace demoWorld) = (installedOn (trace freshWorld) ++ installed)%list
    /\ NoDup installed
    /\ (forall addon eventName callbacks,
          In addon (ai_addons demoInterface) ->
          getOwn (ab_listeners addon) eventName = Some callbacks ->
          In eventName validListenEvents ->
          In (3, eventName) installed).
Proof.
  exact (every_subscribed_event_gets_one_handler
           demoModules [] 1 plainEmitter 3 demoConfig
           freshWorld demoWorld demoInterface eq_refl).
Defined.

(** ** The dispatcher *)

Lemma runCallbacks_run (callbacks : list Callback) (args : list string) :
  forall w,
    runCallbacks callbacks args w =
      (extend w (callEvents (calledOf callbacks args) args),
       match firstThrown callbacks args with
       | Some e => Thrown e
       | None => Returned tt
       end).
Proof.
  induction callbacks as [|callback rest IH]; intros w;
    cbn [runCallbacks calledOf firstThrown callEvents map].
  - unfold ret. now rewrite extend_nil.
  - unfold bind, record.
    destruct (cb_run callback args) as [e|]; [reflexivity|].
    rewrite IH, extend_extend. reflexivity.
Qed.

(** One batch, when what it throws has a [stack] to read. *)
Lemma runBatch_run (this : AddonInterface) (eventName : string)
    (args : list string) (addon : AddonBase) (callbacks : list Callback)
    (w : World) :
  soundLogger (ai_logger this) ->
  throwsNoNullish callbacks args = true ->
  runBatch this eventName args addon callbacks w =
    (extend w
       (List.app
          (callEvents (calledOf callbacks args) args)
          match firstThrown callbacks args with
          | None => []
          | Some e =>
              classLog (ai_logger this) "error"
                       ["Error execute callback for addon " ++ ab_name addon
                        ++ " event " ++ eventName ++ "!" ++ LF;
                        joinedArg (stackText e)]
          end),
     Returned tt).
Proof.
  intros Hsound Hcivil. unfold runBatch, tryCatch. rewrite runCallbacks_run.
  unfold throwsNoNullish in Hcivil.
  destruct (firstThrown callbacks args) as [e|]; [|now rewrite app_nil_r].
  assert (Hstack : forall w0 : World,
             stackOf e w0 = (w0, Returned (stackText e))).
  { intros w0. destruct e as [err|n|]; try reflexivity. discriminate. }
  rewrite (bind_run _ _ _ _ _ (Hstack _)), (log_sound _ _ _ _ Hsound).
  now rewrite extend_extend.
Qed.

Lemma dispatchToAddon_run (this : AddonInterface) (eventName : string)
    (args : list string) (addon : AddonBase) (w : World) :
  soundLogger (ai_logger this) ->
  throwsNoNullish (batchOf (arrayPrototype w) addon eventName) args = true ->
  dispatchToAddon this eventName args addon w =
    (extend w (batchTrace this eventName args (arrayPrototype w) addon),
     Returned tt).
Proof.
  intros Hsound. unfold dispatchToAddon, batchTrace, batchOf.
  destruct (getOwn (ab_listeners addon) eventName) as [callbacks|].
  - now apply runBatch_run.
  - destruct (String.eqb eventName "__proto__").
    + now apply runBatch_run.
    + intros _. unfold ret. cbn. now rewrite extend_nil.
Qed.

Lemma forEach_dispatchToAddon_run (this : AddonInterface) (eventName : string)
    (args : list string) (addons : list AddonBase) :
  soundLogger (ai_logger this) ->
  forall w,
    (forall addon,
        In addon addons ->
        throwsNoNullish (batchOf (arrayPrototype w) addon eventName) args = true) ->
    forEach (dispatchToAddon this eventName args) addons w =
      (extend w (flat_map (batchTrace this eventName args (arrayPrototype w))
                          addons),
       Returned tt).
Proof.
  intros Hsound.
  induction addons as [|addon rest IH]; intros w Hcivil; cbn [forEach flat_map].
  - unfold ret. now rewrite extend_nil.
  - unfold bind.
    rewrite dispatchToAddon_run; [|exact Hsound|apply Hcivil; now left].
    rewrite IH; [|intros a Ha; apply Hcivil; now right].
    now rewrite extend_extend.
Qed.

Lemma calledOf_all (callbacks : list Callback) (args : list string) :
  (forall callback, In callback callbacks -> cb_run callback args = None) ->
  calledOf callbacks args = callbacks /\ firstThrown callbacks args = None.
Proof.
  induction callbacks as [|callback rest IH]; intros H; cbn [calledOf firstThrown].
  - now split.
  - rewrite (H callback (or_introl eq_refl)).
    destruct IH as [-> ->]; [|now split].
    intros c Hc. apply H. now right.
Qed.

Lemma calledOf_until (before after : list Callback) (callback : Callback)
    (args : list string) (e : Raised) :
  (forall c, In c before -> cb_run c args = None) ->
  cb_run callback args = Some e ->
  calledOf (before ++ callback :: after) args = (before ++ [callback])%list
  /\ firstThrown (before ++ callback :: after) args = Some e.
Proof.
  induction before as [|c rest IH]; intros H He; cbn [app calledOf firstThrown].
  - now rewrite He.
  - rewrite (H c (or_introl eq_refl)).
    destruct IH as [-> ->]; [|assumption|now split].
    intros c' Hc'. apply H. now right.
Qed.

(** C6, as the code has it, for a registry whose logger is the one the
    constructor built and callbacks that throw nothing, or a value other
    than [null] and [undefined]. For a name outside the subscription set
    the dispatcher does nothing. For a subscribed name it returns and what
    it did is the batches of the loaded addons, one after the other in load
    order. The batch of an addon without callbacks for the name is empty.
    A batch whose callbacks all return is these callbacks in registration
    order. A batch in which a callback throws is the callbacks up to and
    including that one, then, when [error] is among the enabled types, one
    line on the host logger that carries the addon's name: the callbacks
    after it in the same batch are not called, and the batches of the
    following addons run all the same. *)
Theorem dispatch_isolates_batches
    (this : AddonInterface) (eventName : string) (args : list string)
    (w : World) (logger : HostLogger) (types : list string) :
  ai_logger this = scopedLogger "AddonInterface" logger types ->
  (forall addon,
      In addon (ai_addons this) ->
      throwsNoNullish (batchOf (arrayPrototype w) addon eventName) args = true) ->
  (includes (ai_listeners this) eventName = false ->
   executeEventCallbacks this eventName args w = (w, Returned tt))
  /\ (includes (ai_listeners this) eventName = true ->
      executeEventCallbacks this eventName args w =
        (extend w (flat_map (batchTrace this eventName args (arrayPrototype w))
                            (ai_addons this)),
         Returned tt))
  /\ (forall addon,
        batchOf (arrayPrototype w) addon eventName = [] ->
        batchTrace this eventName args (arrayPrototype w) addon = [])
  /\ (forall addon,
        (forall callback,
            In callback (batchOf (arrayPrototype w) addon eventName) ->
            cb_run callback args = None) ->
        batchTrace this eventName args (arrayPrototype w) addon =
          callEvents (batchOf (arrayPrototype w) addon eventName) args)
  /\ (forall addon before callback after e,
        batchOf (arrayPrototype w) addon eventName =
          (before ++ callback :: after)%list ->
        (forall c, In c before -> cb_run c args = None) ->
        cb_run callback args = Some e ->
        (In "error" types ->
         batchTrace this eventName args (arrayPrototype w) addon =
           (callEvents (before ++ [callback]) args
            ++ [HostLog logger "error"
                  ("[AddonInterface] Error execute callback for addon "
                   ++ ab_name addon ++ " event " ++ eventName ++ "!" ++ LF
                   ++ "," ++ joinedArg (stackText e))])%list)
        /\ (~ In "error" types ->
            batchTrace this eventName args (arrayPrototype w) addon =
              callEvents (before ++ [callback])%list args)).
Proof.
  intros Hlogger Hcivil.
  assert (Hsound : soundLogger (ai_logger this)).
  { rewrite Hlogger. apply soundLogger_scoped. }
  split; [|split; [|split; [|split]]].
  - intros H. unfold executeEventCallbacks. now rewrite H.
  - intros H. unfold executeEventCallbacks. rewrite H.
    now apply forEach_dispatchToAddon_run.
  - intros addon H. unfold batchTrace. now rewrite H.
  - intros addon Hall. unfold batchTrace.
    destruct (calledOf_all _ args Hall) as [-> ->]. apply app_nil_r.
  - intros addon before callback after e H Hbefore He. unfold batchTrace.
    rewrite H, Hlogger.
    destruct (calledOf_until before after callback args e Hbefore He) as [-> ->].
    split; intros Hen.
    + rewrite (classLog_enabled _ _ _ _ _ Hen). cbn [joinComma].
      now rewrite !append_assoc.
    + rewrite (classLog_disabled _ _ _ _ _ Hen). apply app_nil_r.
Qed.

(** C6 on two addons that listen for [newImage]. *)
Lemma dispatch_isolates_batches_witness :
  executeEventCallbacks twoAddons "newImage" [] startedWorld =
    (extend startedWorld
       (flat_map (batchTrace twoAddons "newImage" [] []) (ai_addons twoAddons)),
     Returned tt).
Proof.
  refine (proj1 (proj2 (dispatch_isolates_batches
                          twoAddons "newImage" [] startedWorld 1 allTypes
                          eq_refl _))
                eq_refl).
  intros addon [<-|[<-|[]]]; reflexivity.
Defined.

(** C6, as the specification states it, fails on two addons that listen for
    [newImage] when the first callback of the first addon throws: that
    addon's second callback (11) is never called, although the callback of
    the second addon (12) is. *)
Lemma throwing_callback_ends_its_batch :
  getOwn (ab_listeners crashingAddon) "newImage" = Some [onCrash; onTick]
  /\ executeEventCallbacks twoAddons "newImage" [] startedWorld =
       (extend startedWorld
          [CallbackRun 13 [];
           HostLog 1 "error"
             ("[AddonInterface] Error execute callback for addon Crashing event newImage!"
              ++ LF ++ ",Error: boom");
           CallbackRun 12 []],
        Returned tt)
  /\ callbacksRun
       (trace (fst (executeEventCallbacks twoAddons "newImage" [] startedWorld)))
     = [13; 12].
Proof. repeat split. Qed.


(** ** [registerListener] *)

Lemma plainName_inherits_nothing (pushed : list Callback) (name : string) :
  plainName name = true ->
  inheritedByArray pushed name = NoMember /\ arrayIndex name = None.
Proof.
  unfold plainName, inheritedByArray. intros H.
  apply andb_prop in H as [H Hindex].
  apply andb_prop in H as [H Hobject].
  apply andb_prop in H as [H Harray].
  apply andb_prop in H as [Hlength Hproto].
  apply negb_true_iff in Hlength, Hproto, Harray, Hobject.
  rewrite Hlength, Hproto, Harray, Hobject.
  destruct (arrayIndex name); [discriminate|now split].
Qed.

(** One name that the array neither has from the start nor inherits. *)
Lemma pushCallbacks_plain (this : AddonBase) (name : string)
    (callbacks : list Callback) (w : World) :
  plainName name = true ->
  exists after,
    pushCallbacks this name callbacks w = (w, Returned after)
    /\ sameIdentity this after
    /\ ab_listeners after =
         setOwn (ab_listeners this) name
                (callbacksOf (ab_listeners this) name ++ callbacks)%list.
Proof.
  intros Hplain. unfold pushCallbacks, callbacksOf.
  destruct (plainName_inherits_nothing (arrayPrototype w) name Hplain) as [-> _].
  destruct (getOwn (ab_listeners this) name);
    (eexists; split; [reflexivity|]; split; [now repeat split|reflexivity]).
Qed.

Lemma callbacksOf_setOwn (ls : Listeners) (n name : string)
    (callbacks : list Callback) :
  callbacksOf (setOwn ls n callbacks) name =
    if string_dec n name then callbacks else callbacksOf ls name.
Proof.
  unfold callbacksOf. destruct (string_dec n name) as [->|Hne].
  - now rewrite getOwn_setOwn_same.
  - now rewrite getOwn_setOwn_other.
Qed.

Lemma keys_setOwn_plain (ls : Listeners) (n : string)
    (callbacks : list Callback) :
  arrayIndex n = None ->
  exists more, keys (setOwn ls n callbacks) = (keys ls ++ more)%list.
Proof.
  intros Hplain. destruct (getOwn ls n) as [l|] eqn:Hget.
  - exists []. rewrite (keys_setOwn_present _ _ _ _ Hget). now rewrite app_nil_r.
  - exists [n]. now apply keys_setOwn_named.
Qed.

Lemma registerNames_plain (callbacks : list Callback) (names : list string) :
  forallb plainName names = true ->
  forall (this : AddonBase) (w : World),
    exists after,
      registerNames this names callbacks w = (w, Returned after)
      /\ sameIdentity this after
      /\ (forall name,
            callbacksOf (ab_listeners after) name =
              (callbacksOf (ab_listeners this) name
               ++ concat (repeat callbacks (count_occ string_dec names name)))%list)
      /\ (forall name,
            getOwn (ab_listeners after) name = None
            <-> getOwn (ab_listeners this) name = None /\ ~ In name names)
      /\ exists more,
           keys (ab_listeners after) = (keys (ab_listeners this) ++ more)%list.
Proof.
  induction names as [|n rest IH]; intros Hplain this w;
    cbn [registerNames forallb] in *.
  - exists this. split; [reflexivity|]. split; [apply sameIdentity_refl|].
    split; [intros name; cbn; now rewrite app_nil_r|].
    split; [intros name; cbn; tauto|]. exists []. now rewrite app_nil_r.
  - apply andb_prop in Hplain as [Hn Hrest].
    destruct (pushCallbacks_plain this n callbacks w Hn)
      as (this1 & Hpush & Hid1 & Hls1).
    destruct (IH Hrest this1 w) as (after & Hrun & Hid & Hcb & Hnone & more & Hkeys).
    exists after. rewrite (bind_run _ _ _ _ _ Hpush).
    split; [exact Hrun|]. split; [now apply (sameIdentity_trans _ this1)|].
    split; [|split].
    + intros name. rewrite Hcb, Hls1, callbacksOf_setOwn. cbn [count_occ].
      destruct (string_dec n name) as [->|Hne]; [|reflexivity].
      cbn [repeat concat]. now rewrite app_assoc.
    + intros name. rewrite Hnone, Hls1. cbn [In].
      destruct (string_dec n name) as [->|Hne].
      * rewrite getOwn_setOwn_same. split; [intros [H _]; discriminate|].
        intros [_ H]. exfalso. apply H. now left.
      * rewrite getOwn_setOwn_other by exact Hne. tauto.
    + destruct (plainName_inherits_nothing [] n Hn) as [_ Hindex].
      destruct (keys_setOwn_plain (ab_listeners this) n
                  (callbacksOf (ab_listeners this) n ++ callbacks)%list Hindex)
        as (more0 & Hkeys0).
      exists (more0 ++ more)%list. now rewrite Hkeys, Hls1, Hkeys0, app_assoc.
Qed.

(** X10. [registerListener] with names that an array neither has from the
    start nor inherits, and that are no array indices, returns and only
    ever appends. For every name, the callbacks the instance holds
    afterwards are those it held before followed by the given callbacks,
    once per occurrence of the name among the given names; a name gets its
    list on first use, a name that is not given keeps what it had, the
    names registered earlier keep their place in the enumeration order,
    and the instance's name, logger, images and configuration are
    untouched. A first name that the array inherits as a method or as
    its [length] makes the call throw a [TypeError] instead. *)
Theorem registerListener_appends
    (this : AddonBase) (eventName : OneOrMany string)
    (callbacks : OneOrMany Callback) (w : World) :
  (forallb plainName (toArray eventName) = true ->
   exists after,
     registerListener this eventName callbacks w = (w, Returned after)
     /\ (forall name,
           callbacksOf (ab_listeners after) name =
             (callbacksOf (ab_listeners this) name
              ++ concat (repeat (toArray callbacks)
                                (count_occ string_dec (toArray eventName) name)))%list)
     /\ (forall name,
           getOwn (ab_listeners after) name = None
           <-> getOwn (ab_listeners this) name = None
               /\ ~ In name (toArray eventName))
     /\ (exists more,
           keys (ab_listeners after) = (keys (ab_listeners this) ++ more)%list)
     /\ sameIdentity this after)
  /\ (forall name rest,
        toArray eventName = name :: rest ->
        getOwn (ab_listeners this) name = None ->
        inheritedByArray (arrayPrototype w) name = AFunction
        \/ inheritedByArray (arrayPrototype w) name = TheLength ->
        registerListener this eventName callbacks w =
          (w, Thrown (newTypeError "this.listeners[name].push is not a function"))).
Proof.
  split.
  - intros Hplain. unfold registerListener.
    destruct (registerNames_plain (toArray callbacks) (toArray eventName) Hplain
                this w) as (after & Hrun & Hid & Hcb & Hnone & Hkeys).
    exists after. split; [exact Hrun|]. split; [exact Hcb|].
    split; [exact Hnone|]. split; [exact Hkeys|exact Hid].
  - intros name rest Hnames Hown Hinherited. unfold registerListener.
    rewrite Hnames. cbn [registerNames]. unfold bind, pushCallbacks.
    rewrite Hown. now destruct Hinherited as [-> | ->].
Qed.

(** X10 on the names [push] and [newImage]. *)
Lemma registerListener_appends_witness :
  registerListener greeterInstance (Many ["push"; "newImage"]) (One onGreet)
                   startedWorld =
    (startedWorld,
     Thrown (newTypeError "this.listeners[name].push is not a function")).
Proof.
  exact (proj2 (registerListener_appends greeterInstance
                  (Many ["push"; "newImage"]) (One onGreet) startedWorld)
               "push" ["newImage"] eq_refl eq_refl (or_introl eq_refl)).
Defined.

(** X11. Registering callbacks for a name in two calls leaves the
    instance as one call with the two batches joined does, for a name that
    an array neither has from the start nor inherits. *)
Theorem registerListener_accumulates
    (this : AddonBase) (name : string) (first second : list Callback)
    (w : World) :
  plainName name = true ->
  (once <- registerListener this (One name) (Many first) ;;
   registerListener once (One name) (Many second)) w =
    registerListener this (One name) (Many (first ++ second)%list) w.
Proof.
  intros Hplain. unfold registerListener. cbn [toArray registerNames].
  destruct (pushCallbacks_plain this name first w Hplain)
    as (once & Hfirst & (Hname & Hlog & Himg & Hcfg) & Hls1).
  destruct (pushCallbacks_plain once name second w Hplain)
    as (twice & Hsecond & (Hname2 & Hlog2 & Himg2 & Hcfg2) & Hls2).
  destruct (pushCallbacks_plain this name (first ++ second) w Hplain)
    as (joined & Hjoined & (Hname3 & Hlog3 & Himg3 & Hcfg3) & Hls3).
  unfold bind, ret. rewrite Hfirst, Hsecond, Hjoined.
  do 2 f_equal.
  destruct twice, joined. cbn in *. f_equal; try congruence.
  subst. rewrite Hls1, callbacksOf_setOwn.
  destruct (string_dec name name) as [_|H]; [|contradiction].
  now rewrite setOwn_setOwn, app_assoc.
Qed.

Lemma registerListener_accumulates_witness :
  (once <- registerListener greeterInstance (One "newImage") (Many [onTick]) ;;
   registerListener once (One "newImage") (Many [onTock])) startedWorld =
    registerListener greeterInstance (One "newImage") (Many [onTick; onTock])
                     startedWorld.
Proof.
  exact (registerListener_accumulates greeterInstance "newImage"
           [onTick] [onTock] startedWorld eq_refl).
Defined.

(** ** The control surface *)

(** Without a name the sanitizer of line 240 is called on [undefined]. *)
Lemma addonControl_without_name (env : ControlEnv) (command : string)
    (args : list string) (s : ControlState) :
  includes ["help"; "--help"; "-h"] command = false ->
  String.eqb command EmptyString = false ->
  String.eqb command "status" = true ->
  addonControl env (Some command) None args s =
    (s, Thrown (newTypeError
                  "Cannot read properties of undefined (reading 'replace')")).
Proof.
  intros Hhelp Hempty Hstatus. unfold addonControl, bind at 1.
  cbn [missing isCommand]. rewrite Hhelp, Hempty, Hstatus. reflexivity.
Qed.

(** With no binding for [path], line 257 throws before the [switch]. *)
Lemma addonControl_without_path (env : ControlEnv) (command addonName : string)
    (args : list string) (s : ControlState) :
  String.eqb command "status" = false ->
  exists s',
    addonControl (withoutPath env) (Some command) (Some addonName) args s =
      (s', Thrown (newReferenceError "path is not defined"))
    /\ cs_addons s' = cs_addons s
    /\ writesOf (cs_output s') = writesOf (cs_output s).
Proof.
  intros Hstatus. unfold addonControl.
  cbn [isCommand missing withoutPath env_path_resolve env_filename].
  rewrite Hstatus.
  match goal with |- context [if ?b then out ?o else ret tt] =>
    destruct b end.
  - eexists. split; [reflexivity|]. split; [reflexivity|].
    cbn. unfold writesOf. rewrite flat_map_app. cbn. now rewrite app_nil_r.
  - eexists. split; [reflexivity|]. now split.
Qed.

(** C9. The specification has [status] print the table and never end abnormally,
    with or without an addon name. Called without a name, as the usage test
    of line 234 allows for [status], the code throws a [TypeError] at line
    240 before it prints anything, whatever the configuration. Called with
    a name on the module as shipped, it prints the table of the two entries
    with their flags and then throws the [ReferenceError] of line 257. *)
Theorem status_ends_abnormally :
  (forall (env : ControlEnv) (s : ControlState),
      addonControl env (Some "status") None [] s =
        (s, Thrown (newTypeError
                      "Cannot read properties of undefined (reading 'replace')")))
  /\ addonControl (withoutPath boundEnv) (Some "status") (Some "addonA") []
                  twoEntries =
       ({| cs_addons := cs_addons twoEntries;
           cs_output := [ConsoleLog statusTable] |},
        Thrown (newReferenceError "path is not defined")).
Proof.
  split.
  - intros env s. now apply addonControl_without_name.
  - reflexivity.
Qed.

(** C8. The specification has [enable] write the configuration when it flips an
    explicitly disabled entry, and [disable] then [enable] write twice. On
    the module as shipped [enable] throws the [ReferenceError] of line 257
    before its [case] is reached, for every configuration: nothing is
    created, flipped or written. Where the host binds [path], [enable] on
    the disabled [addonB] sets the flag in memory, never calls
    [writeConfig] and reports that the addon was already enabled; and
    [disable] then [enable] on [addonA] leave one write, which saved
    [enabled: false]. *)
Theorem enable_flip_is_not_written :
  (forall (env : ControlEnv) (addonName : string) (s : ControlState),
      exists s',
        addonControl (withoutPath env) (Some "enable") (Some addonName) [] s =
          (s', Thrown (newReferenceError "path is not defined"))
        /\ cs_addons s' = cs_addons s
        /\ writesOf (cs_output s') = writesOf (cs_output s))
  /\ addonControl boundEnv (Some "enable") (Some "addonB") [] twoEntries =
       ({| cs_addons := [("addonA", CfgObject [("enabled", PBool true)]);
                         ("addonB", CfgObject [("enabled", PBool true)])];
           cs_output :=
             [ConsoleInfo "Nothing to do. Addon 'addonB' was already enabled."] |},
        Returned tt)
  /\ disableThenEnable boundEnv twoEntries =
       ({| cs_addons := cs_addons twoEntries;
           cs_output :=
             [WriteConfig [("addonA", CfgObject [("enabled", PBool false)]);
                           ("addonB", CfgObject [("enabled", PBool false)])];
              ConsoleInfo "Disabled addon 'addonA'.";
              ConsoleInfo "Nothing to do. Addon 'addonA' was already enabled."] |},
        Returned tt)
  /\ length (writesOf (cs_output (fst (disableThenEnable boundEnv twoEntries))))
     = 1.
Proof.
  split; [|repeat split].
  intros env addonName s. now apply addonControl_without_path.
Qed.


Lemma statusRows_listed (addons entries : list (string * ConfigValue)) :
  (forall k v, In (k, v) entries ->
               getOwn addons k = Some v /\ isNullish v = false) ->
  statusRows addons (keys entries) = inr (statusRowsOf entries).
Proof.
  induction entries as [|[k v] rest IH]; intros H;
    cbn [keys map fst statusRows statusRowsOf fold_right].
  - reflexivity.
  - destruct (H k v (or_introl eq_refl)) as [-> Hv].
    fold (keys rest). rewrite IH by (intros k' v' Hin; apply H; now right).
    fold (statusRowsOf rest). unfold statusRow. cbn [fst snd].
    rewrite !append_assoc.
    destruct v as [|p|fields]; [discriminate|reflexivity|reflexivity].
Qed.


(** X5. What [status] does where [path] is bound and a name is passed: for a
    configuration whose entries are not [null], it prints the header and
    one row per declared name, in declaration order, with the flag [true]
    unless [enabled] is [false], changes nothing and returns. *)
Theorem status_prints_flags
    (env : ControlEnv) (addonName : string) (resolve : string -> string)
    (args : list string) (s : ControlState) :
  env_path_resolve env = Some resolve ->
  NoDup (keys (cs_addons s)) ->
  forallb (fun kv => negb (isNullish (snd kv))) (cs_addons s) = true ->
  addonControl env (Some "status") (Some addonName) args s =
    ({| cs_addons := cs_addons s;
        cs_output :=
          (cs_output s
           ++ [ConsoleLog (statusHeader ++ statusRowsOf (cs_addons s))])%list |},
     Returned tt).
Proof.
  intros Hpath Hnd Hall. unfold addonControl.
  cbn [missing isCommand String.eqb Ascii.eqb Bool.eqb andb orb negb].
  rewrite Hpath.
  change (includes ["help"; "--help"; "-h"] "status") with false. cbn [orb].
  unfold bind at 1, ret at 1, bind at 1, ret at 1, bind at 1, printStatus.
  rewrite statusRows_listed; [reflexivity|].
  intros k v Hin. split; [now apply getOwn_NoDup|].
  rewrite forallb_forall in Hall. specialize (Hall (k, v) Hin).
  cbn [snd] in Hall. now destruct (isNullish v).
Qed.

(** X5 on the configuration of the two entries. *)
Lemma status_prints_flags_witness :
  addonControl boundEnv (Some "status") (Some "addonA") [] twoEntries =
    ({| cs_addons := cs_addons twoEntries;
        cs_output := [ConsoleLog statusTable] |},
     Returned tt).
Proof.
  refine (status_prints_flags boundEnv "addonA" (fun p => p) [] twoEntries
            eq_refl _ eq_refl).
  repeat constructor; cbn; intuition discriminate.
Defined.


Lemma statusRows_null (addons : list (string * ConfigValue)) (k : string)
    (names : list string) :
  getOwn addons k = Some CfgNullish ->
  In k names ->
  statusRows addons names =
    inl (newTypeError "Cannot read properties of null (reading 'enabled')").
Proof.
  intros Hnull. induction names as [|n rest IH]; intros Hin; [destruct Hin|].
  cbn [statusRows].
  destruct (getOwn addons n) as [[|p|fields]|] eqn:Hn; try reflexivity.
  - destruct Hin as [->|Hin]; [congruence|]. now rewrite (IH Hin).
  - destruct Hin as [->|Hin]; [congruence|]. now rewrite (IH Hin).
Qed.

(** X26. [status] with a name, on a configuration in which some declared
    name has the entry [null]: the command throws a [TypeError] before it
    prints anything, whether or not [path] is bound; no row of the table is
    shown, also for the entries before the [null] one. *)
Theorem status_stops_at_a_null_entry
    (env : ControlEnv) (addonName k : string) (args : list string)
    (s : ControlState) :
  getOwn (cs_addons s) k = Some CfgNullish ->
  exists e : JsError,
    addonControl env (Some "status") (Some addonName) args s = (s, Thrown e)
    /\ isTypeError e = true.
Proof.
  intros Hnull. unfold addonControl.
  cbn [missing isCommand String.eqb Ascii.eqb Bool.eqb andb orb negb].
  change (includes ["help"; "--help"; "-h"] "status") with false. cbn [orb].
  unfold bind at 1, ret at 1, bind at 1, ret at 1, bind at 1, printStatus.
  rewrite (statusRows_null _ k);
    [eexists; split; reflexivity|exact Hnull|].
  now apply (getOwn_In_keys _ _ CfgNullish).
Qed.

(** X26 on a configuration with a [null] entry after a sound one. *)
Lemma status_stops_at_a_null_entry_witness :
  exists e : JsError,
    addonControl boundEnv (Some "status") (Some "addonA") []
      {| cs_addons := [("addonA", CfgObject []); ("addonB", CfgNullish)];
         cs_output := [] |} =
      ({| cs_addons := [("addonA", CfgObject []); ("addonB", CfgNullish)];
          cs_output := [] |}, Thrown e)
    /\ isTypeError e = true.
Proof.
  exact (status_stops_at_a_null_entry boundEnv "addonA" "addonB" []
           {| cs_addons := [("addonA", CfgObject []); ("addonB", CfgNullish)];
              cs_output := [] |} eq_refl).
Defined.


(** ** What no command touches *)

Lemma writesOf_app (o1 o2 : list Output) :
  writesOf (o1 ++ o2) = (writesOf o1 ++ writesOf o2)%list.
Proof. apply flat_map_app. Qed.

Section Framed.
Variable name : string.

Lemma framed_ret {A} (a : A) : framed name (ret a).
Proof. intros s s' c H. now injection H as <- _. Qed.

Lemma framed_throw {A} (e : Raised) : framed name (throw e : C A).
Proof. intros s s' c H. now injection H as <- _. Qed.

Lemma framed_exit {A} (code : Z) : framed name (processExit code : C A).
Proof. intros s s' c H. now injection H as <- _. Qed.

Lemma framed_out (o : Output) : framed name (out o).
Proof. intros s s' c H. now injection H as <- _. Qed.

Lemma framed_getEntry (k : string) : framed name (getEntry k).
Proof. intros s s' c H. now injection H as <- _. Qed.

Lemma framed_bind {A B} (m : C A) (k : A -> C B) :
  framed name m -> (forall a, framed name (k a)) -> framed name (bind m k).
Proof.
  intros Hm Hk s s' c. unfold bind.
  destruct (m s) as [s1 [a|e|code]] eqn:E; intros H.
  - intros k0 Hne. rewrite (Hk a s1 s' c H k0 Hne). now apply (Hm s s1 _ E).
  - injection H as <- _. now apply (Hm s s1 _ E).
  - injection H as <- _. now apply (Hm s s1 _ E).
Qed.

Lemma framed_tryCatch {A} (m : C A) (h : Raised -> C A) :
  framed name m -> (forall e, framed name (h e)) -> framed name (tryCatch m h).
Proof.
  intros Hm Hh s s' c. unfold tryCatch.
  destruct (m s) as [s1 [a|e|code]] eqn:E; intros H.
  - injection H as <- _. now apply (Hm s s1 _ E).
  - intros k0 Hne. rewrite (Hh e s1 s' c H k0 Hne). now apply (Hm s s1 _ E).
  - injection H as <- _. now apply (Hm s s1 _ E).
Qed.

Lemma framed_forEach {A} (f : A -> C unit) (l : list A) :
  (forall a, framed name (f a)) -> framed name (forEach f l).
Proof.
  intros Hf. induction l as [|a rest IH]; cbn [forEach].
  - apply framed_ret.
  - apply framed_bind; [apply Hf|intros _; exact IH].
Qed.

Lemma framed_reportError (text : string) (e : Raised) :
  framed name (reportError text e).
Proof.
  unfold reportError. apply framed_bind; [|intros stack; apply framed_out].
  destruct e; [apply framed_ret|apply framed_throw|apply framed_ret].
Qed.

Lemma framed_setOwn (v : ConfigValue) :
  framed name (setAddons (fun o => setOwn o name v)).
Proof.
  intros s s' c H. injection H as <- _. intros k Hk. cbn [cs_addons].
  apply getOwn_setOwn_other. congruence.
Qed.

Lemma framed_deleteOwn : framed name (setAddons (fun o => deleteOwn o name)).
Proof.
  intros s s' c H. injection H as <- _. intros k Hk. cbn [cs_addons].
  apply getOwn_deleteOwn_other. congruence.
Qed.

Lemma framed_setEntryField (key : string) (value : Prim) :
  framed name (setEntryField name key value).
Proof.
  unfold setEntryField. apply framed_bind; [apply framed_getEntry|].
  intros [[|p|fields]| | |].
  - apply framed_throw.
  - destruct (String.eqb key "__proto__"); [apply framed_ret|apply framed_throw].
  - apply framed_setOwn.
  - destruct (readOnlyOfMethod name key); [apply framed_throw|].
    destruct (String.eqb key "__proto__"); [apply framed_ret|apply framed_out].
  - destruct (String.eqb key "__proto__"); [apply framed_ret|apply framed_out].
  - apply framed_throw.
Qed.

Lemma framed_writeConfig (env : ControlEnv) : framed name (writeConfig env).
Proof.
  unfold writeConfig. apply framed_bind.
  - intros s s' c H. now injection H as <- _.
  - intros _. destruct (env_writeConfig_throws env);
      [apply framed_throw|apply framed_ret].
Qed.

Lemma framed_printStatus : framed name printStatus.
Proof.
  intros s s' c. unfold printStatus.
  destruct (statusRows (cs_addons s) (keys (cs_addons s)));
    intros H; now injection H as <- _.
Qed.

Lemma framed_enableCommand (env : ControlEnv) (addonPath : string) :
  framed name (enableCommand env name addonPath).
Proof.
  unfold enableCommand.
  apply framed_tryCatch; [|intros e; apply framed_reportError].
  apply framed_bind.
  { destruct (env_existsSync env addonPath); [apply framed_ret|].
    apply framed_bind; [apply framed_out|intros _; apply framed_exit]. }
  intros _. apply framed_bind; [apply framed_getEntry|]. intros entry.
  apply framed_bind.
  { destruct entry as [[|p|fields]| | |];
      try (destruct (negb _); [apply framed_setOwn|apply framed_ret]).
    destruct (enabledIsFalse fields);
      [apply framed_setEntryField|apply framed_ret]. }
  intros _. destruct (negb (truthyMember entry)); [|apply framed_out].
  apply framed_bind; [apply framed_writeConfig|intros _; apply framed_out].
Qed.

Lemma framed_disableCommand (env : ControlEnv) :
  framed name (disableCommand env name).
Proof.
  unfold disableCommand.
  apply framed_tryCatch; [|intros e; apply framed_reportError].
  apply framed_bind; [apply framed_getEntry|]. intros entry.
  match goal with |- framed _ (if ?b then _ else _) => destruct b end;
    [|apply framed_out].
  apply framed_bind; [apply framed_setEntryField|]. intros _.
  apply framed_bind; [apply framed_writeConfig|intros _; apply framed_out].
Qed.

Lemma framed_removeCommand (env : ControlEnv) :
  framed name (removeCommand env name).
Proof.
  unfold removeCommand.
  apply framed_tryCatch; [|intros e; apply framed_reportError].
  apply framed_bind; [apply framed_getEntry|]. intros entry.
  destruct (truthyMember entry); [|apply framed_out].
  apply framed_bind; [apply framed_deleteOwn|]. intros _.
  apply framed_bind; [apply framed_writeConfig|intros _; apply framed_out].
Qed.

Lemma framed_configCommand (env : ControlEnv) (addonPath : string)
    (args : list string) :
  framed name (configCommand env name addonPath args).
Proof.
  unfold configCommand.
  apply framed_bind.
  { destruct (length args <? 2)%nat; [|apply framed_ret].
    apply framed_bind; [apply framed_out|intros _; apply framed_exit]. }
  intros _. apply framed_bind; [apply framed_getEntry|]. intros entry.
  apply framed_bind.
  { destruct (truthyMember entry); [apply framed_ret|].
    apply framed_bind; [apply framed_out|intros _; apply framed_exit]. }
  intros _. apply framed_bind.
  { destruct (env_configCtrl env addonPath);
      [apply framed_reportError|apply framed_ret|apply framed_ret]. }
  intros _. apply framed_tryCatch; [|intros e; apply framed_reportError].
  apply framed_bind.
  - destruct (env_configCtrl env addonPath) as [e| |run].
    + apply framed_bind; [apply framed_setEntryField|]. intros _.
      apply framed_bind; [apply framed_setEntryField|intros _; apply framed_ret].
    + apply framed_bind; [apply framed_setEntryField|]. intros _.
      apply framed_bind; [apply framed_setEntryField|intros _; apply framed_ret].
    + apply framed_bind; [apply framed_out|]. intros _.
      apply framed_bind; [apply framed_getEntry|]. intros current.
      destruct (run current args) as [sets result].
      apply framed_bind.
      * apply framed_forEach. intros kv. apply framed_setEntryField.
      * intros _ s s' c H. now injection H as <- _.
  - intros [|]; [|apply framed_ret].
    apply framed_bind; [apply framed_writeConfig|intros _; apply framed_out].
Qed.

End Framed.

Lemma addonControl_framed (env : ControlEnv) (command : option string)
    (name : string) (args : list string) :
  framed (removeInvalidAddonNameChars name)
         (addonControl env command (Some name) args).
Proof.
  set (n := removeInvalidAddonNameChars name).
  assert (Hrest : framed n
            ((if missing command
                 || match command with
                    | Some c => includes ["help"; "--help"; "-h"] c
                    | None => false
                    end
                 || (negb (isCommand command "status") && missing (Some name))
              then out (ConsoleInfo (LF ++ "Usage: node " ++ env_filename env
                                     ++ " <command> <addonName> [...arguments]"
                                     ++ LF))
              else ret tt) ;;
             (if isCommand command "status" then printStatus else ret tt) ;;
             addonPath <-
               match env_path_resolve env with
               | Some resolve =>
                   ret (resolve (env_dirname env ++ "/../addons/" ++ n))
               | None => throw (newReferenceError "path is not defined")
               end ;;
             if isCommand command "enable" then enableCommand env n addonPath
             else if isCommand command "disable" then disableCommand env n
             else if isCommand command "remove" then removeCommand env n
             else if isCommand command "config"
                  then configCommand env n addonPath args
                  else ret tt)).
  { apply framed_bind.
    { match goal with |- framed _ (if ?b then _ else _) => destruct b end;
        [apply framed_out|apply framed_ret]. }
    intros _. apply framed_bind.
    { destruct (isCommand command "status");
        [apply framed_printStatus|apply framed_ret]. }
    intros _. apply framed_bind.
    { destruct (env_path_resolve env); [apply framed_ret|apply framed_throw]. }
    intros addonPath.
    destruct (isCommand command "enable"); [apply framed_enableCommand|].
    destruct (isCommand command "disable"); [apply framed_disableCommand|].
    destruct (isCommand command "remove"); [apply framed_removeCommand|].
    destruct (isCommand command "config"); [apply framed_configCommand|].
    apply framed_ret. }
  intros s s' c H. apply (Hrest s s' c). rewrite <- H.
  unfold addonControl, bind, ret. fold n.
  match goal with |- context [(if ?b then out ?o else _) s] =>
    destruct b end; reflexivity.
Qed.

Lemma addonControl_unnamed (env : ControlEnv) (command : option string)
    (args : list string) (s s' : ControlState) (c : Completion unit) :
  addonControl env command None args s = (s', c) ->
  cs_addons s' = cs_addons s.
Proof.
  unfold addonControl, bind, throw.
  match goal with |- context [(if ?b then out ?o else _) s] =>
    destruct b end; intros H; now injection H as <- _.
Qed.

(** X24. Whatever the command, the arguments and the environment, a call
    of [addonControl] leaves every entry of the configuration in memory as
    it is, but for the entry of the name it was given (after the
    sanitizer); this covers the values a [configCtrl] handler passes to
    [setConfigValue]. Without a name no entry changes at all. *)
Theorem commands_touch_one_entry
    (env : ControlEnv) (command addonName : option string)
    (args : list string) (s s' : ControlState) (c : Completion unit) :
  addonControl env command addonName args s = (s', c) ->
  forall k,
    Some k <> option_map removeInvalidAddonNameChars addonName ->
    getOwn (cs_addons s') k = getOwn (cs_addons s) k.
Proof.
  intros Hrun k Hk. destruct addonName as [name|].
  - apply (addonControl_framed env command name args s s' c Hrun).
    cbn [option_map] in Hk. congruence.
  - now rewrite (addonControl_unnamed env command args s s' c Hrun).
Qed.

(** X24 on a handler's write: the other addon's entry stays. *)
Lemma commands_touch_one_entry_witness :
  getOwn (cs_addons (fst (addonControl handlerEnv (Some "config")
                            (Some "addonA") ["volume"; "3"] twoEntries)))
         "addonB" =
    Some (CfgObject [("enabled", PBool false)]).
Proof.
  exact (commands_touch_one_entry handlerEnv (Some "config") (Some "addonA")
           ["volume"; "3"] twoEntries _ _ eq_refl "addonB"
           ltac:(discriminate)).
Defined.

(** X25. Only [enable], [disable], [remove] and [config] change or write
    the configuration: under any other command, or none, [addonControl]
    leaves the configuration in memory as it is, does not call
    [writeConfig] and does not end the process, whatever name, arguments
    and environment it is given. *)
Theorem other_commands_change_nothing
    (env : ControlEnv) (command addonName : option string)
    (args : list string) (s s' : ControlState) (c : Completion unit) :
  (forall name, In name ["enable"; "disable"; "remove"; "config"] ->
                command <> Some name) ->
  addonControl env command addonName args s = (s', c) ->
  cs_addons s' = cs_addons s
  /\ writesOf (cs_output s') = writesOf (cs_output s)
  /\ forall code, c <> Exited code.
Proof.
  intros Hother.
  assert (Hnot : forall name,
            In name ["enable"; "disable"; "remove"; "config"] ->
            isCommand command name = false).
  { intros name Hin. destruct command as [cmd|]; [|reflexivity].
    cbn [isCommand]. destruct (String.eqb_spec cmd name) as [->|]; [|reflexivity].
    now destruct (Hother name Hin). }
  unfold addonControl.
  rewrite (Hnot "enable"), (Hnot "disable"), (Hnot "remove"), (Hnot "config")
    by (cbn; tauto).
  unfold bind, ret, throw.
  match goal with |- context [(if ?b then out ?o else _) s] =>
    destruct b end;
    (destruct addonName as [name|];
     [|intros H; injection H as <- <-; cbn [cs_addons cs_output];
       rewrite ?writesOf_app, ?app_nil_r; repeat split; discriminate]);
    unfold out, printStatus;
    destruct (isCommand command "status");
    cbn [cs_addons cs_output];
    try destruct (statusRows (cs_addons s) (keys (cs_addons s)));
    destruct (env_path_resolve env);
    intros H; injection H as <- <-; cbn [out cs_addons cs_output];
    rewrite ?writesOf_app; cbn [writesOf flat_map app];
    rewrite ?app_nil_r; repeat split; discriminate.
Qed.

(** X25 on [status]. *)
Lemma other_commands_change_nothing_witness :
  cs_addons (fst (addonControl boundEnv (Some "status") (Some "addonA") []
                    twoEntries)) = cs_addons twoEntries.
Proof.
  exact (proj1 (other_commands_change_nothing
                  boundEnv (Some "status") (Some "addonA") [] twoEntries _ _
                  ltac:(intros name [<-|[<-|[<-|[<-|[]]]]]; discriminate)
                  eq_refl)).
Defined.


(** ** The commands, where [path] is bound *)

Lemma report_nil (s : ControlState) : report s [] = s.
Proof. destruct s. unfold report. cbn. now rewrite app_nil_r. Qed.

Lemma reportError_run (text : string) (e : Raised) (s : ControlState) :
  (forall n, e <> Nullish n) ->
  reportError text e s =
    (report s [ConsoleError [text; printedArg (stackText e)]], Returned tt).
Proof.
  intros Hcivil. unfold reportError.
  destruct e as [err|n|]; try reflexivity. now destruct (Hcivil n).
Qed.

Lemma writeConfig_report (env : ControlEnv) (info failure : string)
    (s : ControlState) :
  civilWrite env = true ->
  tryCatch (writeConfig env ;; out (ConsoleInfo info))
           (reportError failure) s =
    (written env info failure s, Returned tt).
Proof.
  unfold civilWrite, written, tryCatch, writeConfig, bind, out, report.
  destruct (env_writeConfig_throws env) as [[err|n|]|]; try discriminate;
    intros _; unfold throw, ret, reportError, bind, stackOf, ret, out;
    cbn [cs_addons cs_output stackText printedArg]; now rewrite <- app_assoc.
Qed.

Lemma assignField_present (fields : Fields) (k : string) (v v0 : Prim) :
  getOwn fields k = Some v0 -> assignField fields k v = setOwn fields k v.
Proof. unfold assignField. now intros ->. Qed.

Lemma assignField_named (fields : Fields) (k : string) (v : Prim) :
  String.eqb k "__proto__" = false -> assignField fields k v = setOwn fields k v.
Proof. unfold assignField. intros ->. now destruct (getOwn fields k). Qed.

Lemma enabledIsFalse_true (fields : Fields) :
  enabledIsFalse fields = true -> getOwn fields "enabled" = Some (PBool false).
Proof.
  unfold enabledIsFalse.
  destruct (getOwn fields "enabled") as [[[|]|]|]; try discriminate. reflexivity.
Qed.

Lemma enabledIsFalse_setOwn (fields : Fields) (b : bool) :
  enabledIsFalse (setOwn fields "enabled" (PBool b)) = negb b.
Proof.
  unfold enabledIsFalse. rewrite getOwn_setOwn_same. now destruct b.
Qed.

Lemma getMember_own (o : list (string * ConfigValue)) (k : string) (v : ConfigValue) :
  getOwn o k = Some v -> getMember o k = Own v.
Proof. unfold getMember. now intros ->. Qed.

Lemma getMember_plain (o : list (string * ConfigValue)) (k : string) :
  inheritedName k = false ->
  getMember o k = match getOwn o k with
                  | Some v => Own v
                  | None => Missing
                  end.
Proof.
  intros H. destruct (getOwn o k) as [v|] eqn:Hget.
  - now apply getMember_own.
  - now apply getMember_missing.
Qed.

Lemma readOnly_enabled (member : string) :
  readOnlyOfMethod member "enabled" = false.
Proof.
  unfold readOnlyOfMethod.
  change (includes ["name"; "length"; "caller"; "arguments"] "enabled") with false.
  cbn [orb]. apply andb_false_r.
Qed.

(** Where [path] is bound, a command with a name reaches its [case]. *)
Lemma addonControl_named (env : ControlEnv) (command addonName : string)
    (resolve : string -> string) (args : list string) (s : ControlState) :
  In command ["enable"; "disable"; "remove"; "config"] ->
  String.eqb addonName EmptyString = false ->
  env_path_resolve env = Some resolve ->
  addonControl env (Some command) (Some addonName) args s =
    (let name := removeInvalidAddonNameChars addonName in
     let addonPath := resolve (env_dirname env ++ "/../addons/" ++ name) in
     if String.eqb command "enable" then enableCommand env name addonPath
     else if String.eqb command "disable" then disableCommand env name
     else if String.eqb command "remove" then removeCommand env name
     else configCommand env name addonPath args) s.
Proof.
  intros Hcommand Hname Hpath.
  destruct Hcommand as [<-|[<-|[<-|[<-|[]]]]];
    unfold addonControl; cbn [missing isCommand];
    rewrite Hname, Hpath; reflexivity.
Qed.

Lemma writesOf_written (env : ControlEnv) (info failure : string)
    (s : ControlState) :
  writesOf (cs_output (written env info failure s)) =
    (writesOf (cs_output s) ++ [cs_addons s])%list.
Proof.
  unfold written, report. cbn [cs_output]. rewrite writesOf_app.
  now destruct (env_writeConfig_throws env).
Qed.

Lemma writesOf_report_one (s : ControlState) (o : Output) :
  match o with WriteConfig _ => False | _ => True end ->
  writesOf (cs_output (report s [o])) = writesOf (cs_output s).
Proof.
  intros H. unfold report. cbn [cs_output]. rewrite writesOf_app.
  destruct o; try contradiction; cbn; now rewrite app_nil_r.
Qed.

Lemma disableCommand_run (env : ControlEnv) (name : string) (s : ControlState) :
  civilWrite env = true ->
  disableCommand env name s =
    (match getMember (cs_addons s) name with
     | Own (CfgObject fields) =>
         if enabledIsFalse fields then report s [disableNothing name]
         else written env (disabledInfo name) (disableFailure name)
                (withAddons s
                   (setOwn (cs_addons s) name
                      (CfgObject (assignField fields "enabled" (PBool false)))))
     | Own (CfgPrim p) =>
         if truthyPrim p
         then report s [ConsoleError
                          [disableFailure name;
                           "TypeError: Cannot create property 'enabled' on a primitive"]]
         else report s [disableNothing name]
     | InheritedMethod | ObjectPrototype =>
         written env (disabledInfo name) (disableFailure name)
                 (report s [InheritedSet name "enabled" (PBool false)])
     | _ => report s [disableNothing name]
     end, Returned tt).
Proof.
  intros Hwrite. unfold disableCommand.
  destruct (getMember (cs_addons s) name) as [[|p|fields]| | |] eqn:Hentry.
  - unfold tryCatch, bind, getEntry. rewrite Hentry. reflexivity.
  - unfold tryCatch, bind at 1, getEntry. rewrite Hentry. cbn [truthyMember truthy].
    destruct (truthyPrim p); [|reflexivity].
    unfold bind, setEntryField, bind, getEntry. rewrite Hentry. reflexivity.
  - unfold tryCatch, bind at 1, getEntry. rewrite Hentry.
    destruct (enabledIsFalse fields); cbn [negb]; [reflexivity|].
    unfold bind at 1, setEntryField, bind at 1, getEntry. rewrite Hentry.
    unfold setAddons.
    exact (writeConfig_report env (disabledInfo name) (disableFailure name)
             (withAddons s _) Hwrite).
  - unfold tryCatch, bind at 1, getEntry. rewrite Hentry. cbn [truthyMember].
    unfold bind at 1, setEntryField, bind at 1, getEntry. rewrite Hentry.
    rewrite readOnly_enabled. cbn [String.eqb Ascii.eqb Bool.eqb].
    unfold out at 1.
    exact (writeConfig_report env (disabledInfo name) (disableFailure name)
             (report s _) Hwrite).
  - unfold tryCatch, bind at 1, getEntry. rewrite Hentry. cbn [truthyMember].
    unfold bind at 1, setEntryField, bind at 1, getEntry. rewrite Hentry.
    cbn [String.eqb Ascii.eqb Bool.eqb]. unfold out at 1.
    exact (writeConfig_report env (disabledInfo name) (disableFailure name)
             (report s _) Hwrite).
  - unfold tryCatch, bind, getEntry. rewrite Hentry. reflexivity.
Qed.

Lemma removeCommand_run (env : ControlEnv) (name : string) (s : ControlState) :
  civilWrite env = true ->
  removeCommand env name s =
    (if truthyMember (getMember (cs_addons s) name)
     then written env (removedInfo name) (removeFailure name)
            (withAddons s (deleteOwn (cs_addons s) name))
     else report s [removeNothing name], Returned tt).
Proof.
  intros Hwrite. unfold removeCommand.
  destruct (truthyMember (getMember (cs_addons s) name)) eqn:Hentry.
  - unfold tryCatch, bind at 1, getEntry. rewrite Hentry.
    unfold bind at 1, setAddons.
    exact (writeConfig_report env (removedInfo name) (removeFailure name)
             (withAddons s _) Hwrite).
  - unfold tryCatch, bind, getEntry. rewrite Hentry. reflexivity.
Qed.

Lemma enableCommand_run (env : ControlEnv) (name addonPath : string)
    (s : ControlState) :
  civilWrite env = true ->
  enableCommand env name addonPath s =
    if env_existsSync env addonPath then
      (match getMember (cs_addons s) name with
       | Own (CfgObject fields) =>
           report (if enabledIsFalse fields
                   then withAddons s
                          (setOwn (cs_addons s) name
                             (CfgObject (setOwn fields "enabled" (PBool true))))
                   else s)
                  [enableNothing name]
       | other =>
           if truthyMember other then report s [enableNothing name]
           else written env (enabledInfo name) (enableFailure name)
                  (withAddons s
                     (setOwn (cs_addons s) name
                        (CfgObject [("enabled", PBool true)])))
       end, Returned tt)
    else
      (report s [ConsoleError ["Addon folder does'nt exist '" ++ addonPath ++ "'"]],
       Exited 1).
Proof.
  intros Hwrite. unfold enableCommand.
  destruct (env_existsSync env addonPath); [|reflexivity].
  unfold tryCatch at 1, bind at 1, ret at 1, bind at 1, getEntry.
  assert (Hnew :
            match
              (setAddons (fun o => setOwn o name (CfgObject [("enabled", PBool true)])) ;;
               writeConfig env ;; out (ConsoleInfo (enabledInfo name))) s
            with
            | (s', Thrown e) => reportError (enableFailure name) e s'
            | other => other
            end =
            (written env (enabledInfo name) (enableFailure name)
               (withAddons s
                  (setOwn (cs_addons s) name (CfgObject [("enabled", PBool true)]))),
             Returned tt)).
  { unfold bind at 1, setAddons.
    exact (writeConfig_report env (enabledInfo name) (enableFailure name)
             (withAddons s _) Hwrite). }
  destruct (getMember (cs_addons s) name) as [[|p|fields]| | |] eqn:Hentry;
    cbn [truthyMember truthy negb].
  - exact Hnew.
  - destruct (truthyPrim p); cbn [negb]; [reflexivity|]. exact Hnew.
  - destruct (enabledIsFalse fields) eqn:Hflag; [|reflexivity].
    unfold bind at 1, setEntryField, bind at 1, getEntry. rewrite Hentry.
    rewrite (assignField_present _ _ _ _ (enabledIsFalse_true _ Hflag)).
    reflexivity.
  - reflexivity.
  - reflexivity.
  - exact Hnew.
Qed.

(** X4. What [enable] does where [path] is bound, the addon's folder exists
    and the configuration can be written. When the lookup of the name
    finds nothing, [null] or a falsy value, an entry with [enabled: true]
    is created and written. When it finds an object whose [enabled] is
    [false], the flag is set in memory and [writeConfig] is not called.
    Anything else it finds, a member that every object inherits included,
    is left alone. The last two cases report that the addon was already
    enabled. *)
Theorem enable_writes_only_new_entries
    (env : ControlEnv) (addonName : string) (resolve : string -> string)
    (s : ControlState) :
  let name := removeInvalidAddonNameChars addonName in
  let nothing :=
    ConsoleInfo ("Nothing to do. Addon '" ++ name ++ "' was already enabled.") in
  String.eqb addonName EmptyString = false ->
  env_path_resolve env = Some resolve ->
  env_existsSync env (resolve (env_dirname env ++ "/../addons/" ++ name)) = true ->
  env_writeConfig_throws env = None ->
  addonControl env (Some "enable") (Some addonName) [] s =
    (match getMember (cs_addons s) name with
     | Own (CfgObject fields) =>
         {| cs_addons :=
              if enabledIsFalse fields
              then setOwn (cs_addons s) name
                          (CfgObject (setOwn fields "enabled" (PBool true)))
              else cs_addons s;
            cs_output := (cs_output s ++ [nothing])%list |}
     | other =>
         if truthyMember other then
           {| cs_addons := cs_addons s;
              cs_output := (cs_output s ++ [nothing])%list |}
         else
           let created :=
             setOwn (cs_addons s) name (CfgObject [("enabled", PBool true)]) in
           {| cs_addons := created;
              cs_output :=
                (cs_output s
                 ++ [WriteConfig created;
                     ConsoleInfo ("Enabled addon '" ++ name ++ "'.")])%list |}
     end, Returned tt).
Proof.
  intros name nothing Hname Hpath Hexists Hwrite.
  rewrite (addonControl_named env "enable" addonName resolve [] s
             ltac:(cbn; tauto) Hname Hpath).
  cbn [String.eqb Ascii.eqb Bool.eqb]. fold name.
  rewrite enableCommand_run by (unfold civilWrite; now rewrite Hwrite).
  rewrite Hexists. unfold written, report, withAddons. rewrite Hwrite.
  cbn [cs_addons cs_output].
  destruct (getMember (cs_addons s) name) as [[|p|fields]| | |];
    cbn [truthyMember truthy];
    repeat match goal with
           | |- context [if ?b then _ else _] => destruct b
           end;
    reflexivity.
Qed.

(** X4 on an addon without an entry. *)
Lemma enable_writes_only_new_entries_witness :
  addonControl boundEnv (Some "enable") (Some "addonC") [] twoEntries =
    ({| cs_addons := [("addonA", CfgObject [("enabled", PBool true)]);
                      ("addonB", CfgObject [("enabled", PBool false)]);
                      ("addonC", CfgObject [("enabled", PBool true)])];
        cs_output :=
          [WriteConfig [("addonA", CfgObject [("enabled", PBool true)]);
                        ("addonB", CfgObject [("enabled", PBool false)]);
                        ("addonC", CfgObject [("enabled", PBool true)])];
           ConsoleInfo "Enabled addon 'addonC'."] |},
     Returned tt).
Proof.
  exact (enable_writes_only_new_entries boundEnv "addonC" (fun p => p) twoEntries
           eq_refl eq_refl eq_refl eq_refl).
Defined.

(** X18. [disable] with a name that is no member of [Object.prototype],
    where [path] is bound and [writeConfig] throws nothing or a value other
    than [null] and [undefined]: the command returns normally; afterwards
    the loader would not load the addon from the configuration in memory,
    under any spelling that the sanitizer maps to the name; the declared
    names and their order, and every other entry, are as before; the
    configuration is written, once and as it then is, exactly when the
    entry was an object whose [enabled] was not [false], also when that
    write fails. *)
Theorem disable_makes_the_loader_skip
    (env : ControlEnv) (addonName : string) (resolve : string -> string)
    (args : list string) (logging : list string) (s s' : ControlState)
    (c : Completion unit) :
  let name := removeInvalidAddonNameChars addonName in
  String.eqb addonName EmptyString = false ->
  env_path_resolve env = Some resolve ->
  inheritedName name = false ->
  civilWrite env = true ->
  addonControl env (Some "disable") (Some addonName) args s = (s', c) ->
  c = Returned tt
  /\ (forall key,
        removeInvalidAddonNameChars key = name ->
        eligible {| cfg_logging := logging; cfg_addons := cs_addons s' |} key
          = false)
  /\ keys (cs_addons s') = keys (cs_addons s)
  /\ (forall k, k <> name ->
                getOwn (cs_addons s') k = getOwn (cs_addons s) k)
  /\ writesOf (cs_output s') =
       (writesOf (cs_output s)
        ++ match getOwn (cs_addons s) name with
           | Some (CfgObject fields) =>
               if enabledIsFalse fields then [] else [cs_addons s']
           | _ => []
           end)%list.
Proof.
  intros name Hname Hpath Hplain Hwrite.
  rewrite (addonControl_named env "disable" addonName resolve args s
             ltac:(cbn; tauto) Hname Hpath).
  cbn [String.eqb Ascii.eqb Bool.eqb]. fold name.
  rewrite disableCommand_run by exact Hwrite.
  rewrite (getMember_plain _ _ Hplain).
  intros Hrun. injection Hrun as <- <-. split; [reflexivity|].
  assert (Hskip : forall addons,
            (match getOwn addons name with
             | Some (CfgObject fields) => enabledIsFalse fields = true
             | _ => True
             end) ->
            forall key,
              removeInvalidAddonNameChars key = name ->
              eligible {| cfg_logging := logging; cfg_addons := addons |} key
                = false).
  { intros addons H key Hkey. unfold eligible. cbn [cfg_addons]. rewrite Hkey.
    rewrite (getMember_plain _ _ Hplain).
    destruct (getOwn addons name) as [[|p|fields]|]; try reflexivity.
    now rewrite H. }
  destruct (getOwn (cs_addons s) name) as [[|p|fields]|] eqn:Hentry.
  1, 4: (split; [apply Hskip; cbn [report cs_addons]; now rewrite Hentry|];
         split; [reflexivity|]; split; [reflexivity|];
         rewrite app_nil_r; now apply writesOf_report_one).
  - destruct (truthyPrim p);
      (split; [apply Hskip; cbn [report cs_addons]; now rewrite Hentry|];
       split; [reflexivity|]; split; [reflexivity|];
       rewrite app_nil_r; now apply writesOf_report_one).
  - destruct (enabledIsFalse fields) eqn:Hflag.
    + split; [apply Hskip; cbn [report cs_addons]; now rewrite Hentry|].
      split; [reflexivity|]. split; [reflexivity|].
      rewrite app_nil_r. now apply writesOf_report_one.
    + rewrite (assignField_named fields "enabled" (PBool false) eq_refl). split.
      { apply Hskip. cbn [written report withAddons cs_addons].
        rewrite getOwn_setOwn_same. now rewrite enabledIsFalse_setOwn. }
      split.
      { cbn [written report withAddons cs_addons].
        now apply (keys_setOwn_present _ _ _ _ Hentry). }
      split.
      { intros k Hk. cbn [written report withAddons cs_addons].
        apply getOwn_setOwn_other. congruence. }
      rewrite writesOf_written. reflexivity.
Qed.

(** X18 on an enabled addon. *)
Lemma disable_makes_the_loader_skip_witness :
  eligible {| cfg_logging := allTypes;
              cfg_addons :=
                cs_addons (fst (addonControl boundEnv (Some "disable")
                                  (Some "addonA") [] twoEntries)) |}
           "addonA" = false.
Proof.
  exact (proj1 (proj2 (disable_makes_the_loader_skip
                         boundEnv "addonA" (fun p => p) [] allTypes twoEntries
                         _ _ eq_refl eq_refl eq_refl eq_refl eq_refl))
               "addonA" eq_refl).
Defined.

Lemma truthy_own_member (o : list (string * ConfigValue)) (k : string) :
  truthyMember (getMember o k) = false -> truthy (getOwn o k) = false.
Proof.
  unfold getMember. destruct (getOwn o k) as [v|]; [trivial|reflexivity].
Qed.

(** X19. [remove] with a name, where [path] is bound and [writeConfig]
    throws nothing or a value other than [null] and [undefined]: the
    command returns normally. When the lookup of the name finds something
    truthy, an own entry of that name is deleted, the remaining names keep
    their order and their entries, and the configuration is written once,
    as it then is, also when that write fails; this is so for a member
    that every object inherits, too, where there is nothing to delete.
    When the lookup finds nothing, [null] or a falsy value, nothing
    changes and nothing is written. Afterwards the name is not declared
    with a truthy entry. *)
Theorem remove_deletes_the_entry
    (env : ControlEnv) (addonName : string) (resolve : string -> string)
    (args : list string) (s s' : ControlState) (c : Completion unit) :
  let name := removeInvalidAddonNameChars addonName in
  String.eqb addonName EmptyString = false ->
  env_path_resolve env = Some resolve ->
  civilWrite env = true ->
  addonControl env (Some "remove") (Some addonName) args s = (s', c) ->
  c = Returned tt
  /\ cs_addons s' =
       (if truthyMember (getMember (cs_addons s) name)
        then deleteOwn (cs_addons s) name else cs_addons s)
  /\ truthy (getOwn (cs_addons s') name) = false
  /\ keys (cs_addons s') =
       (if truthyMember (getMember (cs_addons s) name)
        then filter (fun k => negb (String.eqb k name)) (keys (cs_addons s))
        else keys (cs_addons s))
  /\ (forall k, k <> name ->
                getOwn (cs_addons s') k = getOwn (cs_addons s) k)
  /\ writesOf (cs_output s') =
       (writesOf (cs_output s)
        ++ if truthyMember (getMember (cs_addons s) name)
           then [cs_addons s'] else [])%list.
Proof.
  intros name Hname Hpath Hwrite.
  rewrite (addonControl_named env "remove" addonName resolve args s
             ltac:(cbn; tauto) Hname Hpath).
  cbn [String.eqb Ascii.eqb Bool.eqb]. fold name.
  rewrite removeCommand_run by exact Hwrite.
  intros Hrun. injection Hrun as <- <-. split; [reflexivity|].
  destruct (truthyMember (getMember (cs_addons s) name)) eqn:Hentry.
  - cbn [written report withAddons cs_addons].
    split; [reflexivity|]. split; [now rewrite getOwn_deleteOwn_same|].
    split; [apply keys_deleteOwn|].
    split; [intros k Hk; apply getOwn_deleteOwn_other; congruence|].
    exact (writesOf_written env (removedInfo name) (removeFailure name)
             (withAddons s (deleteOwn (cs_addons s) name))).
  - cbn [report cs_addons]. split; [reflexivity|].
    split; [now apply truthy_own_member|].
    split; [reflexivity|]. split; [reflexivity|].
    rewrite app_nil_r. now apply writesOf_report_one.
Qed.

(** X19 on an installed addon. *)
Lemma remove_deletes_the_entry_witness :
  cs_addons (fst (addonControl boundEnv (Some "remove") (Some "addonA") []
                    twoEntries)) =
    [("addonB", CfgObject [("enabled", PBool false)])].
Proof.
  exact (proj1 (proj2 (remove_deletes_the_entry
                         boundEnv "addonA" (fun p => p) [] twoEntries
                         _ _ eq_refl eq_refl eq_refl eq_refl))).
Defined.

(** X21. [config] with a name, where [path] is bound, given fewer than two
    arguments or a name whose lookup finds nothing truthy: the command
    prints one error line and ends the process with exit code 1; the
    addon's [configCtrl] is not consulted, no entry changes and nothing is
    written. *)
Theorem config_refuses_without_key_value_or_entry
    (env : ControlEnv) (addonName : string) (resolve : string -> string)
    (args : list string) (s s' : ControlState) (c : Completion unit) :
  let name := removeInvalidAddonNameChars addonName in
  String.eqb addonName EmptyString = false ->
  env_path_resolve env = Some resolve ->
  (length args < 2)%nat
  \/ truthyMember (getMember (cs_addons s) name) = false ->
  addonControl env (Some "config") (Some addonName) args s = (s', c) ->
  c = Exited 1
  /\ cs_addons s' = cs_addons s
  /\ writesOf (cs_output s') = writesOf (cs_output s)
  /\ exists line, cs_output s' = (cs_output s ++ [ConsoleError [line]])%list.
Proof.
  intros name Hname Hpath Hguard.
  rewrite (addonControl_named env "config" addonName resolve args s
             ltac:(cbn; tauto) Hname Hpath).
  cbn [String.eqb Ascii.eqb Bool.eqb]. fold name.
  unfold configCommand, bind at 1.
  destruct (length args <? 2)%nat eqn:Hfew.
  - intros Hrun. injection Hrun as <- <-.
    split; [reflexivity|]. split; [reflexivity|].
    split; [cbn [cs_output]; rewrite writesOf_app; cbn; now rewrite app_nil_r|].
    eexists. reflexivity.
  - destruct Hguard as [Hlen|Hentry];
      [apply Nat.ltb_ge in Hfew; lia|].
    unfold ret at 1, bind at 1, getEntry, bind at 1. rewrite Hentry.
    intros Hrun. injection Hrun as <- <-.
    split; [reflexivity|]. split; [reflexivity|].
    split; [cbn [cs_output]; rewrite writesOf_app; cbn; now rewrite app_nil_r|].
    eexists. reflexivity.
Qed.

(** X21 on a name that is not installed. *)
Lemma config_refuses_without_key_value_or_entry_witness :
  snd (addonControl boundEnv (Some "config") (Some "addonC") ["volume"; "3"]
         twoEntries) = Exited 1.
Proof.
  exact (proj1 (config_refuses_without_key_value_or_entry
                  boundEnv "addonC" (fun p => p) ["volume"; "3"] twoEntries
                  _ _ eq_refl eq_refl (or_intror eq_refl) eq_refl)).
Defined.

(** X28. [enable] with a name that is no member of [Object.prototype],
    where [path] is bound and [writeConfig] throws nothing or a value
    other than [null] and [undefined]. When the addon's folder does not
    exist, the command prints one error line and ends the process with
    exit code 1, and nothing is changed or written. When it exists, the
    command returns normally, also when writing the configuration fails,
    and afterwards the loader would try to load the addon from the
    configuration in memory, under any spelling that the sanitizer maps to
    the name, unless the name is the reserved one or the entry was a
    truthy primitive, which [enable] reports as already enabled and the
    loader passes over. *)
Theorem enable_makes_the_loader_try
    (env : ControlEnv) (addonName : string) (resolve : string -> string)
    (args : list string) (logging : list string) (s s' : ControlState)
    (c : Completion unit) :
  let name := removeInvalidAddonNameChars addonName in
  let addonPath := resolve (env_dirname env ++ "/../addons/" ++ name) in
  String.eqb addonName EmptyString = false ->
  env_path_resolve env = Some resolve ->
  inheritedName name = false ->
  civilWrite env = true ->
  addonControl env (Some "enable") (Some addonName) args s = (s', c) ->
  (env_existsSync env addonPath = false ->
   c = Exited 1
   /\ cs_addons s' = cs_addons s
   /\ writesOf (cs_output s') = writesOf (cs_output s))
  /\ (env_existsSync env addonPath = true ->
      c = Returned tt
      /\ forall key,
           removeInvalidAddonNameChars key = name ->
           eligible {| cfg_logging := logging; cfg_addons := cs_addons s' |} key
             = negb (String.eqb name "addonInterface")
               && match getOwn (cs_addons s) name with
                  | Some (CfgPrim p) => negb (truthyPrim p)
                  | _ => true
                  end).
Proof.
  intros name addonPath Hname Hpath Hplain Hwrite.
  rewrite (addonControl_named env "enable" addonName resolve args s
             ltac:(cbn; tauto) Hname Hpath).
  cbn [String.eqb Ascii.eqb Bool.eqb]. fold name. fold addonPath.
  rewrite enableCommand_run by exact Hwrite.
  rewrite (getMember_plain _ _ Hplain).
  destruct (env_existsSync env addonPath); intros Hrun;
    injection Hrun as <- <-; (split; [intros Hex|intros Hex]);
    try discriminate.
  2:{ split; [reflexivity|]. split; [reflexivity|].
      now apply writesOf_report_one. }
  split; [reflexivity|]. intros key Hkey. unfold eligible.
  cbn [cfg_addons]. rewrite Hkey. rewrite (getMember_plain _ _ Hplain).
  assert (Hnew : forall s0 : ControlState,
            match
              match
                getOwn (setOwn (cs_addons s0) name
                          (CfgObject [("enabled", PBool true)])) name
              with
              | Some v => Own v
              | None => Missing
              end
            with
            | Own (CfgObject fields) =>
                negb (enabledIsFalse fields)
                && negb (String.eqb name "addonInterface")
            | ObjectPrototype => true
            | _ => false
            end = negb (String.eqb name "addonInterface") && true).
  { intros s0. rewrite getOwn_setOwn_same. cbn. now rewrite andb_true_r. }
  destruct (getOwn (cs_addons s) name) as [[|p|fields]|] eqn:Hentry;
    cbn [truthyMember truthy].
  - exact (Hnew s).
  - destruct (truthyPrim p); cbn [negb].
    + cbn [report cs_addons]. rewrite Hentry. now rewrite andb_false_r.
    + exact (Hnew s).
  - rewrite andb_true_r. destruct (enabledIsFalse fields) eqn:Hflag.
    + cbn [report withAddons cs_addons]. rewrite getOwn_setOwn_same.
      now rewrite enabledIsFalse_setOwn.
    + cbn [report cs_addons]. now rewrite Hentry, Hflag.
  - exact (Hnew s).
Qed.

(** X28 on a new addon. *)
Lemma enable_makes_the_loader_try_witness :
  eligible {| cfg_logging := allTypes;
              cfg_addons :=
                cs_addons (fst (addonControl boundEnv (Some "enable")
                                  (Some "addonC") [] twoEntries)) |}
           "addonC" = true.
Proof.
  exact (proj2 (proj2 (enable_makes_the_loader_try
                         boundEnv "addonC" (fun p => p) [] allTypes twoEntries
                         _ _ eq_refl eq_refl eq_refl eq_refl eq_refl)
                      eq_refl)
               "addonC" eq_refl).
Defined.

(** X20. Running [enable], [disable] or [remove] a second time changes
    nothing, for a name that is no member of [Object.prototype] and a
    [writeConfig] that throws nothing or a value other than [null] and
    [undefined]: when a run with a name returned, the same command on the
    same name, whatever its further arguments, returns too, leaves every
    entry of the configuration in memory as the first run left it and
    does not write the configuration. *)
Theorem second_run_changes_nothing
    (env : ControlEnv) (command addonName : string)
    (resolve : string -> string) (args args' : list string)
    (s s1 s2 : ControlState) (c2 : Completion unit) :
  In command ["enable"; "disable"; "remove"] ->
  String.eqb addonName EmptyString = false ->
  env_path_resolve env = Some resolve ->
  inheritedName (removeInvalidAddonNameChars addonName) = false ->
  civilWrite env = true ->
  addonControl env (Some command) (Some addonName) args s = (s1, Returned tt) ->
  addonControl env (Some command) (Some addonName) args' s1 = (s2, c2) ->
  c2 = Returned tt
  /\ cs_addons s2 = cs_addons s1
  /\ writesOf (cs_output s2) = writesOf (cs_output s1).
Proof.
  intros Hcommand Hname Hpath Hplain Hwrite.
  assert (Hin : In command ["enable"; "disable"; "remove"; "config"])
    by (cbn in *; tauto).
  rewrite !(addonControl_named env command addonName resolve _ _ Hin Hname Hpath).
  cbv zeta.
  set (name := removeInvalidAddonNameChars addonName) in *.
  set (addonPath := resolve (env_dirname env ++ "/../addons/" ++ name)).
  destruct Hcommand as [<-|[<-|[<-|[]]]]; cbn [String.eqb Ascii.eqb Bool.eqb].
  - rewrite !enableCommand_run by exact Hwrite.
    destruct (env_existsSync env addonPath); [|discriminate].
    intros H1 H2. injection H1 as <-. injection H2 as <- <-.
    split; [reflexivity|]. rewrite !(getMember_plain _ _ Hplain).
    destruct (getOwn (cs_addons s) name) as [[|p|fields]|] eqn:Hentry;
      cbn [truthyMember truthy].
    + cbn [written report withAddons cs_addons].
      rewrite getOwn_setOwn_same. unfold enabledIsFalse. cbn [getOwn].
      cbn [String.eqb Ascii.eqb Bool.eqb report cs_addons cs_output].
      split; [reflexivity|]. rewrite writesOf_app. cbn. now rewrite app_nil_r.
    + destruct (truthyPrim p) eqn:Hp.
      * cbn [report cs_addons]. rewrite Hentry. cbn [truthyMember truthy].
        rewrite Hp. split; [reflexivity|]. now apply writesOf_report_one.
      * cbn [written report withAddons cs_addons].
        rewrite getOwn_setOwn_same. unfold enabledIsFalse. cbn [getOwn].
        cbn [String.eqb Ascii.eqb Bool.eqb report cs_addons cs_output].
        split; [reflexivity|]. rewrite writesOf_app. cbn. now rewrite app_nil_r.
    + destruct (enabledIsFalse fields) eqn:Hflag.
      * cbn [report withAddons cs_addons]. rewrite getOwn_setOwn_same.
        rewrite enabledIsFalse_setOwn. cbn [negb].
        split; [reflexivity|]. now apply writesOf_report_one.
      * cbn [report cs_addons]. rewrite Hentry, Hflag.
        split; [reflexivity|]. now apply writesOf_report_one.
    + cbn [written report withAddons cs_addons].
      rewrite getOwn_setOwn_same. unfold enabledIsFalse. cbn [getOwn].
      cbn [String.eqb Ascii.eqb Bool.eqb report cs_addons cs_output].
      split; [reflexivity|]. rewrite writesOf_app. cbn. now rewrite app_nil_r.
  - rewrite !disableCommand_run by exact Hwrite.
    intros H1 H2. injection H1 as <-. injection H2 as <- <-.
    split; [reflexivity|]. rewrite !(getMember_plain _ _ Hplain).
    destruct (getOwn (cs_addons s) name) as [[|p|fields]|] eqn:Hentry.
    + cbn [report cs_addons]. rewrite Hentry.
      split; [reflexivity|]. now apply writesOf_report_one.
    + destruct (truthyPrim p) eqn:Hp; cbn [report cs_addons];
        rewrite Hentry, Hp; (split; [reflexivity|]);
        now apply writesOf_report_one.
    + destruct (enabledIsFalse fields) eqn:Hflag.
      * cbn [report cs_addons]. rewrite Hentry, Hflag.
        split; [reflexivity|]. now apply writesOf_report_one.
      * rewrite (assignField_named fields "enabled" (PBool false) eq_refl).
        cbn [written report withAddons cs_addons]. rewrite getOwn_setOwn_same.
        rewrite enabledIsFalse_setOwn. cbn [negb].
        split; [reflexivity|]. now apply writesOf_report_one.
    + cbn [report cs_addons]. rewrite Hentry.
      split; [reflexivity|]. now apply writesOf_report_one.
  - rewrite !removeCommand_run by exact Hwrite.
    intros H1 H2. injection H1 as <-. injection H2 as <- <-.
    split; [reflexivity|]. rewrite !(getMember_plain _ _ Hplain).
    destruct (getOwn (cs_addons s) name) as [v|] eqn:Hentry.
    + cbn [truthyMember]. destruct (truthy (Some v)) eqn:Htruthy.
      * cbn [written report withAddons cs_addons]. rewrite getOwn_deleteOwn_same.
        cbn [truthyMember]. split; [reflexivity|]. now apply writesOf_report_one.
      * cbn [report cs_addons]. rewrite Hentry. cbn [truthyMember].
        rewrite Htruthy.
        split; [reflexivity|]. now apply writesOf_report_one.
    + cbn [truthyMember report cs_addons]. rewrite Hentry. cbn [truthyMember].
      split; [reflexivity|]. now apply writesOf_report_one.
Qed.

(** X20 on [remove]. *)
Lemma second_run_changes_nothing_witness :
  cs_addons (fst (addonControl boundEnv (Some "remove") (Some "addonA") ["again"]
                    (fst (addonControl boundEnv (Some "remove") (Some "addonA")
                            [] twoEntries)))) =
    [("addonB", CfgObject [("enabled", PBool false)])].
Proof.
  exact (proj1 (proj2 (second_run_changes_nothing
                         boundEnv "remove" "addonA" (fun p => p) [] ["again"]
                         twoEntries _ _ _
                         ltac:(cbn; tauto) eq_refl eq_refl eq_refl eq_refl
                         eq_refl eq_refl))).
Defined.

Lemma configCommand_default (env : ControlEnv) (name addonPath : string)
    (key value : string) (rest : list string) (fields : Fields)
    (s : ControlState) :
  noHandler (env_configCtrl env addonPath) = true ->
  civilWrite env = true ->
  String.eqb key "__proto__" = false ->
  getOwn (cs_addons s) name = Some (CfgObject fields) ->
  configCommand env name addonPath (key :: value :: rest) s =
    (written env (configInfo name) (configFailure name)
       (withAddons (report s (requireFailure env name addonPath))
          (setOwn (cs_addons s) name
             (CfgObject (setOwn fields key (PString value))))),
     Returned tt).
Proof.
  intros Hctrl Hwrite Hkey Hentry. unfold configCommand, requireFailure.
  cbn [length Nat.ltb Nat.leb nth].
  unfold bind at 1, ret at 1, bind at 1, getEntry, bind at 1.
  rewrite (getMember_own _ _ _ Hentry). cbn [truthyMember truthy].
  unfold ret at 1, bind at 1.
  assert (Hbody : forall s0,
            getOwn (cs_addons s0) name = Some (CfgObject fields) ->
            tryCatch
              (writeIt <-
                 (setEntryField name key (PString value) ;;
                  setEntryField name key (PString value) ;; ret true) ;;
               if (writeIt : bool)
               then writeConfig env ;; out (ConsoleInfo (configInfo name))
               else ret tt)
              (reportError (configFailure name)) s0 =
              (written env (configInfo name) (configFailure name)
                 (withAddons s0
                    (setOwn (cs_addons s0) name
                       (CfgObject (setOwn fields key (PString value))))),
               Returned tt)).
  { intros s0 H0.
    assert (Hinner :
              (setEntryField name key (PString value) ;;
               setEntryField name key (PString value) ;; ret true) s0 =
                (withAddons s0
                   (setOwn (cs_addons s0) name
                      (CfgObject (setOwn fields key (PString value)))),
                 Returned true)).
    { unfold bind at 1, setEntryField at 1, bind at 1, getEntry.
      rewrite (getMember_own _ _ _ H0).
      unfold setAddons at 1, bind at 1, setEntryField, bind at 1, getEntry.
      cbn [cs_addons].
      rewrite (getMember_own _ _ _ (getOwn_setOwn_same _ _ _)).
      unfold setAddons, ret.
      cbn [cs_addons cs_output]. rewrite !(assignField_named _ _ _ Hkey).
      rewrite !setOwn_setOwn. reflexivity. }
    unfold tryCatch, bind at 1. rewrite Hinner.
    exact (writeConfig_report env (configInfo name) (configFailure name)
             (withAddons s0 _) Hwrite). }
  destruct (env_configCtrl env addonPath) as [e| |run]; [| |discriminate].
  - rewrite reportError_run
      by (intros n ->; discriminate).
    rewrite Hbody by exact Hentry. reflexivity.
  - unfold ret at 1. rewrite Hbody by exact Hentry.
    now rewrite report_nil.
Qed.

(** X22. [config <name> <key> <value>] for an addon whose entry is an
    object and that exports no [configCtrl] function, or whose module
    cannot be required, where [path] is bound, [key] is not [__proto__],
    and neither the [require] nor [writeConfig] throw [null] or
    [undefined]: the command returns normally; the entry holds [value],
    the string it was given, under [key] and its other fields as before;
    further arguments are ignored; the declared names and every other
    entry are as before; the configuration is written once, as it then is.
    As the value is stored as a string, the key [enabled] never makes the
    loader skip the addon this way. *)
Theorem config_sets_one_field
    (env : ControlEnv) (addonName : string) (resolve : string -> string)
    (key value : string) (rest : list string) (fields : Fields)
    (s s' : ControlState) (c : Completion unit) :
  let name := removeInvalidAddonNameChars addonName in
  let addonPath := resolve (env_dirname env ++ "/../addons/" ++ name) in
  String.eqb addonName EmptyString = false ->
  env_path_resolve env = Some resolve ->
  noHandler (env_configCtrl env addonPath) = true ->
  civilWrite env = true ->
  String.eqb key "__proto__" = false ->
  getOwn (cs_addons s) name = Some (CfgObject fields) ->
  addonControl env (Some "config") (Some addonName) (key :: value :: rest) s =
    (s', c) ->
  c = Returned tt
  /\ (exists fields',
        getOwn (cs_addons s') name = Some (CfgObject fields')
        /\ getOwn fields' key = Some (PString value)
        /\ (forall k, k <> key -> getOwn fields' k = getOwn fields k)
        /\ enabledIsFalse fields' = enabledIsFalse fields && negb (String.eqb key "enabled"))
  /\ keys (cs_addons s') = keys (cs_addons s)
  /\ (forall k, k <> name ->
                getOwn (cs_addons s') k = getOwn (cs_addons s) k)
  /\ writesOf (cs_output s') = (writesOf (cs_output s) ++ [cs_addons s'])%list.
Proof.
  intros name addonPath Hname Hpath Hctrl Hwrite Hkey Hentry.
  rewrite (addonControl_named env "config" addonName resolve _ s
             ltac:(cbn; tauto) Hname Hpath).
  cbn [String.eqb Ascii.eqb Bool.eqb]. fold name. fold addonPath.
  rewrite (configCommand_default env name addonPath key value rest fields s
             Hctrl Hwrite Hkey Hentry).
  intros Hrun. injection Hrun as <- <-. split; [reflexivity|].
  split; [|split; [|split]].
  - exists (setOwn fields key (PString value)).
    cbn [written report withAddons cs_addons].
    split; [apply getOwn_setOwn_same|]. split; [apply getOwn_setOwn_same|].
    split; [intros k Hk; apply getOwn_setOwn_other; congruence|].
    unfold enabledIsFalse.
    destruct (String.eqb_spec key "enabled") as [->|Hne].
    + rewrite getOwn_setOwn_same. cbn [negb]. now rewrite andb_false_r.
    + rewrite getOwn_setOwn_other by exact Hne. cbn [negb].
      now rewrite andb_true_r.
  - cbn [written report withAddons cs_addons].
    now apply (keys_setOwn_present _ _ _ _ Hentry).
  - intros k Hk. cbn [written report withAddons cs_addons].
    apply getOwn_setOwn_other. congruence.
  - rewrite writesOf_written. cbn [withAddons report cs_output cs_addons].
    rewrite writesOf_app. unfold requireFailure.
    destruct (env_configCtrl env addonPath); cbn; now rewrite app_nil_r.
Qed.

(** X22 on the key [enabled]: the value [false] is stored as a string,
    and the addon stays eligible. *)
Lemma config_sets_one_field_witness :
  cs_addons (fst (addonControl boundEnv (Some "config") (Some "addonA")
                    ["enabled"; "false"] twoEntries)) =
    [("addonA", CfgObject [("enabled", PString "false")]);
     ("addonB", CfgObject [("enabled", PBool false)])]
  /\ writesOf (cs_output (fst (addonControl boundEnv (Some "config")
                                 (Some "addonA") ["enabled"; "false"]
                                 twoEntries))) =
       [[("addonA", CfgObject [("enabled", PString "false")]);
         ("addonB", CfgObject [("enabled", PBool false)])]].
Proof.
  split; [reflexivity|].
  exact (proj2 (proj2 (proj2 (proj2
           (config_sets_one_field
              boundEnv "addonA" (fun p => p) "enabled" "false" []
              [("enabled", PBool true)] twoEntries _ _
              eq_refl eq_refl eq_refl eq_refl eq_refl eq_refl eq_refl))))).
Defined.

Lemma withAddons_same (s : ControlState) : withAddons s (cs_addons s) = s.
Proof. now destruct s. Qed.

Lemma forEach_setEntryField_run (name : string) (sets : list (string * Prim)) :
  forall (s : ControlState) (fields : Fields),
    getOwn (cs_addons s) name = Some (CfgObject fields) ->
    forEach (fun kv => setEntryField name (fst kv) (snd kv)) sets s =
      (withAddons s (setOwn (cs_addons s) name
                       (CfgObject (applySets sets fields))),
       Returned tt).
Proof.
  induction sets as [|[k v] rest IH]; intros s fields Hentry;
    cbn [forEach applySets fold_left fst snd].
  - unfold ret. rewrite (setOwn_present _ _ _ Hentry).
    now rewrite withAddons_same.
  - unfold bind, setEntryField at 1, bind, getEntry.
    rewrite (getMember_own _ _ _ Hentry).
    unfold setAddons at 1.
    rewrite (IH _ (assignField fields k v))
      by (cbn [cs_addons]; apply getOwn_setOwn_same).
    unfold withAddons. cbn [cs_addons cs_output].
    now rewrite setOwn_setOwn.
Qed.

(** X23. [config] for an addon whose entry is an object and that exports a
    [configCtrl] function, where [path] is bound, at least two arguments
    are given, and neither the handler nor [writeConfig] throw [null] or
    [undefined]: the handler is called with the entry and the arguments;
    the values it passed to [setConfigValue] are assigned to the entry in
    memory, whatever the handler returned; the configuration is written,
    once and as it then is, exactly when the handler returned a truthy
    value; a handler that throws has what it threw printed and caught, and
    what it had set stays in memory without being written. *)
Theorem config_handler_decides_the_write
    (env : ControlEnv) (addonName : string) (resolve : string -> string)
    (args : list string) (fields : Fields)
    (run : Member -> list string -> list (string * Prim) * Completion bool)
    (sets : list (string * Prim)) (result : Completion bool)
    (s s' : ControlState) (c : Completion unit) :
  let name := removeInvalidAddonNameChars addonName in
  let addonPath := resolve (env_dirname env ++ "/../addons/" ++ name) in
  String.eqb addonName EmptyString = false ->
  env_path_resolve env = Some resolve ->
  (2 <= length args)%nat ->
  civilWrite env = true ->
  getOwn (cs_addons s) name = Some (CfgObject fields) ->
  env_configCtrl env addonPath = CtrlFunction run ->
  run (Own (CfgObject fields)) args = (sets, result) ->
  (forall n, result <> Thrown (Nullish n)) ->
  addonControl env (Some "config") (Some addonName) args s = (s', c) ->
  c = match result with
      | Exited code => Exited code
      | _ => Returned tt
      end
  /\ getOwn (cs_addons s') name = Some (CfgObject (applySets sets fields))
  /\ keys (cs_addons s') = keys (cs_addons s)
  /\ (forall k, k <> name ->
                getOwn (cs_addons s') k = getOwn (cs_addons s) k)
  /\ writesOf (cs_output s') =
       (writesOf (cs_output s)
        ++ match result with
           | Returned true => [cs_addons s']
           | _ => []
           end)%list
  /\ (forall e, result = Thrown e ->
                exists before,
                  cs_output s' =
                    (before ++ [ConsoleError [configFailure name;
                                              printedArg (stackText e)]])%list).
Proof.
  intros name addonPath Hname Hpath Hlen Hwrite Hentry Hctrl Hresult Hcivil.
  rewrite (addonControl_named env "config" addonName resolve _ s
             ltac:(cbn; tauto) Hname Hpath).
  cbn [String.eqb Ascii.eqb Bool.eqb]. fold name. fold addonPath.
  unfold configCommand.
  assert (Hfew : (length args <? 2)%nat = false) by (apply Nat.ltb_ge; lia).
  rewrite Hfew, Hctrl.
  unfold bind at 1, ret at 1, bind at 1, getEntry, bind at 1.
  rewrite (getMember_own _ _ _ Hentry). cbn [truthyMember truthy].
  unfold ret at 1, bind at 1, ret at 1.
  unfold tryCatch, bind at 1, bind at 1, out at 1, bind at 1.
  cbn [cs_addons]. rewrite (getMember_own _ _ _ Hentry), Hresult.
  unfold bind at 1.
  rewrite (forEach_setEntryField_run name sets _ fields)
    by (cbn [cs_addons]; exact Hentry).
  cbn [cs_addons cs_output withAddons].
  set (addons' := setOwn (cs_addons s) name (CfgObject (applySets sets fields))).
  set (s1 := {| cs_addons := addons';
                cs_output := (cs_output s
                              ++ [ConsoleInfo ("Use configCtrl function from addon '"
                                               ++ name ++ "'.")])%list |}).
  assert (Hget : getOwn addons' name = Some (CfgObject (applySets sets fields)))
    by apply getOwn_setOwn_same.
  assert (Hkeys : keys addons' = keys (cs_addons s))
    by (unfold addons'; now apply (keys_setOwn_present _ _ _ _ Hentry)).
  assert (Hothers : forall k, k <> name ->
                              getOwn addons' k = getOwn (cs_addons s) k)
    by (intros k Hk; apply getOwn_setOwn_other; congruence).
  assert (Hw1 : writesOf (cs_output s1) = writesOf (cs_output s)).
  { unfold s1. cbn [cs_output]. rewrite writesOf_app. cbn.
    now rewrite app_nil_r. }
  destruct result as [[|]|e|code]; intros Hrun.
  - change (tryCatch (writeConfig env ;; out (ConsoleInfo (configInfo name)))
              (reportError (configFailure name)) s1 =
              (s', c)) in Hrun.
    rewrite writeConfig_report in Hrun by exact Hwrite.
    injection Hrun as <- <-.
    split; [reflexivity|]. split; [exact Hget|]. split; [exact Hkeys|].
    split; [exact Hothers|]. split; [|discriminate].
    rewrite writesOf_written, Hw1. reflexivity.
  - change ((s1, Returned tt) = (s', c)) in Hrun. injection Hrun as <- <-.
    split; [reflexivity|]. split; [exact Hget|]. split; [exact Hkeys|].
    split; [exact Hothers|]. split; [|discriminate].
    now rewrite Hw1, app_nil_r.
  - change (reportError (configFailure name) e s1 = (s', c)) in Hrun.
    rewrite reportError_run in Hrun
      by (intros n ->; now apply (Hcivil n)).
    injection Hrun as <- <-.
    split; [reflexivity|]. split; [exact Hget|]. split; [exact Hkeys|].
    split; [exact Hothers|]. split.
    + rewrite writesOf_report_one by exact I. now rewrite Hw1, app_nil_r.
    + intros e' He. injection He as <-. eexists. reflexivity.
  - change ((s1, Exited code) = (s', c)) in Hrun. injection Hrun as <- <-.
    split; [reflexivity|]. split; [exact Hget|]. split; [exact Hkeys|].
    split; [exact Hothers|]. split; [|discriminate].
    now rewrite Hw1, app_nil_r.
Qed.

(** X23 on a handler that stores the volume. *)
Lemma config_handler_decides_the_write_witness :
  cs_addons (fst (addonControl handlerEnv (Some "config") (Some "addonA")
                    ["volume"; "3"] twoEntries)) =
    [("addonA", CfgObject [("enabled", PBool true); ("volume", PString "3")]);
     ("addonB", CfgObject [("enabled", PBool false)])]
  /\ writesOf (cs_output (fst (addonControl handlerEnv (Some "config")
                                 (Some "addonA") ["volume"; "3"] twoEntries))) =
       [[("addonA", CfgObject [("enabled", PBool true); ("volume", PString "3")]);
         ("addonB", CfgObject [("enabled", PBool false)])]].
Proof.
  split; [reflexivity|].
  exact (proj1 (proj2 (proj2 (proj2 (proj2
           (config_handler_decides_the_write
              handlerEnv "addonA" (fun p => p) ["volume"; "3"]
              [("enabled", PBool true)] _ _ _ twoEntries _ _
              eq_refl eq_refl (le_n 2) eq_refl eq_refl eq_refl eq_refl
              ltac:(discriminate) eq_refl)))))).
Defined.
